(** * render_jupyter: link discovery (spider.py) and download manager (download.py)

    A shallow embedding of the two resilience-critical subsystems of the
    repository: the sliding-window rate limiter and the scroll loop of
    [spider.py], and the filename resolution, resumable retry loop, task
    processing and final persistence of [download.py].

    Conventions.
    - Clock readings, sleeps and waits are rationals ([Q]), in seconds.
    - A Python [str] is a [string]; a character is a code point below 256.
    - The environment (the clock, the page, the server) is an explicit input
      of every operation that consults it, and every externally visible
      action is recorded in the state it is threaded through. *)

From Stdlib Require Import QArith Lqa ZArith Lia List Bool Ascii String.
From stdpp Require Import base gmap strings list pretty.

(** ** Rational comparisons as booleans *)

Definition Qltb (a b : Q) : bool := negb (Qle_bool b a).

(** ** spider.py: [RateLimiter] *)

Module RateLimiter.
Open Scope Q_scope.

(** [self.max_requests], [self.time_window], [self.request_times] (the deque,
    oldest timestamp first). *)
Record t := mk {
  max_requests : Z;
  time_window : Q;
  request_times : list Q
}.

(** [RateLimiter.__init__] *)
Definition init (max_requests : Z) (time_window : Q) : t :=
  mk max_requests time_window [].

(** [while self.request_times and self.request_times[0] < now - self.time_window:
       self.request_times.popleft()] *)
Fixpoint prune (bound : Q) (dq : list Q) : list Q :=
  match dq with
  | [] => []
  | t0 :: rest => if Qltb t0 bound then prune bound rest else dq
  end.

(** [acquire].  [now] is the reading of [time.time()] on entry and [wake] the
    second reading, taken after the sleep if there was one: it is the
    timestamp appended.  The result is the time slept and the new limiter, or
    [None] when [self.request_times[0]] raises [IndexError] (an empty deque
    with [max_requests <= 0]). *)
Definition acquire (rl : t) (now wake : Q) : option (Q * t) :=
  let dq := prune (now - time_window rl) (request_times rl) in
  if (max_requests rl <=? Z.of_nat (length dq))%Z then
    match dq with
    | [] => None
    | oldest :: _ =>
        let sleep_time := time_window rl - (now - oldest) + 0.1 in
        let slept := if Qltb 0 sleep_time then sleep_time else 0 in
        Some (slept, mk (max_requests rl) (time_window rl) (dq ++ [wake]))
    end
  else
    Some (0, mk (max_requests rl) (time_window rl) (dq ++ [wake])).

(** A session of sequential callers: the limiter, the last clock reading and
    every admission time so far (newest last). *)
Record session := mkS {
  limiter : t;
  clock : Q;
  admitted : list Q
}.

Definition start (max_requests : Z) (time_window : Q) (t0 : Q) : session :=
  mkS (init max_requests time_window) t0 [].

(** One call of [acquire] that returns: the clock does not run backwards and a
    sleep lasts at least as long as requested. *)
Inductive step : session -> session -> Prop :=
| step_acquire rl clk adm now wake slept rl' :
    clk <= now -> now + slept <= wake ->
    acquire rl now wake = Some (slept, rl') ->
    step (mkS rl clk adm) (mkS rl' wake (adm ++ [wake])).

Inductive reachable (s0 : session) : session -> Prop :=
| reach_refl : reachable s0 s0
| reach_step s s' : reachable s0 s -> step s s' -> reachable s0 s'.

(** Number of timestamps of [l] in the closed interval [[lo, hi]]. *)
Definition in_window (lo hi t0 : Q) : bool := Qle_bool lo t0 && Qle_bool t0 hi.

Definition window_count (lo hi : Q) (l : list Q) : nat :=
  length (List.filter (in_window lo hi) l).

(** The deque is kept in arrival order. *)
Fixpoint ascending (l : list Q) : Prop :=
  match l with
  | [] => True
  | x :: rest => Forall (fun y => x <= y) rest /\ ascending rest
  end.

(** The invariant of a session. *)
Record inv (mx : Z) (w : Q) (s : session) : Prop := mkInv {
  inv_max : max_requests (limiter s) = mx;
  inv_window : time_window (limiter s) = w;
  inv_clock : Forall (fun x => x <= clock s) (admitted s);
  inv_deque : exists old,
      admitted s = old ++ request_times (limiter s)
      /\ Forall (fun x => x < clock s - w) old;
  inv_order : ascending (request_times (limiter s));
  inv_bound : forall T,
      (Z.of_nat (window_count (T - w) T (admitted s)) <= mx)%Z
}.

End RateLimiter.

(** ** spider.py: [AntiSpiderConfig] and [UnsplashScraper] *)

Module AntiSpiderConfig.
Definition MAX_REQUESTS_PER_MINUTE : Z := 30.
Definition MAX_RETRIES : Z := 3.
Definition RETRY_BACKOFF_FACTOR : Z := 2.
End AntiSpiderConfig.

Module Scraper.
Import AntiSpiderConfig.
Open Scope string_scope.
Open Scope Z_scope.

(** One pass through the [try] body of [scroll_page]: either some awaited step
    raises, or both readings of [document.body.scrollHeight] are obtained. *)
Inductive attempt :=
| Raises
| Measures (before_height after_height : Z).

(** The browser, as the scraper sees it: the outcome of the [k]-th pass
    through the body of [scroll_page], and the [href] attributes (absent ones
    included) that the [k]-th call of [extract_download_links] reads before it
    returns. *)
Record browser := mkBrowser {
  scroll_outcome : nat -> attempt;
  rendered_hrefs : nat -> list (option string)
}.

(** The fields of [UnsplashScraper] that the flow reads and writes, together
    with the position in the browser's script ([scroll_passes],
    [extractions]) and the [./url] folder (path to content). *)
Record t := mk {
  search_keyword : string;
  save_threshold : Z;
  MAX_SCROLL_ATTEMPTS : Z;
  download_links : gset string;
  total_saved_links : Z;
  request_count : Z;
  scroll_passes : nat;
  extractions : nat;
  url_files : gmap string string
}.

(** [UnsplashScraper.__init__] *)
Definition init (search_keyword : string) (save_threshold : Z) : t :=
  mk search_keyword save_threshold 10000 ∅ 0 0 0%nat 0%nat ∅.

Definition with_links (s : t) (links : gset string) : t :=
  mk (search_keyword s) (save_threshold s) (MAX_SCROLL_ATTEMPTS s) links
     (total_saved_links s) (request_count s) (scroll_passes s) (extractions s)
     (url_files s).

(** [scroll_page]: [while retry_count < MAX_RETRIES], with the pacing waits
    left out.  The result is [after_height > before_height] of the first pass
    that does not raise, and [False] once [MAX_RETRIES] passes have raised. *)
Fixpoint scroll_page_from (fuel : nat) (retry_count : Z) (b : browser) (s : t)
  : bool * t :=
  match fuel with
  | O => (false, s)
  | S fuel' =>
      if retry_count <? MAX_RETRIES then
        let s' := mk (search_keyword s) (save_threshold s) (MAX_SCROLL_ATTEMPTS s)
                     (download_links s) (total_saved_links s) (request_count s)
                     (S (scroll_passes s)) (extractions s) (url_files s) in
        match scroll_outcome b (scroll_passes s) with
        | Measures before_height after_height =>
            (after_height >? before_height,
             mk (search_keyword s) (save_threshold s) (MAX_SCROLL_ATTEMPTS s)
                (download_links s) (total_saved_links s) (request_count s + 1)
                (S (scroll_passes s)) (extractions s) (url_files s))
        | Raises =>
            let retry_count := retry_count + 1 in
            if retry_count <? MAX_RETRIES
            then scroll_page_from fuel' retry_count b s'
            else (false, s')
        end
      else (false, s)
  end.

Definition scroll_page (b : browser) (s : t) : bool * t :=
  scroll_page_from (Z.to_nat MAX_RETRIES) 0 b s.

(** [if href and href not in self.download_links: self.download_links.add(href)] *)
Definition add_href (links : gset string) (href : option string) : gset string :=
  match href with
  | Some h => if decide (h = "") then links else {[h]} ∪ links
  | None => links
  end.

(** [extract_download_links]: returns [len(self.download_links)], also when
    the scan is cut short by an exception. *)
Definition extract_download_links (b : browser) (s : t) : Z * t :=
  let links := foldl add_href (download_links s) (rendered_hrefs b (extractions s)) in
  (Z.of_nat (size links),
   mk (search_keyword s) (save_threshold s) (MAX_SCROLL_ATTEMPTS s) links
      (total_saved_links s) (request_count s) (scroll_passes s)
      (S (extractions s)) (url_files s)).

(** [f"./url/{self.search_keyword}_{self.total_saved_links}.txt"] *)
Definition output_file (keyword : string) (total : Z) : string :=
  "./url/" +:+ keyword +:+ "_" +:+ pretty total +:+ ".txt".

Definition newline : string := String "010"%char "".

(** [for link in self.download_links: f.write(link + "\n")] *)
Definition link_lines (links : gset string) : string :=
  String.concat "" ((fun link => link +:+ newline) <$> elements links).

(** [open(output_file, "a")]: writes go to the end of what the file holds. *)
Definition append_file (files : gmap string string) (path data : string)
  : gmap string string :=
  <[path := default "" (files !! path) +:+ data]> files.

(** [save_links_to_file].  [write_ok] tells whether opening and writing the
    file succeed; when they raise, the exception is logged and the running
    total has already been advanced. *)
Definition save_links_to_file (write_ok : bool) (s : t) : t :=
  let total := total_saved_links s + Z.of_nat (size (download_links s)) in
  mk (search_keyword s) (save_threshold s) (MAX_SCROLL_ATTEMPTS s)
     (download_links s) total (request_count s) (scroll_passes s) (extractions s)
     (if write_ok
      then append_file (url_files s) (output_file (search_keyword s) total)
                       (link_lines (download_links s))
      else url_files s).

(** Why the [while] loop of [run_load_more_flow] was left. *)
Inductive exit :=
| NoMoreContent      (* [no_load_count >= 3]: break *)
| ThresholdReached   (* [current_count >= self.save_threshold]: save, clear, break *)
| MaxAttempts.       (* [scroll_count < self.MAX_SCROLL_ATTEMPTS] is false *)

(** What one iteration of the loop observed: the result of [scroll_page], the
    counter after it, and the link count returned by
    [extract_download_links] when the iteration got that far. *)
Record pass := mkPass {
  is_loaded : bool;
  no_load_after : Z;
  current_count : option Z
}.

Record flow := mkFlow {
  scraper : t;
  reason : exit;
  scroll_count : Z;
  no_load_count : Z;
  passes : list pass   (* oldest first *)
}.

(** The [while] loop of [run_load_more_flow]. *)
Fixpoint scroll_loop (fuel : nat) (b : browser) (write_ok : bool) (s : t)
    (scroll_count no_load_count : Z) (log : list pass) : flow :=
  match fuel with
  | O => mkFlow s MaxAttempts scroll_count no_load_count log
  | S fuel' =>
      if scroll_count <? MAX_SCROLL_ATTEMPTS s then
        let scroll_count := scroll_count + 1 in
        let '(is_loaded, s) := scroll_page b s in
        let no_load_count := if is_loaded then 0 else no_load_count + 1 in
        if no_load_count >=? 3 then
          mkFlow s NoMoreContent scroll_count no_load_count
                 (log ++ [mkPass is_loaded no_load_count None])%list
        else
          let '(current_count, s) := extract_download_links b s in
          let log := (log ++ [mkPass is_loaded no_load_count (Some current_count)])%list in
          if current_count >=? save_threshold s then
            let s := save_links_to_file write_ok s in
            let s := with_links s ∅ in
            mkFlow s ThresholdReached scroll_count no_load_count log
          else scroll_loop fuel' b write_ok s scroll_count no_load_count log
      else mkFlow s MaxAttempts scroll_count no_load_count log
  end.

(** [run_load_more_flow]: the first click on "Load more" changes nothing the
    loop reads, and then [scroll_count = 0], [no_load_count = 0]. *)
Definition run_load_more_flow (b : browser) (write_ok : bool) (s : t) : flow :=
  scroll_loop (Z.to_nat (MAX_SCROLL_ATTEMPTS s)) b write_ok s 0 0 [].

(** [start]: [setup_ok] tells whether [initialize] and [navigate_to_target]
    return; the [finally] block saves what is left in [download_links]. *)
Definition start (b : browser) (setup_ok write_ok : bool) (s : t) : t :=
  let s := if setup_ok then scraper (run_load_more_flow b write_ok s) else s in
  if decide (download_links s = ∅) then s else save_links_to_file write_ok s.

(** A simulated page, one height per call of [scroll_page]: the page has
    height [h0] at first and height [heights[k]] after the [k]-th scroll
    (counting from 0), and keeps its last height once the list is used up. *)
Definition page_of_heights (h0 : Z) (heights : list Z) (k : nat) : attempt :=
  let at_rest := List.last heights h0 in
  Measures (nth k (h0 :: heights) at_rest) (nth k heights at_rest).

(** A page that never grows and shows one download button. *)
Definition one_link_page : browser :=
  mkBrowser (fun _ => Measures 100 100)
            (fun _ => [Some "https://unsplash.com/photos/1/download"]).

(** The consecutive no-growth counter as the specification words it: zero after
    a scroll that grew the page, one more after a scroll that did not. *)
Definition streak_from (n0 : Z) (results : list bool) : Z :=
  foldl (fun n (grew : bool) => if grew then 0 else n + 1) n0 results.

Definition no_growth_streak (results : list bool) : Z := streak_from 0 results.

(** An iteration after which the loop goes on: the counter is below 3 and the
    link count below the save threshold. *)
Definition goes_on (threshold : Z) (p : pass) : Prop :=
  no_load_after p < 3 /\
  exists c, current_count p = Some c /\ c < threshold.

(** [scroll_page] and [extract_download_links] leave the configuration alone. *)
Definition same_config (s s' : t) : Prop :=
  search_keyword s' = search_keyword s /\
  save_threshold s' = save_threshold s /\
  MAX_SCROLL_ATTEMPTS s' = MAX_SCROLL_ATTEMPTS s.

Definition same_store (s s' : t) : Prop :=
  download_links s' = download_links s /\
  total_saved_links s' = total_saved_links s /\
  url_files s' = url_files s.

(** The simulated heights 100, 200, 200, 200, 350, read two ways: the page is
    100 high when the loop starts, or it is 0 high and 100 is what the first
    scroll finds. *)
Definition simulated_from_100 : browser :=
  mkBrowser (page_of_heights 100 [200; 200; 200; 350]) (fun _ => []).

Definition simulated_from_0 : browser :=
  mkBrowser (page_of_heights 0 [100; 200; 200; 200; 350]) (fun _ => []).

Definition scroll_results (f : flow) : list (bool * Z) :=
  (fun p => (is_loaded p, no_load_after p)) <$> passes f.

End Scraper.

(** ** Python strings *)

Module PyStr.
Open Scope string_scope.

(** [str.isspace] on one character (code points below 256). *)
Definition isspace (c : ascii) : bool :=
  let n := nat_of_ascii c in
  ((9 <=? n) && (n <=? 13) || (28 <=? n) && (n <=? 32)
   || (n =? 133) || (n =? 160))%nat.

Definition is_one_of (chars : string) (c : ascii) : bool :=
  existsb (Ascii.eqb c) (list_ascii_of_string chars).

Fixpoint lstrip (p : ascii -> bool) (s : string) : string :=
  match s with
  | String c rest => if p c then lstrip p rest else s
  | EmptyString => EmptyString
  end.

Fixpoint rstrip (p : ascii -> bool) (s : string) : string :=
  match s with
  | String c rest =>
      match rstrip p rest with
      | EmptyString => if p c then EmptyString else String c EmptyString
      | rest' => String c rest'
      end
  | EmptyString => EmptyString
  end.

(** [s.strip()] and [s.strip(chars)] *)
Definition strip (s : string) : string := lstrip isspace (rstrip isspace s).
Definition strip_chars (chars s : string) : string :=
  lstrip (is_one_of chars) (rstrip (is_one_of chars) s).

(** [s[len(pre):]] when [s.startswith(pre)] *)
Fixpoint after_prefix (pre s : string) : option string :=
  match pre, s with
  | EmptyString, _ => Some s
  | String a pre', String b s' => if Ascii.eqb a b then after_prefix pre' s' else None
  | String _ _, EmptyString => None
  end.

Definition startswith (pre s : string) : bool := bool_decide (is_Some (after_prefix pre s)).

(** [c in s] *)
Definition contains (c : ascii) (s : string) : bool :=
  existsb (Ascii.eqb c) (list_ascii_of_string s).

(** [s.split(c)[0]] *)
Fixpoint before_char (c : ascii) (s : string) : string :=
  match s with
  | String a rest => if Ascii.eqb a c then EmptyString else String a (before_char c rest)
  | EmptyString => EmptyString
  end.

(** [s.split(c)] *)
Fixpoint split_on (c : ascii) (s : string) : list string :=
  match s with
  | String a rest =>
      if Ascii.eqb a c then EmptyString :: split_on c rest
      else match split_on c rest with
           | first :: others => String a first :: others
           | [] => [String a EmptyString]
           end
  | EmptyString => [EmptyString]
  end.

(** [all(p(c) for c in s)] *)
Fixpoint all_chars (p : ascii -> bool) (s : string) : bool :=
  match s with
  | EmptyString => true
  | String c rest => p c && all_chars p rest
  end.

(** [s[:n]] *)
Fixpoint slice_to (n : nat) (s : string) : string :=
  match n, s with
  | S n', String a rest => String a (slice_to n' rest)
  | _, _ => EmptyString
  end.

End PyStr.

(** ** [hashlib.md5] (RFC 1321) *)

Module MD5.
Open Scope Z_scope.

Definition mask32 (x : Z) : Z := Z.land x 0xFFFFFFFF.
Definition add32 (x y : Z) : Z := mask32 (x + y).
Definition not32 (x : Z) : Z := Z.lxor x 0xFFFFFFFF.
Definition rotl32 (x : Z) (c : Z) : Z :=
  mask32 (Z.lor (Z.shiftl x c) (Z.shiftr x (32 - c))).

Definition shifts : list Z :=
  [7; 12; 17; 22; 7; 12; 17; 22; 7; 12; 17; 22; 7; 12; 17; 22;
   5; 9; 14; 20; 5; 9; 14; 20; 5; 9; 14; 20; 5; 9; 14; 20;
   4; 11; 16; 23; 4; 11; 16; 23; 4; 11; 16; 23; 4; 11; 16; 23;
   6; 10; 15; 21; 6; 10; 15; 21; 6; 10; 15; 21; 6; 10; 15; 21].

Definition sines : list Z :=
  [0xd76aa478; 0xe8c7b756; 0x242070db; 0xc1bdceee; 0xf57c0faf; 0x4787c62a; 0xa8304613; 0xfd469501;
   0x698098d8; 0x8b44f7af; 0xffff5bb1; 0x895cd7be; 0x6b901122; 0xfd987193; 0xa679438e; 0x49b40821;
   0xf61e2562; 0xc040b340; 0x265e5a51; 0xe9b6c7aa; 0xd62f105d; 0x02441453; 0xd8a1e681; 0xe7d3fbc8;
   0x21e1cde6; 0xc33707d6; 0xf4d50d87; 0x455a14ed; 0xa9e3e905; 0xfcefa3f8; 0x676f02d9; 0x8d2a4c8a;
   0xfffa3942; 0x8771f681; 0x6d9d6122; 0xfde5380c; 0xa4beea44; 0x4bdecfa9; 0xf6bb4b60; 0xbebfbc70;
   0x289b7ec6; 0xeaa127fa; 0xd4ef3085; 0x04881d05; 0xd9d4d039; 0xe6db99e5; 0x1fa27cf8; 0xc4ac5665;
   0xf4292244; 0x432aff97; 0xab9423a7; 0xfc93a039; 0x655b59c3; 0x8f0ccc92; 0xffeff47d; 0x85845dd1;
   0x6fa87e4f; 0xfe2ce6e0; 0xa3014314; 0x4e0811a1; 0xf7537e82; 0xbd3af235; 0x2ad7d2bb; 0xeb86d391].

(** Little-endian bytes of a word and back. *)
Fixpoint le_bytes (n : nat) (x : Z) : list Z :=
  match n with
  | O => []
  | S n' => Z.land x 0xFF :: le_bytes n' (Z.shiftr x 8)
  end.

Fixpoint le_word (bs : list Z) : Z :=
  match bs with
  | [] => 0
  | b :: rest => Z.lor b (Z.shiftl (le_word rest) 8)
  end.

Fixpoint words (n : nat) (bs : list Z) : list Z :=
  match n with
  | O => []
  | S n' => le_word (firstn 4 bs) :: words n' (skipn 4 bs)
  end.

Definition padding (len : Z) : list Z :=
  0x80 :: repeat 0 (Z.to_nat ((55 - len) mod 64)) ++ le_bytes 8 (8 * len).

Record regs := mkRegs { ra : Z; rb : Z; rc : Z; rd : Z }.

Definition round (m : list Z) (r : regs) (i : Z) : regs :=
  let '(mkRegs a b c d) := r in
  let '(f, g) :=
    if i <? 16 then (Z.lor (Z.land b c) (Z.land (not32 b) d), i)
    else if i <? 32 then (Z.lor (Z.land d b) (Z.land (not32 d) c), (5 * i + 1) mod 16)
    else if i <? 48 then (Z.lxor (Z.lxor b c) d, (3 * i + 5) mod 16)
    else (Z.lxor c (Z.lor b (not32 d)), (7 * i) mod 16) in
  let f := add32 (add32 (add32 f a) (nth (Z.to_nat i) sines 0)) (nth (Z.to_nat g) m 0) in
  mkRegs d (add32 b (rotl32 f (nth (Z.to_nat i) shifts 0))) b c.

Definition block (r : regs) (chunk : list Z) : regs :=
  let m := words 16 chunk in
  let r' := fold_left (round m) (map Z.of_nat (seq 0 64)) r in
  mkRegs (add32 (ra r) (ra r')) (add32 (rb r) (rb r'))
         (add32 (rc r) (rc r')) (add32 (rd r) (rd r')).

Fixpoint blocks (n : nat) (r : regs) (bs : list Z) : regs :=
  match n with
  | O => r
  | S n' => blocks n' (block r (firstn 64 bs)) (skipn 64 bs)
  end.

Definition digest (msg : list Z) : list Z :=
  let padded := msg ++ padding (Z.of_nat (length msg)) in
  let r := blocks (length padded / 64) (mkRegs 0x67452301 0xefcdab89 0x98badcfe 0x10325476) padded in
  le_bytes 4 (ra r) ++ le_bytes 4 (rb r) ++ le_bytes 4 (rc r) ++ le_bytes 4 (rd r).

Definition hex_digit (n : Z) : ascii :=
  ascii_of_nat (Z.to_nat (if n <? 10 then 48 + n else 87 + n)).

Fixpoint hex (bs : list Z) : string :=
  match bs with
  | [] => EmptyString
  | b :: rest => String (hex_digit (Z.shiftr b 4)) (String (hex_digit (Z.land b 0xF)) (hex rest))
  end.

(** [s.encode()]: UTF-8, for code points below 256. *)
Definition utf8 (s : string) : list Z :=
  flat_map (fun c => let n := Z.of_nat (nat_of_ascii c) in
                     if n <? 128 then [n]
                     else [Z.lor 0xC0 (Z.shiftr n 6); Z.lor 0x80 (Z.land n 0x3F)])
           (list_ascii_of_string s).


(** [hashlib.md5(s.encode()).hexdigest()] *)
Definition hexdigest (s : string) : string := hex (digest (utf8 s)).

End MD5.

(** ** The two patterns of [_extract_filename_from_response], [urlparse] and [Path.name] *)

Module Regex.
Import PyStr.
Open Scope string_scope.

Definition newline_char : ascii := "010"%char.
Definition dquote : ascii := "034"%char.
Definition squote : ascii := "039"%char.

(** [(?:;|$)] seen from what is left of the subject: a semicolon comes next,
    or the subject ends here, or only a final newline is left. *)
Definition at_semicolon_or_end (rest : string) : bool :=
  match rest with
  | EmptyString => true
  | String c rest' =>
      Ascii.eqb c ";" || (Ascii.eqb c newline_char && String.eqb rest' EmptyString)
  end.

(** [(.+?)] followed by what [continues] accepts: the shortest run of one or
    more characters other than newline after which [continues] holds. *)
Fixpoint lazy_run (continues : string -> bool) (s : string) : option string :=
  match s with
  | EmptyString => None
  | String c rest =>
      if Ascii.eqb c newline_char then None
      else if continues rest then Some (String c EmptyString)
      else String c <$> lazy_run continues rest
  end.

(** [re.search]: the match at the leftmost position of the subject where the
    pattern matches. *)
Fixpoint search (match_here : string -> option string) (s : string) : option string :=
  match match_here s with
  | Some g => Some g
  | None =>
      match s with
      | EmptyString => None
      | String _ rest => search match_here rest
      end
  end.

(** [filename\*=(?:UTF-8'')?(.+?)(?:;|$)] at the start of [s]: group 1. *)
Definition extended_here (s : string) : option string :=
  rest ← after_prefix "filename*=" s;
  match after_prefix "UTF-8''" rest ≫= lazy_run at_semicolon_or_end with
  | Some g => Some g
  | None => lazy_run at_semicolon_or_end rest
  end.

(** [\1(?:;|$)] for a quote [q] captured by group 1. *)
Definition closes (q : ascii) (rest : string) : bool :=
  match rest with
  | String c rest' => Ascii.eqb c q && at_semicolon_or_end rest'
  | EmptyString => false
  end.

(** The pattern [filename=(Q?)(.+?)\1(?:;|$)], where [Q] is a double or a
    single quote, at the start of [s]: group 2. *)
Definition basic_here (s : string) : option string :=
  rest ← after_prefix "filename=" s;
  let quoted :=
    match rest with
    | String q rest' =>
        if Ascii.eqb q dquote || Ascii.eqb q squote
        then lazy_run (closes q) rest' else None
    | EmptyString => None
    end in
  match quoted with
  | Some g => Some g
  | None => lazy_run at_semicolon_or_end rest
  end.


End Regex.

Module Url.
Import PyStr.
Open Scope string_scope.
(** [urlparse(url).path] and [Path(p).name] *)

Definition is_alpha (c : ascii) : bool :=
  let n := nat_of_ascii c in
  ((65 <=? n) && (n <=? 90) || (97 <=? n) && (n <=? 122))%nat.

Definition is_scheme_char (c : ascii) : bool :=
  let n := nat_of_ascii c in
  is_alpha c || ((48 <=? n) && (n <=? 57))%nat || is_one_of "+-." c.

Definition lower (c : ascii) : ascii :=
  let n := nat_of_ascii c in
  if ((65 <=? n) && (n <=? 90))%nat then ascii_of_nat (n + 32) else c.

Definition uses_params : list string :=
  [""; "ftp"; "hdl"; "prospero"; "http"; "imap"; "https"; "shttp"; "rtsp";
   "rtspu"; "sip"; "sips"; "mms"; "sftp"; "tel"].

Definition is_c0_or_space (c : ascii) : bool := (nat_of_ascii c <=? 32)%nat.

Definition is_tab_cr_lf (c : ascii) : bool :=
  let n := nat_of_ascii c in ((n =? 9) || (n =? 10) || (n =? 13))%nat.

Fixpoint remove_chars (p : ascii -> bool) (s : string) : string :=
  match s with
  | EmptyString => EmptyString
  | String c rest => if p c then remove_chars p rest else String c (remove_chars p rest)
  end.

(** [url[i+1:]] for the first [i] with [url[i] == c] *)
Fixpoint after_char (c : ascii) (s : string) : option string :=
  match s with
  | EmptyString => None
  | String a rest => if Ascii.eqb a c then Some rest else after_char c rest
  end.

(** The scheme and the rest, as [urlsplit] separates them. *)
Definition split_scheme (url : string) : string * string :=
  match url with
  | String c0 _ =>
      let candidate := before_char ":" url in
      match after_char ":" url with
      | Some rest =>
          if is_alpha c0 && forallb is_scheme_char (list_ascii_of_string candidate)
          then (string_of_list_ascii (map lower (list_ascii_of_string candidate)), rest)
          else (EmptyString, url)
      | None => (EmptyString, url)
      end
  | EmptyString => (EmptyString, url)
  end.

(** [_splitnetloc(url, 2)[1]]: from the first of "/", "?", "#" on. *)
Fixpoint from_delimiter (s : string) : string :=
  match s with
  | EmptyString => EmptyString
  | String c rest => if is_one_of "/?#" c then s else from_delimiter rest
  end.

(** [path.rfind('/')], then [path.find(';', ...)]: the text before the first
    semicolon of the last segment. *)
Fixpoint split_params (s : string) : string :=
  match s with
  | EmptyString => EmptyString
  | String c rest =>
      if contains "/" rest then String c (split_params rest)
      else if Ascii.eqb c "/" then String c (before_char ";" rest)
      else before_char ";" s
  end.

Definition urlparse_path (url : string) : string :=
  let url := lstrip is_c0_or_space url in
  let url := remove_chars is_tab_cr_lf url in
  let '(scheme, url) := split_scheme url in
  let url := match after_prefix "//" url with
             | Some after => from_delimiter after
             | None => url
             end in
  let url := before_char "#" url in
  let url := before_char "?" url in
  if bool_decide (scheme ∈ uses_params) && contains ";" url
  then split_params url else url.

(** [Path(p).name] on a POSIX system: the last component that is neither
    empty nor a single dot. *)
Definition path_name (p : string) : string :=
  List.last (List.filter (fun x => negb (String.eqb x EmptyString || String.eqb x "."))
                         (split_on "/" p))
            EmptyString.

End Url.

(** ** download.py: [FastImageDownloadManager] *)

Module Download.
Import PyStr Regex Url.
Open Scope string_scope.
Open Scope Z_scope.

Abbreviation bytes := (list Byte.byte).

(** The response headers the manager reads, as [response.headers.get] finds
    them (the lookup ignores case), and the length the server announces. *)
Record headers := mkHeaders {
  content_disposition : option string;
  content_type : option string;
  content_length : option Z
}.

Definition ext_map : list (string * string) :=
  [("image/jpeg", ".jpg"); ("image/png", ".png"); ("image/gif", ".gif");
   ("image/webp", ".webp"); ("image/svg+xml", ".svg");
   ("application/octet-stream", ".bin")].

(** [d.get(key, default)] *)
Fixpoint dict_get (d : list (string * string)) (key default : string) : string :=
  match d with
  | [] => default
  | (k, v) :: rest => if String.eqb k key then v else dict_get rest key default
  end.

(** [s.endswith(c)] *)
Fixpoint endswith_char (c : ascii) (s : string) : bool :=
  match s with
  | EmptyString => false
  | String a EmptyString => Ascii.eqb a c
  | String _ rest => endswith_char c rest
  end.

(** [os.path.join(a, b)] (posixpath) *)
Definition os_path_join (a b : string) : string :=
  if startswith "/" b then b
  else if String.eqb a EmptyString || endswith_char "/" a then a +:+ b
  else a +:+ "/" +:+ b.

(** What a request can raise: an exception of the [requests] hierarchy, which
    [download_with_retry] handles, or any other one. *)
Inductive fault := RequestException | OtherException.

Inductive method := HEAD | GET.

(** One call of [session.head] or [session.get], with what the manager
    passes to it: the URL, the [Range: bytes=N-] header when there is one, and
    the proxy.  What the session makes of the call on the wire (the retries
    of its [Retry(total=3)] adapter, the redirects it follows) is inside the
    call and is not recorded. *)
Record request := mkRequest {
  req_method : method;
  req_url : string;
  range_from : option Z;
  req_proxy : option string
}.

(** How a call of [session.head], followed by [raise_for_status], ends: the
    adapter's retries and the redirects are over when it does. *)
Inductive head_result :=
| HeadRaises (f : fault)
| HeadOk (h : headers).

(** How a call of [session.get], followed by [raise_for_status], and the
    writes of the chunks of [iter_content] end: either the call raises before
    anything is written, or the chunks are written in order and the stream
    then ends ([None]) or breaks with an exception. *)
Inductive get_result :=
| GetRaises (f : fault)
| GetStreams (chunks : list bytes) (broken : option fault).

(** The outside of the process: how the [k]-th call of the session in the
    run ends, and the [k]-th draw of [random.uniform(0, 1)]. *)
Record network := mkNetwork {
  on_head : nat -> request -> head_result;
  on_get : nat -> request -> get_result;
  uniform_0_1 : nat -> Q
}.

(** What the manager prints. *)
Inductive message :=
| MsgRetry (attempt max_retries : Z) (url : string) (wait_time : Q)
| MsgFinalFailure (url : string)
| MsgCopied (url : string)
| MsgDownloaded (url : string)
| MsgFailed (url : string)
| MsgFolderMissing
| MsgFound (txt_files : nat) (max_workers : Z)
| MsgProgress (completed total : nat)
| MsgTaskError
| MsgAllDone.

(** The manager ([self]) and the part of the world it acts on: the regular
    files (path to content), the calls made to the session, the back-off
    sleeps, the console, and every document written to [mapping_file]. *)
Record t := mk {
  download_folder : string;
  max_workers : Z;
  enable_proxy : bool;
  proxy_list : list string;
  current_proxy_index : Z;
  url_mapping : gmap string string;
  files : gmap string bytes;
  requests_sent : list request;
  waits : list Q;
  console : list message;
  saved_mappings : list (gmap string string)
}.

Definition set_proxy_index (m : t) (i : Z) : t :=
  mk (download_folder m) (max_workers m) (enable_proxy m) (proxy_list m) i
     (url_mapping m) (files m) (requests_sent m) (waits m) (console m)
     (saved_mappings m).

Definition set_url_mapping (m : t) (mapping : gmap string string) : t :=
  mk (download_folder m) (max_workers m) (enable_proxy m) (proxy_list m)
     (current_proxy_index m) mapping (files m) (requests_sent m) (waits m)
     (console m) (saved_mappings m).

Definition set_files (m : t) (fs : gmap string bytes) : t :=
  mk (download_folder m) (max_workers m) (enable_proxy m) (proxy_list m)
     (current_proxy_index m) (url_mapping m) fs (requests_sent m) (waits m)
     (console m) (saved_mappings m).

Definition send (m : t) (r : request) : t :=
  mk (download_folder m) (max_workers m) (enable_proxy m) (proxy_list m)
     (current_proxy_index m) (url_mapping m) (files m)
     (requests_sent m ++ [r])%list (waits m) (console m) (saved_mappings m).

Definition sleep (m : t) (seconds : Q) : t :=
  mk (download_folder m) (max_workers m) (enable_proxy m) (proxy_list m)
     (current_proxy_index m) (url_mapping m) (files m) (requests_sent m)
     (waits m ++ [seconds])%list (console m) (saved_mappings m).

Definition print (m : t) (msg : message) : t :=
  mk (download_folder m) (max_workers m) (enable_proxy m) (proxy_list m)
     (current_proxy_index m) (url_mapping m) (files m) (requests_sent m)
     (waits m) (console m ++ [msg])%list (saved_mappings m).

(** [_save_mapping]: [open(self.mapping_file, 'w')] and [json.dump] of the
    whole mapping. *)
Definition _save_mapping (m : t) : t :=
  mk (download_folder m) (max_workers m) (enable_proxy m) (proxy_list m)
     (current_proxy_index m) (url_mapping m) (files m) (requests_sent m)
     (waits m) (console m) (saved_mappings m ++ [url_mapping m])%list.

(** The document on disk: the last one written, if any. *)
Definition mapping_document (m : t) : option (gmap string string) :=
  last (saved_mappings m).

(** How a call ends: it returns a value or an exception escapes from it. *)
Inductive outcome (A : Type) :=
| Returns (a : A)
| Raised.
Arguments Returns {A} a.
Arguments Raised {A}.

(** [(2 ** min(attempt, 5)) + random.uniform(0, 1)] *)
Definition base_wait (attempt : Z) : Z := 2 ^ Z.min attempt 5.

Definition wait_time (attempt : Z) (jitter : Q) : Q :=
  (inject_Z (base_wait attempt) + jitter)%Q.

(** [_get_next_proxy] *)
Definition _get_next_proxy (m : t) : option string * t :=
  if negb (enable_proxy m) || bool_decide (proxy_list m = []) then (None, m)
  else
    (proxy_list m
       !! Z.to_nat (current_proxy_index m mod Z.of_nat (length (proxy_list m))),
     set_proxy_index m (current_proxy_index m + 1)).

Section WithUnquote.

(** [urllib.parse.unquote]: percent-decoding, which can produce any code
    point and is therefore left to the library. *)
Variable unquote : string -> string.

(** [_extract_filename_from_response] *)
Definition _extract_filename_from_response (h : headers) (url : string) : string :=
  let content_disposition := default EmptyString (content_disposition h) in
  let from_header :=
    if String.eqb content_disposition EmptyString then None
    else
      match
        (g ← search extended_here content_disposition;
         let filename := unquote g in
         if String.eqb filename EmptyString then None
         else Some (strip_chars (String dquote (String squote EmptyString)) filename))
      with
      | Some filename => Some filename
      | None =>
          g ← search basic_here content_disposition;
          if String.eqb g EmptyString then None
          else Some (strip_chars (String dquote (String squote EmptyString)) g)
      end in
  match from_header with
  | Some filename => filename
  | None =>
      let filename := path_name (urlparse_path url) in
      if negb (String.eqb filename EmptyString) && contains "." filename
      then unquote filename
      else
        let content_type :=
          before_char ";" (default EmptyString (content_type h)) in
        let ext := dict_get ext_map content_type ".tmp" in
        let url_hash := slice_to 8 (MD5.hexdigest url) in
        url_hash +:+ ext
  end.

(** The paths [local_path] and [temp_path] once the first request has named
    the file. *)
Record paths := mkPaths {
  local_path : string;
  temp_path : string
}.

(** The [HEAD] request of the first attempts, and the two paths. *)
Definition probe (net : network) (url keyword_dir : string) (m : t)
  : (fault + paths) * t :=
  let '(proxies, m) := _get_next_proxy m in
  let r := mkRequest HEAD url None proxies in
  let answer := on_head net (length (requests_sent m)) r in
  let m := send m r in
  match answer with
  | HeadRaises f => (inl f, m)
  | HeadOk h =>
      let filename := _extract_filename_from_response h url in
      let local_path := os_path_join keyword_dir filename in
      (inr (mkPaths local_path (local_path +:+ ".tmp")), m)
  end.

(** The [GET] request with its [Range] header, the appending writes to the
    temporary file, and [shutil.move] when the stream ends.  The two paths are
    taken to name regular files in a folder that exists: [open(temp_path, 'ab')]
    succeeds and [shutil.move] replaces the file at [local_path].  (When
    [local_path] is a directory, [shutil.move] moves the file into it or
    raises; that case is outside this definition.) *)
Definition fetch (net : network) (url : string) (p : paths) (m : t)
  : (fault + string) * t :=
  let resume := (fun content : bytes => Z.of_nat (length content))
                  <$> files m !! temp_path p in
  let '(proxies, m) := _get_next_proxy m in
  let r := mkRequest GET url resume proxies in
  let answer := on_get net (length (requests_sent m)) r in
  let m := send m r in
  match answer with
  | GetRaises f => (inl f, m)
  | GetStreams chunks broken =>
      let content := (default [] (files m !! temp_path p) ++ concat chunks)%list in
      let m := set_files m (<[temp_path p := content]> (files m)) in
      match broken with
      | Some f => (inl f, m)
      | None =>
          (inr (local_path p),
           set_files m (<[local_path p := content]> (delete (temp_path p) (files m))))
      end
  end.

(** The body of the [try] of one attempt. *)
Definition attempt_body (net : network) (url keyword_dir : string)
    (known : option paths) (m : t) : (fault + string) * option paths * t :=
  match known with
  | Some p => let '(r, m) := fetch net url p m in (r, Some p, m)
  | None =>
      match probe net url keyword_dir m with
      | (inl f, m) => (inl f, None, m)
      | (inr p, m) => let '(r, m) := fetch net url p m in (r, Some p, m)
      end
  end.

(** What [download_with_retry] leaves behind: its result, and the paths it
    had settled on when it ended. *)
Record download := mkDownload {
  result : outcome (option string);
  paths_known : option paths;
  after : t
}.

(** The [except requests.exceptions.RequestException] branch: wait and go on
    to the next attempt, or, after the last attempt, remove the temporary
    file and return [None]. *)
Definition on_request_exception (net : network) (url : string)
    (attempt max_retries : Z) (known : option paths) (m : t) : t + download :=
  if attempt <? max_retries - 1 then
    let wait_time := wait_time attempt (uniform_0_1 net (length (waits m))) in
    let m := print m (MsgRetry (attempt + 1) max_retries url wait_time) in
    let m := sleep m wait_time in
    inl (if enable_proxy m && negb (bool_decide (proxy_list m = []))
         then set_proxy_index m (current_proxy_index m + 1) else m)
  else
    let m := print m (MsgFinalFailure url) in
    inr (mkDownload (Returns None) known
           match known with
           | Some p => set_files m (delete (temp_path p) (files m))
           | None => m
           end).

(** [for attempt in range(max_retries)], from [attempt] on. *)
Fixpoint attempts (remaining : nat) (attempt : Z) (net : network)
    (url keyword_dir : string) (max_retries : Z) (known : option paths) (m : t)
  : download :=
  match remaining with
  | O => mkDownload (Returns None) known m
  | S remaining' =>
      match attempt_body net url keyword_dir known m with
      | (inr path, known, m) => mkDownload (Returns (Some path)) known m
      | (inl OtherException, known, m) => mkDownload Raised known m
      | (inl RequestException, known, m) =>
          match on_request_exception net url attempt max_retries known m with
          | inl m =>
              attempts remaining' (attempt + 1) net url keyword_dir max_retries known m
          | inr d => d
          end
      end
  end.

(** [download_with_retry] *)
Definition download_with_retry (net : network) (url keyword_dir : string)
    (max_retries : Z) (m : t) : download :=
  attempts (Z.to_nat max_retries) 0 net url keyword_dir max_retries None m.

(** The part of [_process_single_url] after the look-up in the mapping. *)
Definition download_and_record (net : network) (url keyword_dir : string) (m : t)
  : outcome unit * t :=
  let d := download_with_retry net url keyword_dir 10 m in
  match result d with
  | Raised => (Raised, after d)
  | Returns (Some local_path) =>
      if String.eqb local_path EmptyString
      then (Returns tt, print (after d) (MsgFailed url))
      else (Returns tt,
            print (set_url_mapping (after d) (<[url := local_path]> (url_mapping (after d))))
                  (MsgDownloaded url))
  | Returns None => (Returns tt, print (after d) (MsgFailed url))
  end.

(** [_process_single_url] *)
Definition _process_single_url (net : network) (url keyword_dir : string) (m : t)
  : outcome unit * t :=
  if String.eqb (strip url) EmptyString then (Returns tt, m)
  else
    let url := strip url in
    match url_mapping m !! url with
    | Some source_file =>
        match files m !! source_file with
        | Some content =>
            let target_file := os_path_join keyword_dir (path_name source_file) in
            let m := match files m !! target_file with
                     | Some _ => m
                     | None => set_files m (<[target_file := content]> (files m))
                     end in
            (Returns tt, print m (MsgCopied url))
        | None => download_and_record net url keyword_dir m
        end
    | None => download_and_record net url keyword_dir m
    end.

(** The worker pool: the tasks that are pending run to completion one after
    the other, in the order that [pick] chooses among them; the main thread
    counts each one and prints what its future raised.  The result lists the
    futures in the order of [as_completed], each with how its task ended. *)
Fixpoint run_pool (pending : nat) (net : network)
    (pick : list (string * string) -> nat) (tasks : list (string * string))
    (completed total : nat) (m : t)
  : list (string * string * outcome unit) * t :=
  match pending with
  | O => ([], m)
  | S pending' =>
      let i := (pick tasks mod length tasks)%nat in
      match tasks !! i with
      | None => ([], m)
      | Some (url, keyword_dir) =>
          let '(r, m) := _process_single_url net url keyword_dir m in
          let m := print m (MsgProgress (S completed) total) in
          let m := match r with
                   | Raised => print m MsgTaskError
                   | Returns _ => m
                   end in
          let '(futures, m) :=
            run_pool pending' net pick (delete i tasks) (S completed) total m in
          ((url, keyword_dir, r) :: futures, m)
      end
  end.

(** [download_tasks]: one task per line of each file, [(url.strip(), keyword_dir)]. *)
Definition download_tasks (download_folder : string)
    (txt_files : list (string * list string)) : list (string * string) :=
  flat_map (fun '(keyword, lines) =>
              (fun url => (strip url, os_path_join download_folder keyword)) <$> lines)
           txt_files.

(** What the loop that collects the tasks gets out of one [*.txt] file: its
    lines, or an exception, raised by [_ensure_dir], by [open] or by the
    decoding of the file, which nothing catches. *)
Inductive reading :=
| Lines (lines : list string)
| ReadRaises.

(** The files as the loop reads them, when it gets through all of them. *)
Fixpoint readable (txt_files : list (string * reading))
  : option (list (string * list string)) :=
  match txt_files with
  | [] => Some []
  | (keyword, Lines lines) :: rest => cons (keyword, lines) <$> readable rest
  | (_, ReadRaises) :: _ => None
  end.

(** [process_all].  [url_folder] is [None] when the folder does not exist, and
    otherwise the stem of each of its [*.txt] files with what reading it
    gives.  An exception of the collecting loop escapes from the call, as does
    the [ValueError] that [ThreadPoolExecutor] raises unless
    [max_workers > 0].  The call returns nothing; the futures are given back
    for the record. *)
Definition process_all (net : network) (pick : list (string * string) -> nat)
    (url_folder : option (list (string * reading))) (m : t)
  : outcome (list (string * string * outcome unit)) * t :=
  match url_folder with
  | None => (Returns [], print m MsgFolderMissing)
  | Some txt_files =>
      let m := print m (MsgFound (length txt_files) (max_workers m)) in
      match readable txt_files with
      | None => (Raised, m)
      | Some contents =>
          let tasks := download_tasks (download_folder m) contents in
          if max_workers m <=? 0 then (Raised, m)
          else
            let '(futures, m) :=
              run_pool (length tasks) net pick tasks 0 (length tasks) m in
            let m := _save_mapping m in
            (Returns futures, print m MsgAllDone)
      end
  end.

(** The tasks run one after the other in a given order, each to completion
    before the next starts, the main thread counting each one. *)
Fixpoint run_in_order (net : network) (order : list (string * string))
    (completed total : nat) (m : t)
  : list (string * string * outcome unit) * t :=
  match order with
  | [] => ([], m)
  | (url, keyword_dir) :: rest =>
      let '(r, m) := _process_single_url net url keyword_dir m in
      let m := print m (MsgProgress (S completed) total) in
      let m := match r with
               | Raised => print m MsgTaskError
               | Returns _ => m
               end in
      let '(futures, m) := run_in_order net rest (S completed) total m in
      ((url, keyword_dir, r) :: futures, m)
  end.

(** The steps of the resolution, named as the specification names them. *)

Definition strip_quotes (s : string) : string :=
  strip_chars (String dquote (String squote EmptyString)) s.

(** The value of the extended directive [filename*=...], percent-decoded. *)
Definition extended_filename (h : headers) : option string :=
  let header := default EmptyString (content_disposition h) in
  if String.eqb header EmptyString then None
  else g ← search extended_here header;
       if String.eqb (unquote g) EmptyString then None else Some (unquote g).

(** The value of the basic directive [filename=...], quoted or not. *)
Definition basic_filename (h : headers) : option string :=
  let header := default EmptyString (content_disposition h) in
  if String.eqb header EmptyString then None else search basic_here header.

(** The last segment of the path of the URL. *)
Definition last_path_segment (url : string) : string :=
  path_name (urlparse_path url).

(** The content type without its parameters, and its extension in the table. *)
Definition media_type (h : headers) : string :=
  before_char ";" (default EmptyString (content_type h)).

End WithUnquote.

(** A network on which no attempt succeeds and nothing but exceptions of the
    [requests] hierarchy is raised: a probe may be answered, a [GET] raises or
    its stream breaks. *)
Definition always_fails (net : network) : Prop :=
  (forall k r, on_head net k r <> HeadRaises OtherException) /\
  (forall k r,
     on_get net k r = GetRaises RequestException \/
     exists chunks, on_get net k r = GetStreams chunks (Some RequestException)).

(** A server that holds [body] and honours ranges: a [GET] that asks for the
    bytes from an offset on is sent those bytes, all of them when the stream
    ends, the first of them when it breaks. *)
Definition serves (body : bytes) (net : network) : Prop :=
  forall k r,
    match on_get net k r with
    | GetRaises _ => True
    | GetStreams chunks broken =>
        let wanted := drop (Z.to_nat (default 0 (range_from r))) body in
        match broken with
        | None => concat chunks = wanted
        | Some _ => concat chunks `prefix_of` wanted
        end
    end.

(** The waits of a call whose attempts all fail, from attempt [first] on:
    one after each attempt but the last. *)
Definition backoff_waits (net : network) (first : Z) (drawn retries : nat) : list Q :=
  (fun i => wait_time (first + Z.of_nat i) (uniform_0_1 net (drawn + i)))
    <$> seq 0 retries.

(** *** Runs used as examples *)

(** A manager as [__init__] leaves it, with no mapping file to load. *)
Definition fresh : t :=
  mk "download" 8 false [] 0 ∅ ∅ [] [] [] [].

(** [Content-Disposition: attachment; filename=a.png], 6 bytes announced. *)
Definition a_png : headers :=
  mkHeaders (Some "attachment; filename=a.png") (Some "image/png") (Some 6).

(** A server that answers the probe and then breaks every transfer after 3
    bytes. *)
Definition breaking_server : network :=
  mkNetwork (fun _ _ => HeadOk a_png)
            (fun _ _ => GetStreams [list_byte_of_string "abc"] (Some RequestException))
            (fun _ => 0.5%Q).

(** A server that does not support ranges: it breaks the first transfer after
    3 bytes and answers every later [GET], whatever its [Range] header, with
    the 6 bytes of the whole file. *)
Definition range_ignoring_server : network :=
  mkNetwork (fun _ _ => HeadOk a_png)
            (fun k _ => if (k =? 1)%nat
                        then GetStreams [list_byte_of_string "abc"] (Some RequestException)
                        else GetStreams [list_byte_of_string "abcdef"] None)
            (fun _ => 0.5%Q).

(** A server that holds 6 bytes and supports ranges: it breaks the first
    transfer after 3 bytes and then sends what the [Range] header asks for. *)
Definition range_server : network :=
  mkNetwork (fun _ _ => HeadOk a_png)
            (fun k r =>
               let wanted := drop (Z.to_nat (default 0 (range_from r)))
                                  (list_byte_of_string "abcdef") in
               if (k =? 1)%nat
               then GetStreams [take 3 wanted] (Some RequestException)
               else GetStreams [wanted] None)
            (fun _ => 0.5%Q).

(** A manager that has already downloaded one URL. *)
Definition with_cat : t :=
  mk "download" 8 false [] 0
     {["https://example.com/cat" := "download/pets/cat.jpg"]}
     {["download/pets/cat.jpg" := list_byte_of_string "JPEG"]}
     [] [] [] [].

(** A server that answers the probe and whose transfers fail after 3 bytes
    with an exception that is not of the [requests] hierarchy. *)
Definition crashing_server : network :=
  mkNetwork (fun _ _ => HeadOk a_png)
            (fun _ _ => GetStreams [list_byte_of_string "abc"] (Some OtherException))
            (fun _ => 0.5%Q).

(** A manager that finds the temporary file of an earlier run, and another
    file, in the folder. *)
Definition with_partial : t :=
  mk "download" 8 false [] 0 ∅
     {["download/pets/a.png.tmp" := list_byte_of_string "xy";
       "download/pets/b.png" := list_byte_of_string "B"]}
     [] [] [] [].

End Download.

(** ** download.py: pacing, proxies and what a download touches *)

Module Manager.
Import PyStr Download.
Open Scope string_scope.

(** [self.request_delay] and [self.last_request_time]. *)
Record pacer := mkPacer {
  request_delay : Q * Q;
  last_request_time : Q
}.

(** [random.uniform(a, b)] is [a + (b - a) * random.random()]. *)
Definition uniform (a b random : Q) : Q := (a + (b - a) * random)%Q.

(** [_apply_intelligent_delay].  [current_time] is the first reading of
    [time.time()], [random] the draw of [random.random()] and [wake] the
    second reading of the clock, which is stored.  The result is the time
    slept, if any, and the new state. *)
Definition _apply_intelligent_delay (p : pacer) (current_time random wake : Q)
  : option Q * pacer :=
  let time_since_last_request := (current_time - last_request_time p)%Q in
  let '(min_delay, max_delay) := request_delay p in
  let required_delay := uniform min_delay max_delay random in
  (if Qltb time_since_last_request required_delay
   then Some (required_delay - time_since_last_request)%Q
   else None,
   mkPacer (request_delay p) wake).

(** [k] calls of [_get_next_proxy] in a row. *)
Fixpoint next_proxies (k : nat) (m : t) : list (option string) * t :=
  match k with
  | O => ([], m)
  | S k' =>
      let '(proxy, m) := _get_next_proxy m in
      let '(proxies, m) := next_proxies k' m in
      (proxy :: proxies, m)
  end.

(** The paths of a download are those of [download_with_retry]:
    [temp_path = local_path + '.tmp']. *)
Definition named (known : option paths) : Prop :=
  forall p, known = Some p -> temp_path p = local_path p +:+ ".tmp".

(** Every file but the two of the download is as it was. *)
Definition others_kept (p : paths) (m m' : t) : Prop :=
  forall q, q <> temp_path p -> q <> local_path p -> files m' !! q = files m !! q.

(** The paths that [download_with_retry] derives from an answer to one of
    its probes: [os.path.join(keyword_dir, filename)] and that with [.tmp]. *)
Definition paths_of (unquote : string -> string) (h : headers)
    (url keyword_dir : string) : paths :=
  let local_path :=
    os_path_join keyword_dir (_extract_filename_from_response unquote h url) in
  mkPaths local_path (local_path +:+ ".tmp").

(** Paths that come from an answer that the network gave to a probe for the
    URL. *)
Definition settled_by (unquote : string -> string) (net : network)
    (url keyword_dir : string) (p : paths) : Prop :=
  exists k r h,
    on_head net k r = HeadOk h /\ req_method r = HEAD /\ req_url r = url /\
    p = paths_of unquote h url keyword_dir.

(** What the attempts made so far have left on disk: nothing, while no probe
    has been answered; then nothing but the temporary file of the paths. *)
Definition only_temp (unquote : string -> string) (net : network)
    (url keyword_dir : string) (before : t) (known : option paths) (m : t) : Prop :=
  match known with
  | None => files m = files before
  | Some p =>
      settled_by unquote net url keyword_dir p /\
      delete (temp_path p) (files m) = delete (temp_path p) (files before)
  end.

Definition is_head (url : string) (r : request) : Prop :=
  req_method r = HEAD /\ req_url r = url /\ range_from r = None.

Definition is_get (url : string) (r : request) : Prop :=
  req_method r = GET /\ req_url r = url.

(** [for url in f] on a file opened in text mode: the lines of the file, each
    with its line end, which universal newlines turn into a line feed whether
    it was a line feed, a carriage return or both. *)
Definition carriage_return : ascii := "013"%char.

Fixpoint read_lines (s : string) : list string :=
  match s with
  | EmptyString => []
  | String c rest =>
      if Ascii.eqb c Regex.newline_char then Scraper.newline :: read_lines rest
      else if Ascii.eqb c carriage_return then
        match rest with
        | String c' rest' =>
            if Ascii.eqb c' Regex.newline_char
            then Scraper.newline :: read_lines rest'
            else Scraper.newline :: read_lines rest
        | EmptyString => [Scraper.newline]
        end
      else
        match read_lines rest with
        | [] => [String c EmptyString]
        | line :: lines => String c line :: lines
        end
  end.

Definition ends_no_line (c : ascii) : bool :=
  negb (Ascii.eqb c Regex.newline_char) && negb (Ascii.eqb c carriage_return).

(** *** Runs used as examples *)

(** A server that answers the probe and sends the 6 bytes of the file. *)
Definition plain_server : network :=
  mkNetwork (fun _ _ => HeadOk a_png)
            (fun _ _ => GetStreams [list_byte_of_string "abcdef"] None)
            (fun _ => 0.5%Q).

(** A manager with two proxies. *)
Definition with_proxies : t :=
  mk "download" 8 true ["http://10.0.0.1:8080"; "http://10.0.0.2:8080"] 0
     ∅ ∅ [] [] [] [].

(** [Content-Disposition: attachment; filename=Q/srv/www/index.htmlQ], the
    name in double quotes. *)
Definition absolute_name : headers :=
  mkHeaders
    (Some ("attachment; filename="
           ++ String Regex.dquote (("/" ++ "srv/www/index.html")
                                   ++ String Regex.dquote EmptyString)))
    (Some "text/html") None.

Definition absolute_server : network :=
  mkNetwork (fun _ _ => HeadOk absolute_name)
            (fun _ _ => GetStreams [list_byte_of_string "abcdef"] None)
            (fun _ => 0.5%Q).

(** Delays of 1 to 3 seconds, the last request at second 100. *)
Definition paced : pacer := mkPacer (1, 3)%Q 100%Q.

(** A network on which requests raise nothing but exceptions of the
    [requests] hierarchy, before or during a transfer. *)
Definition raises_requests_only (net : network) : Prop :=
  (forall k r, on_head net k r <> HeadRaises OtherException) /\
  (forall k r, on_get net k r <> GetRaises OtherException /\
               forall chunks, on_get net k r <> GetStreams chunks (Some OtherException)).

End Manager.

(** ** spider.py: [AntiSpiderHelper] and the page *)

Module Helper.
Import Manager.
Open Scope Q_scope.

(** [max(a, b)] and [min(a, b)] of Python, which return their first argument
    unless the second is strictly larger, respectively smaller. *)
Definition py_max (a b : Q) : Q := if Qltb a b then b else a.
Definition py_min (a b : Q) : Q := if Qltb b a then b else a.

(** [random_delay]: the time it sleeps.  [random] is the draw of
    [random.random()] behind [random.uniform], and [normal] the standard
    normal draw behind [random.gauss(0, sigma)], which is [normal * sigma]. *)
Definition random_delay (min_delay max_delay : Q) (jitter : bool) (random normal : Q)
  : Q :=
  let delay := uniform min_delay max_delay random in
  if jitter then
    let jitter_value := normal * ((max_delay - min_delay) * 0.1) in
    py_max min_delay (py_min max_delay (delay + jitter_value))
  else delay.

End Helper.

Module Page.
Import AntiSpiderConfig.
Open Scope Z_scope.

(** One pass through the [try] body of [click_load_more_button]: an awaited
    step raises, or the locator counts no button, or the click goes through. *)
Inductive click :=
| ClickRaises
| NoButton
| Clicked.

(** What [click_load_more_button] changes and does: [self.request_count], and
    the back-off sleeps of its [except] branch, oldest first. *)
Record clicking := mkClicking {
  request_count : Z;
  backoffs : list Z;
  click_passes : nat
}.

(** [click_load_more_button]: [while retry_count < MAX_RETRIES]; [outcome k] is
    what the [k]-th pass meets.  The result is [None] when the loop is left
    without a [return]. *)
Fixpoint click_from (fuel : nat) (retry_count : Z) (outcome : nat -> click)
    (c : clicking) : option bool * clicking :=
  match fuel with
  | O => (None, c)
  | S fuel' =>
      if retry_count <? MAX_RETRIES then
        let passed := mkClicking (request_count c) (backoffs c) (S (click_passes c)) in
        match outcome (click_passes c) with
        | NoButton => (Some false, passed)
        | Clicked =>
            (Some true,
             mkClicking (request_count c + 1) (backoffs c) (S (click_passes c)))
        | ClickRaises =>
            let retry_count := retry_count + 1 in
            if retry_count <? MAX_RETRIES then
              let backoff_time := RETRY_BACKOFF_FACTOR ^ retry_count in
              click_from fuel' retry_count outcome
                (mkClicking (request_count c) (backoffs c ++ [backoff_time])
                            (S (click_passes c)))
            else (Some false, passed)
        end
      else (None, c)
  end.

Definition click_load_more_button (outcome : nat -> click) (c : clicking)
  : option bool * clicking :=
  click_from (Z.to_nat MAX_RETRIES) 0 outcome c.

(** The script of [clean_old_images] on one node list: the first
    [length - keep_last] nodes of the (static) list are removed.  With a
    negative [keep_last] the loop runs past the end of the list and
    [nodes[i].remove()] throws after every node has been removed: [None]. *)
Definition remove_old {A : Type} (keep_last : Z) (nodes : list A) : option (list A) :=
  let extra := Z.of_nat (length nodes) - keep_last in
  if extra >? 0 then
    if extra >? Z.of_nat (length nodes) then None
    else Some (drop (Z.to_nat extra) nodes)
  else Some nodes.

(** [clean_old_images] on the images and the download buttons of the page,
    which are taken not to contain one another: the images first, then the
    buttons, unless the script has thrown (the exception is logged). *)
Definition clean_old_images {A B : Type} (keep_last : Z) (imgs : list A)
    (buttons : list B) : list A * list B :=
  match remove_old keep_last imgs with
  | None => ([], buttons)
  | Some imgs' =>
      match remove_old keep_last buttons with
      | None => (imgs', [])
      | Some buttons' => (imgs', buttons')
      end
  end.

End Page.

(** * Properties *)

Lemma Qltb_lt (a b : Q) : Qltb a b = true <-> (a < b)%Q.
Proof.
  unfold Qltb. rewrite negb_true_iff.
  split.
  - intros H. apply Qnot_le_lt. intros Hle.
    apply Qle_bool_iff in Hle. congruence.
  - intros H. destruct (Qle_bool b a) eqn:E; [|reflexivity].
    apply Qle_bool_iff in E. exfalso. apply (Qlt_not_le _ _ H E).
Qed.

Lemma Qltb_ge (a b : Q) : Qltb a b = false <-> (b <= a)%Q.
Proof.
  unfold Qltb. rewrite negb_false_iff. apply Qle_bool_iff.
Qed.

Module RateLimiterFacts.
Import RateLimiter.
Open Scope Q_scope.

Lemma in_window_iff lo hi x : in_window lo hi x = true <-> lo <= x /\ x <= hi.
Proof.
  unfold in_window. rewrite andb_true_iff, !Qle_bool_iff. reflexivity.
Qed.

Lemma window_count_app lo hi l1 l2 :
  window_count lo hi (l1 ++ l2) = (window_count lo hi l1 + window_count lo hi l2)%nat.
Proof. unfold window_count. rewrite List.filter_app, length_app. reflexivity. Qed.

Lemma window_count_le_length lo hi l : (window_count lo hi l <= length l)%nat.
Proof.
  unfold window_count. induction l as [|x l IH]; simpl; [lia|].
  destruct (in_window lo hi x); simpl; lia.
Qed.

Lemma window_count_below lo hi l :
  Forall (fun x => x < lo) l -> window_count lo hi l = 0%nat.
Proof.
  unfold window_count. induction 1 as [|x l Hx _ IH]; simpl; [reflexivity|].
  destruct (in_window lo hi x) eqn:E; [|exact IH].
  apply in_window_iff in E. lra.
Qed.

Lemma window_count_inside lo hi l :
  Forall (fun x => lo <= x /\ x <= hi) l -> window_count lo hi l = length l.
Proof.
  unfold window_count. induction 1 as [|x l Hx _ IH]; simpl; [reflexivity|].
  destruct (in_window lo hi x) eqn:E; simpl; [congruence|].
  apply in_window_iff in Hx. congruence.
Qed.

Lemma ascending_snoc l a :
  ascending l -> Forall (fun x => x <= a) l -> ascending (l ++ [a]).
Proof.
  induction l as [|x l IH]; simpl; intros Hs Hle.
  - split; constructor.
  - destruct Hs as [Hx Hs]. inversion Hle as [|? ? Hxa Hla]; subst.
    split; [|auto].
    apply Forall_app. split; [exact Hx|]. constructor; [exact Hxa|constructor].
Qed.

Lemma prune_split bound dq :
  exists dropped,
    dq = dropped ++ prune bound dq /\ Forall (fun x => x < bound) dropped.
Proof.
  induction dq as [|x dq [d [Hd Hf]]]; simpl.
  - exists []. split; [reflexivity|constructor].
  - destruct (Qltb x bound) eqn:E.
    + exists (x :: d). split; [simpl; congruence|].
      constructor; [apply Qltb_lt; exact E|exact Hf].
    + exists []. split; [reflexivity|constructor].
Qed.

Lemma prune_ascending bound dq : ascending dq -> ascending (prune bound dq).
Proof.
  induction dq as [|x dq IH]; simpl; [auto|].
  intros [Hx Hs]. destruct (Qltb x bound); [auto|]. simpl. auto.
Qed.

Lemma prune_kept bound dq :
  ascending dq -> Forall (fun x => bound <= x) (prune bound dq).
Proof.
  induction dq as [|x dq IH]; simpl; [constructor|].
  intros [Hx Hs]. destruct (Qltb x bound) eqn:E; [auto|].
  apply Qltb_ge in E. constructor; [exact E|].
  eapply Forall_impl; [exact Hx|]. simpl. intros y Hy. lra.
Qed.

(** On a deque in arrival order, pruning keeps exactly the timestamps that are
    not older than the bound. *)
Lemma prune_filter bound dq :
  ascending dq ->
  prune bound dq = List.filter (fun x => Qle_bool bound x) dq.
Proof.
  induction dq as [|x dq IH]; simpl; [reflexivity|].
  intros [Hx Hs]. destruct (Qltb x bound) eqn:E.
  - apply Qltb_lt in E.
    destruct (Qle_bool bound x) eqn:E'; [|auto].
    apply Qle_bool_iff in E'. lra.
  - apply Qltb_ge in E.
    destruct (Qle_bool bound x) eqn:E'.
    + f_equal. clear IH Hs. induction Hx as [|y l Hy _ IH]; simpl; [reflexivity|].
      destruct (Qle_bool bound y) eqn:Ey; [congruence|].
      assert (bound <= y) as H%Qle_bool_iff by lra. congruence.
    + apply Qle_bool_iff in E. congruence.
Qed.

Lemma inv_start mx w t0 : (0 <= mx)%Z -> inv mx w (start mx w t0).
Proof.
  intros Hmx. split; simpl.
  - reflexivity.
  - reflexivity.
  - constructor.
  - exists []. split; [reflexivity|constructor].
  - exact I.
  - intros T. exact Hmx.
Qed.

(** What [acquire] does on a session that satisfies the invariant. *)
Lemma acquire_cases mx w s now wake :
  inv mx w s -> clock s <= now ->
  let kept := prune (now - w) (request_times (limiter s)) in
  Forall (fun x => now - w <= x /\ x <= now) kept /\
  (Z.of_nat (length kept) <= mx)%Z /\
  ((Z.of_nat (length kept) < mx)%Z ->
     acquire (limiter s) now wake = Some (0, mk mx w (kept ++ [wake]))) /\
  (forall oldest rest, kept = oldest :: rest -> Z.of_nat (length kept) = mx ->
     0 < w - (now - oldest) + 0.1 /\
     acquire (limiter s) now wake
     = Some (w - (now - oldest) + 0.1, mk mx w (kept ++ [wake]))).
Proof.
  intros [Hmx Hw Hclk [old [Hadm Hold]] Hord Hbnd] Hnow kept.
  destruct (prune_split (now - w) (request_times (limiter s)))
    as [dropped [Hsplit Hdropped]].
  fold kept in Hsplit.
  assert (Hin : Forall (fun x => now - w <= x /\ x <= now) kept).
  { pose proof (prune_kept (now - w) _ Hord) as Hk. fold kept in Hk.
    rewrite Hadm, Hsplit in Hclk.
    apply Forall_app in Hclk as [_ Hclk]. apply Forall_app in Hclk as [_ Hclk].
    apply Forall_forall. intros x Hx.
    rewrite Forall_forall in Hk, Hclk.
    specialize (Hk x Hx). specialize (Hclk x Hx). simpl in *. lra. }
  assert (Hlen : (Z.of_nat (length kept) <= mx)%Z).
  { specialize (Hbnd now). rewrite Hadm, Hsplit in Hbnd.
    rewrite !window_count_app in Hbnd.
    rewrite (window_count_inside _ _ kept Hin) in Hbnd. lia. }
  split; [exact Hin|]. split; [exact Hlen|]. split.
  - intros Hlt.
    assert (E : (mx <=? Z.of_nat (length kept))%Z = false) by (apply Z.leb_gt; lia).
    unfold acquire. rewrite Hmx, Hw. unfold kept in E. rewrite E. reflexivity.
  - intros oldest rest Hk Hfull.
    assert (Hpos : 0 < w - (now - oldest) + 0.1).
    { rewrite Hk in Hin. inversion Hin as [|? ? [H1 H2] _]; subst. lra. }
    split; [exact Hpos|].
    assert (E : (mx <=? Z.of_nat (length kept))%Z = true) by (apply Z.leb_le; lia).
    unfold acquire. rewrite Hmx, Hw. unfold kept in E, Hk. rewrite E, Hk.
    apply Qltb_lt in Hpos. rewrite Hpos. unfold kept. rewrite Hk. reflexivity.
Qed.

Lemma inv_step mx w s s' : inv mx w s -> step s s' -> inv mx w s'.
Proof.
  intros Hinv Hstep.
  destruct Hstep as [rl clk adm now wake slept rl' Hnow Hwake Hacq].
  pose proof (acquire_cases mx w _ now wake Hinv Hnow) as Hc. simpl in Hc.
  destruct Hc as [Hin [Hlen [Hfree Hfull]]].
  destruct Hinv as [Hmx Hw Hclk [old [Hadm Hold]] Hord Hbnd]. simpl in *.
  destruct (prune_split (now - w) (request_times rl)) as [dropped [Hsplit Hdropped]].
  remember (prune (now - w) (request_times rl)) as kept eqn:Hkept.
  (* the admission and the part of the deque it can share a window with *)
  assert (Hshape :
    now <= wake /\ rl' = mk mx w (kept ++ [wake]) /\
    forall T, wake <= T ->
      (Z.of_nat (window_count (T - w) T kept) < mx)%Z).
  { destruct (Z.eq_dec (Z.of_nat (length kept)) mx) as [Heq|Hne].
    - destruct kept as [|oldest rest].
      + simpl in Heq. unfold acquire in Hacq.
        rewrite Hw, <- Hkept, Hmx, <- Heq in Hacq. simpl in Hacq. discriminate.
      + destruct (Hfull oldest rest eq_refl Heq) as [Hpos Hres].
        rewrite Hres in Hacq. injection Hacq as <- <-.
        split; [lra|]. split; [reflexivity|].
        intros T HT.
        change (oldest :: rest) with ([oldest] ++ rest).
        rewrite window_count_app.
        rewrite (window_count_below _ _ [oldest]).
        * pose proof (window_count_le_length (T - w) T rest).
          simpl in Heq. simpl. lia.
        * constructor; [lra|constructor].
    - rewrite (Hfree ltac:(lia)) in Hacq. injection Hacq as <- <-.
      split; [lra|]. split; [reflexivity|].
      intros T _. pose proof (window_count_le_length (T - w) T kept). lia. }
  destruct Hshape as [Hna [Hrl' Hnear]].
  split; simpl.
  - rewrite Hrl'. reflexivity.
  - rewrite Hrl'. reflexivity.
  - apply Forall_app. split.
    + eapply Forall_impl; [exact Hclk|]. simpl. intros x Hx. lra.
    + constructor; [lra|constructor].
  - exists (old ++ dropped). rewrite Hrl'. simpl. split.
    + rewrite Hadm, Hsplit, !app_assoc. reflexivity.
    + apply Forall_app. split.
      * eapply Forall_impl; [exact Hold|]. simpl. intros x Hx. lra.
      * eapply Forall_impl; [exact Hdropped|]. simpl. intros x Hx. lra.
  - rewrite Hrl'. simpl. apply ascending_snoc.
    + rewrite Hkept. apply prune_ascending. exact Hord.
    + eapply Forall_impl; [exact Hin|]. simpl. intros x Hx. lra.
  - intros T. rewrite window_count_app.
    destruct (in_window (T - w) T wake) eqn:E.
    + pose proof E as E'. apply in_window_iff in E' as [E1 E2].
      rewrite Hadm, Hsplit, !window_count_app.
      rewrite (window_count_below _ _ old), (window_count_below _ _ dropped).
      * specialize (Hnear T E2).
        unfold window_count at 2. simpl. rewrite E. simpl. lia.
      * eapply Forall_impl; [exact Hdropped|]. simpl. intros x Hx. lra.
      * eapply Forall_impl; [exact Hold|]. simpl. intros x Hx. lra.
    + unfold window_count at 2. simpl. rewrite E. simpl.
      specialize (Hbnd T). lia.
Qed.

Lemma inv_reachable mx w t0 s :
  (0 <= mx)%Z -> reachable (start mx w t0) s -> inv mx w s.
Proof.
  intros Hmx Hr. induction Hr as [|s s' _ IH Hstep].
  - apply inv_start. exact Hmx.
  - eapply inv_step; eauto.
Qed.

(** C1.  For every sequence of calls of [RateLimiter.acquire] by sequential
    callers, started from a fresh limiter with [max_requests = mx >= 0] and
    [time_window = w]: at most [mx] admissions complete within any interval
    [[T - w, T]]; and on each further call the timestamps older than
    [now - w] are discarded first, after which, if the remaining count has
    reached [mx], the caller sleeps [w - (now - oldest) + 0.1] seconds (a
    positive time) before the new timestamp is recorded, and otherwise does
    not sleep and the new timestamp is recorded at once. *)
Theorem acquire_sliding_window (mx : Z) (w t0 : Q) (s : session) :
  (0 <= mx)%Z ->
  reachable (start mx w t0) s ->
  (forall T, (Z.of_nat (window_count (T - w) T (admitted s)) <= mx)%Z) /\
  (forall now wake, clock s <= now ->
     let kept :=
       List.filter (fun x => Qle_bool (now - w) x) (request_times (limiter s)) in
     if (mx <=? Z.of_nat (length kept))%Z then
       match kept with
       | oldest :: _ =>
           0 < w - (now - oldest) + 0.1 /\
           acquire (limiter s) now wake
           = Some (w - (now - oldest) + 0.1, mk mx w (kept ++ [wake]))
       | [] => acquire (limiter s) now wake = None
       end
     else acquire (limiter s) now wake = Some (0, mk mx w (kept ++ [wake]))).
Proof.
  intros Hmx Hr. pose proof (inv_reachable mx w t0 s Hmx Hr) as Hinv.
  split; [apply (inv_bound _ _ _ Hinv)|].
  intros now wake Hnow kept.
  pose proof (acquire_cases mx w s now wake Hinv Hnow) as Hc. simpl in Hc.
  destruct Hc as [_ [Hlen [Hfree Hfull]]].
  assert (Hk : prune (now - w) (request_times (limiter s)) = kept)
    by (apply prune_filter, (inv_order _ _ _ Hinv)).
  rewrite Hk in *.
  destruct (Z.leb_spec mx (Z.of_nat (length kept))) as [Hge|Hlt].
  - destruct kept as [|oldest rest] eqn:Ek.
    + unfold acquire.
      rewrite (inv_max _ _ _ Hinv), (inv_window _ _ _ Hinv), Hk.
      simpl in Hge. simpl. apply Z.leb_le in Hge. rewrite Hge. reflexivity.
    + apply (Hfull oldest rest eq_refl). lia.
  - apply Hfree. exact Hlt.
Qed.

(** A run with [max_requests = 2] and [time_window = 60]: two immediate
    admissions at 0 and 1, and a third call at 2 that sleeps 58.1 seconds. *)
Lemma acquire_sliding_window_witness :
  (0 <= 2)%Z /\
  reachable (start 2 60 0) (mkS (mk 2 60 [0; 1; 60.1]) 60.1 [0; 1; 60.1]) /\
  (Z.of_nat (window_count (60.1 - 60) 60.1 [0; 1; 60.1]%Q) <= 2)%Z.
Proof.
  assert (Hr : reachable (start 2 60 0)
                 (mkS (mk 2 60 [0; 1; 60.1]) 60.1 [0; 1; 60.1])).
  { apply (reach_step _ (mkS (mk 2 60 [0; 1]) 1 [0; 1])).
    - apply (reach_step _ (mkS (mk 2 60 [0]) 0 [0])).
      + apply (reach_step _ (start 2 60 0)); [apply reach_refl|].
        apply (step_acquire (mk 2 60 []) 0 [] 0 0 0); [lra|lra|reflexivity].
      + apply (step_acquire (mk 2 60 [0]) 0 [0] 1 1 0); [lra|lra|reflexivity].
    - apply (step_acquire (mk 2 60 [0; 1]) 1 [0; 1] 2 60.1 (60 - (2 - 0) + 0.1));
        [lra|lra|reflexivity]. }
  split; [lia|]. split; [exact Hr|].
  exact (proj1 (acquire_sliding_window 2 60 0 _ ltac:(lia) Hr) 60.1).
Defined.

End RateLimiterFacts.

Module ScraperFacts.
Import AntiSpiderConfig Scraper.
Open Scope list_scope.
Open Scope Z_scope.

#[local] Arguments scroll_page : simpl never.
#[local] Arguments extract_download_links : simpl never.
#[local] Arguments save_links_to_file : simpl never.

Lemma scroll_page_from_frame fuel rc b s :
  same_config s (scroll_page_from fuel rc b s).2 /\
  same_store s (scroll_page_from fuel rc b s).2.
Proof.
  revert rc s. induction fuel as [|fuel IH]; intros rc s; simpl.
  - repeat split.
  - destruct (rc <? MAX_RETRIES); [|repeat split].
    destruct (scroll_outcome b (scroll_passes s)); [|repeat split].
    destruct (rc + 1 <? MAX_RETRIES); [|repeat split].
    destruct (IH (rc + 1) (mk (search_keyword s) (save_threshold s)
      (MAX_SCROLL_ATTEMPTS s) (download_links s) (total_saved_links s)
      (request_count s) (S (scroll_passes s)) (extractions s) (url_files s)))
      as [[? [? ?]] [? [? ?]]].
    simpl in *. repeat split; assumption.
Qed.

Lemma scroll_page_frame b s :
  same_config s (scroll_page b s).2 /\ same_store s (scroll_page b s).2.
Proof. apply scroll_page_from_frame. Qed.

Lemma extract_frame b s : same_config s (extract_download_links b s).2.
Proof. unfold extract_download_links. repeat split. Qed.

Lemma streak_from_cons n0 r rs :
  streak_from n0 (r :: rs) = streak_from (if r then 0 else n0 + 1) rs.
Proof. reflexivity. Qed.

Lemma streak_from_snoc n0 rs r :
  streak_from n0 (rs ++ [r]) = if r then 0 else streak_from n0 rs + 1.
Proof. unfold streak_from. rewrite foldl_app. reflexivity. Qed.

(** One turn of the [while] loop. *)
Lemma scroll_loop_unfold fuel b write_ok s sc nl log :
  scroll_loop (S fuel) b write_ok s sc nl log =
  if sc <? MAX_SCROLL_ATTEMPTS s then
    let r := scroll_page b s in
    let nl' := if r.1 then 0 else nl + 1 in
    if nl' >=? 3 then
      mkFlow r.2 NoMoreContent (sc + 1) nl' (log ++ [mkPass r.1 nl' None])
    else
      let e := extract_download_links b r.2 in
      let log' := log ++ [mkPass r.1 nl' (Some e.1)] in
      if e.1 >=? save_threshold e.2 then
        mkFlow (with_links (save_links_to_file write_ok e.2) ∅)
               ThresholdReached (sc + 1) nl' log'
      else scroll_loop fuel b write_ok e.2 (sc + 1) nl' log'
  else mkFlow s MaxAttempts sc nl log.
Proof.
  cbn [scroll_loop]. destruct (scroll_page b s) as [loaded s1]. cbn [fst snd].
  destruct (extract_download_links b s1) as [count s2]. reflexivity.
Qed.

(** The loop, from any iteration on. *)
Lemma scroll_loop_spec fuel b write_ok s sc nl log :
  nl < 3 ->
  let f := scroll_loop fuel b write_ok s sc nl log in
  exists new,
    passes f = log ++ new /\
    scroll_count f = sc + Z.of_nat (length new) /\
    (length new <= fuel)%nat /\
    no_load_count f = streak_from nl (is_loaded <$> new) /\
    (forall k p, new !! k = Some p ->
       no_load_after p = streak_from nl (is_loaded <$> take (S k) new)) /\
    match reason f with
    | NoMoreContent =>
        exists before p, new = before ++ [p] /\
          Forall (goes_on (save_threshold s)) before /\
          no_load_after p = 3 /\ current_count p = None
    | ThresholdReached =>
        exists before p c, new = before ++ [p] /\
          Forall (goes_on (save_threshold s)) before /\
          no_load_after p < 3 /\ current_count p = Some c /\
          save_threshold s <= c
    | MaxAttempts =>
        Forall (goes_on (save_threshold s)) new /\
        (MAX_SCROLL_ATTEMPTS s <= sc + Z.of_nat (length new)
         \/ length new = fuel)
    end.
Proof.
  revert s sc nl log.
  induction fuel as [|fuel IH]; intros s sc nl log Hnl; cbv zeta.
  - exists []. rewrite app_nil_r. simpl.
    split; [reflexivity|]. split; [lia|]. split; [lia|]. split; [reflexivity|].
    split; [intros k p Hk; discriminate|].
    split; [constructor|right; reflexivity].
  - rewrite scroll_loop_unfold. cbv zeta.
    destruct (Z.ltb_spec sc (MAX_SCROLL_ATTEMPTS s)) as [Hlt|Hge].
    2:{ exists []. rewrite app_nil_r. simpl.
        split; [reflexivity|]. split; [lia|]. split; [lia|]. split; [reflexivity|].
        split; [intros k p Hk; discriminate|].
        split; [constructor|left; lia]. }
    destruct (scroll_page b s) as [loaded s1] eqn:Hscroll.
    pose proof (scroll_page_frame b s) as [[Hk1 [Ht1 Hm1]] _].
    rewrite Hscroll in Hk1, Ht1, Hm1. simpl in Hk1, Ht1, Hm1.
    cbn [fst snd].
    set (nl' := if loaded then 0 else nl + 1).
    assert (Hnl' : nl' = streak_from nl [loaded]) by reflexivity.
    destruct (Z.geb_spec nl' 3) as [H3|H3].
    + (* break: no more content *)
      exists [mkPass loaded nl' None]. simpl.
      split; [reflexivity|]. split; [lia|]. split; [lia|]. split; [reflexivity|].
      split.
      * intros [|k] p Hk; simpl in Hk; [|destruct k; discriminate].
        injection Hk as <-. reflexivity.
      * exists [], (mkPass loaded nl' None). simpl.
        split; [reflexivity|]. split; [constructor|]. split; [|reflexivity].
        unfold nl' in *. destruct loaded; lia.
    + destruct (extract_download_links b s1) as [count s2] eqn:Hext.
      pose proof (extract_frame b s1) as [Hk2 [Ht2 Hm2]].
      rewrite Hext in Hk2, Ht2, Hm2. simpl in Hk2, Ht2, Hm2.
      cbn [fst snd].
      destruct (Z.geb_spec count (save_threshold s2)) as [Hth|Hth].
      * (* break: threshold *)
        exists [mkPass loaded nl' (Some count)]. simpl.
        split; [reflexivity|]. split; [lia|]. split; [lia|]. split; [reflexivity|].
        split.
        -- intros [|k] p Hk; simpl in Hk; [|destruct k; discriminate].
           injection Hk as <-. reflexivity.
        -- exists [], (mkPass loaded nl' (Some count)), count. simpl.
           split; [reflexivity|]. split; [constructor|]. split; [lia|].
           split; [reflexivity|]. rewrite <- Ht1, <- Ht2. lia.
      * (* next iteration *)
        specialize (IH s2 (sc + 1) nl'
                      (log ++ [mkPass loaded nl' (Some count)]) H3).
        destruct IH as [new [Hp [Hsc [Hlen [Hnlf [Hchain Hreason]]]]]].
        set (p0 := mkPass loaded nl' (Some count)) in *.
        assert (Hp0 : goes_on (save_threshold s) p0).
        { split; [exact H3|]. exists count. split; [reflexivity|]. simpl. congruence. }
        exists (p0 :: new).
        split; [rewrite Hp, <- app_assoc; reflexivity|].
        split; [rewrite Hsc; simpl length; lia|].
        split; [simpl; lia|].
        split; [rewrite Hnlf; reflexivity|].
        split.
        { intros [|k] p Hk; simpl in Hk.
          - injection Hk as <-. reflexivity.
          - rewrite (Hchain k p Hk). reflexivity. }
        rewrite Ht2, Ht1, Hm2, Hm1 in Hreason.
        destruct (reason _).
        -- destruct Hreason as [before [p [-> [Hb [H3' Hc]]]]].
           exists (p0 :: before), p.
           split; [reflexivity|]. split; [constructor; assumption|].
           split; assumption.
        -- destruct Hreason as [before [p [c [-> [Hb [H3' [Hc Hle]]]]]]].
           exists (p0 :: before), p, c.
           split; [reflexivity|]. split; [constructor; assumption|].
           split; [assumption|]. split; assumption.
        -- destruct Hreason as [Hb Hmax]. split; [constructor; assumption|].
           simpl length. destruct Hmax as [Hmax|Hmax]; [left; lia|right; lia].
Qed.

(** A pass of [scroll_page] that reads both heights reports whether the page
    grew. *)
Lemma scroll_page_measures b s before_height after_height :
  scroll_outcome b (scroll_passes s) = Measures before_height after_height ->
  (scroll_page b s).1 = (after_height >? before_height).
Proof.
  intros H. unfold scroll_page. change (Z.to_nat MAX_RETRIES) with 3%nat.
  cbn [scroll_page_from]. change (0 <? MAX_RETRIES) with true. cbv iota.
  rewrite H. reflexivity.
Qed.

(** C2.  In the main loop of [run_load_more_flow] the counter of consecutive
    scrolls without growth is zero after a scroll that increased the page
    height and one more after a scroll that did not; the loop ends at the
    first scroll after which the counter is 3, or after which the cumulative
    link count has reached the save threshold, or when the number of scrolls
    has reached [MAX_SCROLL_ATTEMPTS], and not before.  On the simulated
    heights 100, 200, 200, 200, 350 (one per scroll) the counter is 1 and 2
    after the two scrolls that stay at 200, is back to 0 on the growth to 350,
    and "no more content" is reported exactly after the third consecutive
    scroll without growth that follows. *)
Theorem scroll_loop_no_growth_counter (b : browser) (write_ok : bool) (s : t) :
  let f := run_load_more_flow b write_ok s in
  let results := is_loaded <$> passes f in
  (forall s' before_height after_height,
     scroll_outcome b (scroll_passes s') = Measures before_height after_height ->
     (scroll_page b s').1 = (after_height >? before_height)) /\
  scroll_count f = Z.of_nat (length (passes f)) /\
  scroll_count f <= Z.max 0 (MAX_SCROLL_ATTEMPTS s) /\
  (forall k p, passes f !! k = Some p ->
     no_load_after p = no_growth_streak (take (S k) results)) /\
  no_load_count f = no_growth_streak results /\
  match reason f with
  | NoMoreContent =>
      exists before p, passes f = before ++ [p] /\
        Forall (goes_on (save_threshold s)) before /\
        no_load_after p = 3 /\ current_count p = None
  | ThresholdReached =>
      exists before p c, passes f = before ++ [p] /\
        Forall (goes_on (save_threshold s)) before /\
        no_load_after p < 3 /\ current_count p = Some c /\
        save_threshold s <= c
  | MaxAttempts =>
      Forall (goes_on (save_threshold s)) (passes f) /\
      MAX_SCROLL_ATTEMPTS s <= scroll_count f
  end /\
  (let f100 := run_load_more_flow simulated_from_100 true (init "people" 10000) in
   scroll_results f100
   = [(true, 0); (false, 1); (false, 2); (true, 0); (false, 1); (false, 2); (false, 3)]
   /\ reason f100 = NoMoreContent /\ scroll_count f100 = 7) /\
  (let f0 := run_load_more_flow simulated_from_0 true (init "people" 10000) in
   scroll_results f0
   = [(true, 0); (true, 0); (false, 1); (false, 2); (true, 0);
      (false, 1); (false, 2); (false, 3)]
   /\ reason f0 = NoMoreContent /\ scroll_count f0 = 8).
Proof.
  intros f results.
  destruct (scroll_loop_spec (Z.to_nat (MAX_SCROLL_ATTEMPTS s)) b write_ok s 0 0 []
              ltac:(lia))
    as [new [Hp [Hsc [Hlen [Hnl [Hchain Hreason]]]]]].
  fold (run_load_more_flow b write_ok s) in Hp, Hsc, Hnl, Hreason. fold f in Hp, Hsc, Hnl, Hreason.
  simpl in Hp. subst new. fold results in Hnl.
  split; [intros s'; apply scroll_page_measures|].
  split; [lia|]. split; [lia|].
  split.
  { intros k p Hk. rewrite (Hchain k p Hk). unfold results.
    rewrite fmap_take. reflexivity. }
  split; [exact Hnl|].
  split.
  { destruct (reason f); [exact Hreason|exact Hreason|].
    destruct Hreason as [Hall Hmax]. split; [exact Hall|]. lia. }
  split; vm_compute; repeat split; reflexivity.
Qed.

(** Links are only ever added by an extraction. *)
Lemma add_href_grows (links : gset string) hrefs :
  links ⊆ foldl add_href links hrefs.
Proof.
  revert links. induction hrefs as [|h hrefs IH]; intros links; simpl; [set_solver|].
  etransitivity; [|apply IH].
  unfold add_href. destruct h as [h|]; [|set_solver].
  destruct (decide (h = EmptyString)); set_solver.
Qed.

(** What the loop does to the store: nothing but collect links, unless it
    ends on the save threshold, where it saves what it has and empties the
    set. *)
Lemma scroll_loop_store fuel b write_ok s sc nl log :
  let f := scroll_loop fuel b write_ok s sc nl log in
  search_keyword (scraper f) = search_keyword s /\
  match reason f with
  | ThresholdReached =>
      exists links : gset string,
        download_links s ⊆ links /\
        save_threshold s <= Z.of_nat (size links) /\
        download_links (scraper f) = ∅ /\
        total_saved_links (scraper f) = total_saved_links s + Z.of_nat (size links) /\
        url_files (scraper f)
        = if write_ok
          then append_file (url_files s)
                 (output_file (search_keyword s)
                    (total_saved_links s + Z.of_nat (size links)))
                 (link_lines links)
          else url_files s
  | _ =>
      download_links s ⊆ download_links (scraper f) /\
      total_saved_links (scraper f) = total_saved_links s /\
      url_files (scraper f) = url_files s
  end.
Proof.
  revert s sc nl log. induction fuel as [|fuel IH]; intros s sc nl log; cbv zeta.
  - simpl. split; [reflexivity|]. split; [reflexivity|split; reflexivity].
  - rewrite scroll_loop_unfold. cbv zeta.
    destruct (sc <? MAX_SCROLL_ATTEMPTS s);
      [|simpl; split; [reflexivity|]; split; [reflexivity|split; reflexivity]].
    pose proof (scroll_page_frame b s) as [[Hk1 [Ht1 _]] [Hl1 [Hn1 Hf1]]].
    destruct (scroll_page b s) as [loaded s1]. simpl in Hk1, Ht1, Hl1, Hn1, Hf1.
    cbn [fst snd].
    destruct ((if loaded then 0 else nl + 1) >=? 3).
    { simpl. repeat split; [assumption|rewrite Hl1; reflexivity|assumption|assumption]. }
    pose proof (add_href_grows (download_links s1) (rendered_hrefs b (extractions s1)))
      as Hgrow.
    unfold extract_download_links. cbn [fst snd].
    set (links := foldl add_href (download_links s1) (rendered_hrefs b (extractions s1)))
      in *.
    cbn [save_threshold].
    destruct (Z.geb_spec (Z.of_nat (size links)) (save_threshold s1)) as [Hth|Hth].
    + simpl. split; [assumption|].
      exists links. rewrite Hl1 in Hgrow.
      split; [exact Hgrow|]. split; [lia|]. split; [reflexivity|].
      unfold save_links_to_file. simpl.
      split; [congruence|]. rewrite Hn1, Hk1, Hf1. reflexivity.
    + match goal with |- context [scroll_loop fuel b write_ok ?s2 ?a ?n ?l] =>
        specialize (IH s2 a n l); cbv zeta in IH;
        destruct IH as [IHk IHr]; simpl in IHk, IHr
      end.
      split; [congruence|].
      destruct (reason _).
      * destruct IHr as (H1 & H2 & H3). rewrite <- Hl1.
        repeat split; [etransitivity; eassumption|congruence|congruence].
      * destruct IHr as (L & H1 & H2 & H3 & H4 & H5).
        exists L. rewrite <- Hl1, <- Ht1, <- Hn1, <- Hk1, <- Hf1.
        repeat split; try assumption. etransitivity; eassumption.
      * destruct IHr as (H1 & H2 & H3). rewrite <- Hl1.
        repeat split; [etransitivity; eassumption|congruence|congruence].
Qed.

(** C8, as the code has it.  Every flush writes the members of the current
    set, one per line, at the end of the file named by the search keyword and
    the new total of saved links, and adds their number to that total.  The
    loop flushes when the link count reaches the save threshold, and there it
    empties the set afterwards, so that the flush of the session end, which
    happens whenever the set is not empty, is skipped; the flush of the
    session end itself leaves the set as it is. *)
Theorem flush_of_links (b : browser) (s : t) :
  (let s' := save_links_to_file true s in
   let total := total_saved_links s + Z.of_nat (size (download_links s)) in
   total_saved_links s' = total /\
   url_files s'
   = <[output_file (search_keyword s) total :=
         (default EmptyString (url_files s !! output_file (search_keyword s) total)
          +:+ link_lines (download_links s))%string]> (url_files s) /\
   download_links s' = download_links s /\
   link_lines (download_links s)
   = String.concat EmptyString
       ((fun link => (link +:+ newline)%string) <$> elements (download_links s)) /\
   NoDup (elements (download_links s)) /\
   (forall link, link ∈ elements (download_links s) <-> link ∈ download_links s)) /\
  (let f := run_load_more_flow b true s in
   match reason f with
   | ThresholdReached =>
       exists links : gset string,
         download_links s ⊆ links /\
         save_threshold s <= Z.of_nat (size links) /\
         download_links (scraper f) = ∅ /\
         total_saved_links (scraper f)
         = total_saved_links s + Z.of_nat (size links) /\
         url_files (scraper f)
         = append_file (url_files s)
             (output_file (search_keyword s)
                (total_saved_links s + Z.of_nat (size links)))
             (link_lines links) /\
         start b true true s = scraper f
   | _ =>
       download_links s ⊆ download_links (scraper f) /\
       total_saved_links (scraper f) = total_saved_links s /\
       url_files (scraper f) = url_files s
   end) /\
  (forall setup_ok : bool,
     let at_end := if setup_ok then scraper (run_load_more_flow b true s) else s in
     (download_links at_end = ∅ -> start b setup_ok true s = at_end) /\
     (download_links at_end <> ∅ ->
      start b setup_ok true s = save_links_to_file true at_end /\
      download_links (start b setup_ok true s) = download_links at_end)).
Proof.
  split; [|split].
  - cbv zeta. unfold save_links_to_file, append_file. simpl.
    repeat split; try reflexivity.
    + apply NoDup_elements.
    + intros H. apply elem_of_elements. exact H.
    + intros H. apply elem_of_elements. exact H.
  - cbv zeta.
    pose proof (scroll_loop_store (Z.to_nat (MAX_SCROLL_ATTEMPTS s)) b true s 0 0 [])
      as [_ H].
    fold (run_load_more_flow b true s) in H.
    destruct (reason (run_load_more_flow b true s)) eqn:Er; try exact H.
    destruct H as (L & H1 & H2 & H3 & H4 & H5).
    exists L. repeat split; try assumption.
    unfold start. destruct (decide _) as [_|Hne]; [reflexivity|contradiction].
  - intros setup_ok at_end. unfold start. fold at_end. split.
    + intros He. destruct (decide _); [reflexivity|contradiction].
    + intros Hne. destruct (decide _); [contradiction|]. split; reflexivity.
Qed.

(** A counterexample to C8 as it is worded.  A page that never grows and shows one link: the
    loop ends after three scrolls, the session end flushes the one link to
    [./url/people_1.txt] and advances the total to 1, and the set still holds
    the link. *)
Lemma session_end_flush_keeps_the_set :
  let s := start one_link_page true true (init "people" 10000) in
  reason (run_load_more_flow one_link_page true (init "people" 10000)) = NoMoreContent /\
  url_files s !! "./url/people_1.txt"%string
  = Some ("https://unsplash.com/photos/1/download" +:+ newline)%string /\
  total_saved_links s = 1 /\
  elements (download_links s) = ["https://unsplash.com/photos/1/download"%string] /\
  download_links s <> ∅.
Proof.
  cbv zeta. split; [vm_compute; reflexivity|].
  split; [vm_compute; reflexivity|].
  split; [vm_compute; reflexivity|].
  assert (He : elements (download_links (start one_link_page true true (init "people" 10000)))
               = ["https://unsplash.com/photos/1/download"%string])
    by (vm_compute; reflexivity).
  split; [exact He|].
  intros Hempty. apply (f_equal (fun l : gset string => length (elements l))) in Hempty.
  rewrite He in Hempty. revert Hempty. rewrite elements_empty. simpl. lia.
Qed.

End ScraperFacts.

Module PyStrFacts.
Import PyStr.

Lemma rstrip_all p s :
  Forall (fun c => p c = true) (list_ascii_of_string s) -> rstrip p s = EmptyString.
Proof.
  induction s as [|c s IH]; simpl; intros H; [reflexivity|].
  inversion H as [|? ? Hc Hs]; subst. rewrite (IH Hs), Hc. reflexivity.
Qed.

(** A string of whitespace only, the empty one included, strips to nothing. *)
Lemma strip_blank s :
  Forall (fun c => isspace c = true) (list_ascii_of_string s) ->
  strip s = EmptyString.
Proof. intros H. unfold strip. rewrite (rstrip_all _ _ H). reflexivity. Qed.

End PyStrFacts.

Module RegexFacts.
Import PyStr Regex.
Open Scope string_scope.

Lemma after_prefix_app pre s : after_prefix pre (pre ++ s) = Some s.
Proof.
  induction pre as [|c pre IH]; simpl; [reflexivity|].
  rewrite Ascii.eqb_refl. exact IH.
Qed.

Lemma after_prefix_Some pre s r : after_prefix pre s = Some r -> s = pre ++ r.
Proof.
  revert s. induction pre as [|c pre IH]; intros s; simpl.
  - intros [= <-]. reflexivity.
  - destruct s as [|a s]; [discriminate|].
    destruct (Ascii.eqb_spec c a) as [<-|]; [|discriminate].
    intros H. rewrite (IH _ H). reflexivity.
Qed.

Lemma all_chars_app p s1 s2 :
  all_chars p (s1 ++ s2) = all_chars p s1 && all_chars p s2.
Proof.
  induction s1 as [|c s1 IH]; simpl; [reflexivity|].
  rewrite IH, andb_assoc. reflexivity.
Qed.

(** The lazy group takes exactly [v] when no character of [v] can start what
    follows the group and what comes after [v] can. *)
Lemma lazy_run_value continues (p : ascii -> bool) v rest :
  (forall c s, Ascii.eqb c newline_char = false -> p c = true ->
               continues (String c s) = false) ->
  v <> EmptyString ->
  all_chars (fun c => negb (Ascii.eqb c newline_char) && p c) v = true ->
  continues rest = true ->
  lazy_run continues (v ++ rest) = Some v.
Proof.
  intros Hp. induction v as [|c v IH]; intros Hne Hall Hrest; [congruence|].
  simpl in Hall. apply andb_true_iff in Hall as [Hc Hall].
  apply andb_true_iff in Hc as [Hnl Hpc]. apply negb_true_iff in Hnl.
  simpl. rewrite Hnl.
  destruct v as [|c' v'].
  - change (EmptyString ++ rest) with rest. rewrite Hrest. reflexivity.
  - assert (Hc' : Ascii.eqb c' newline_char = false /\ p c' = true).
    { simpl in Hall. apply andb_true_iff in Hall as [H _].
      apply andb_true_iff in H as [H1 H2]. apply negb_true_iff in H1. auto. }
    change (String c' v' ++ rest) with (String c' (v' ++ rest)) at 1.
    rewrite (Hp c' _ (proj1 Hc') (proj2 Hc')).
    rewrite IH; [reflexivity|discriminate|exact Hall|exact Hrest].
Qed.

(** A pattern that starts with [filename] is not found in text without an
    [f]. *)
Lemma search_skip (match_here : string -> option string) pre s :
  (forall c t, Ascii.eqb c "f" = false -> match_here (String c t) = None) ->
  all_chars (fun c => negb (Ascii.eqb c "f")) pre = true ->
  search match_here (pre ++ s) = search match_here s.
Proof.
  intros Hm. induction pre as [|c pre IH]; intros Hall; [reflexivity|].
  simpl in Hall. apply andb_true_iff in Hall as [Hc Hall].
  apply negb_true_iff in Hc. simpl. rewrite (Hm c _ Hc). exact (IH Hall).
Qed.

Lemma search_here (match_here : string -> option string) s g :
  match_here s = Some g -> search match_here s = Some g.
Proof. intros H. destruct s; simpl; rewrite H; reflexivity. Qed.


Lemma basic_here_needs_f c t :
  Ascii.eqb c "f" = false -> basic_here (String c t) = None.
Proof.
  intros H. unfold basic_here.
  destruct (after_prefix "filename=" (String c t)) as [r|] eqn:E; [|reflexivity].
  apply after_prefix_Some in E. injection E as -> _. discriminate.
Qed.



(** Without an asterisk there is no extended directive. *)
Lemma no_extended_directive s :
  all_chars (fun c => negb (Ascii.eqb c "*")) s = true ->
  search extended_here s = None.
Proof.
  assert (Hhere : forall t, all_chars (fun c => negb (Ascii.eqb c "*")) t = true ->
                            extended_here t = None).
  { intros t Ht. unfold extended_here.
    destruct (after_prefix "filename*=" t) as [r|] eqn:E; [|reflexivity].
    apply after_prefix_Some in E. subst t. simpl in Ht. discriminate. }
  induction s as [|c s IH]; intros H.
  - reflexivity.
  - cbn [search]. rewrite (Hhere _ H). simpl in H.
    apply andb_true_iff in H as [_ H]. exact (IH H).
Qed.

(** The basic directive in double quotes, [filename=Qv Q], at the end of the
    header or before a semicolon. *)
Lemma basic_directive_quoted pre v rest :
  all_chars (fun c => negb (Ascii.eqb c "f")) pre = true ->
  v <> EmptyString ->
  all_chars (fun c => negb (Ascii.eqb c newline_char) && negb (Ascii.eqb c dquote)) v
  = true ->
  at_semicolon_or_end rest = true ->
  search basic_here
    (pre ++ "filename=" ++ String dquote (v ++ String dquote rest)) = Some v.
Proof.
  intros Hpre Hne Hv Hrest.
  rewrite (search_skip _ _ _ basic_here_needs_f Hpre).
  apply search_here. unfold basic_here.
  rewrite after_prefix_app. cbn [mbind option_bind].
  change (Ascii.eqb dquote dquote || Ascii.eqb dquote squote) with true. cbv iota.
  rewrite (lazy_run_value (closes dquote)
             (fun c => negb (Ascii.eqb c dquote)) v (String dquote rest));
    [reflexivity| |exact Hne| |].
  - intros c s _ Hc. apply negb_true_iff in Hc. simpl. rewrite Hc. reflexivity.
  - exact Hv.
  - simpl. exact Hrest.
Qed.

Lemma lazy_run_nonempty continues s g :
  lazy_run continues s = Some g -> g <> EmptyString.
Proof.
  destruct s as [|c s]; simpl; [discriminate|].
  destruct (Ascii.eqb c newline_char); [discriminate|].
  destruct (continues s); [intros [= <-]; discriminate|].
  destruct (lazy_run continues s); simpl; [intros [= <-]|]; discriminate.
Qed.

Lemma basic_here_nonempty s g : basic_here s = Some g -> g <> EmptyString.
Proof.
  unfold basic_here. destruct (after_prefix "filename=" s) as [r|]; [|discriminate].
  cbn [mbind option_bind].
  match goal with |- context [match ?q with Some _ => _ | None => _ end] =>
    destruct q as [g'|] eqn:E end.
  - intros [= <-]. destruct r as [|q r]; [discriminate|].
    destruct (Ascii.eqb q dquote || Ascii.eqb q squote); [|discriminate].
    eapply lazy_run_nonempty; exact E.
  - apply lazy_run_nonempty.
Qed.

Lemma search_basic_nonempty s g : search basic_here s = Some g -> g <> EmptyString.
Proof.
  induction s as [|c s IH]; cbn [search].
  - destruct (basic_here EmptyString) eqn:E; [|discriminate].
    intros [= <-]. eapply basic_here_nonempty; exact E.
  - destruct (basic_here (String c s)) eqn:E; [|exact IH].
    intros [= <-]. eapply basic_here_nonempty; exact E.
Qed.

End RegexFacts.

Module MD5Facts.
Import PyStr MD5.
Open Scope Z_scope.











End MD5Facts.

Module DownloadFacts.
Import PyStr Regex Url Download Manager PyStrFacts RegexFacts MD5Facts.
Open Scope list_scope.
Open Scope Z_scope.

Section Facts.

Variable unquote : string -> string.

Lemma get_next_proxy_frame m :
  let m' := (_get_next_proxy m).2 in
  url_mapping m' = url_mapping m /\ files m' = files m /\
  requests_sent m' = requests_sent m /\ waits m' = waits m /\
  console m' = console m /\ saved_mappings m' = saved_mappings m /\
  enable_proxy m' = enable_proxy m /\ proxy_list m' = proxy_list m.
Proof.
  unfold _get_next_proxy.
  destruct (negb (enable_proxy m) || bool_decide (proxy_list m = [])); simpl;
    repeat split.
Qed.

(** The first network call of an attempt that does not know the paths yet is
    the [HEAD] probe. *)
Lemma probe_sends net url keyword_dir m :
  requests_sent (probe unquote net url keyword_dir m).2
  = requests_sent m ++ [mkRequest HEAD url None (_get_next_proxy m).1].
Proof.
  unfold probe. pose proof (get_next_proxy_frame m) as Hf. simpl in Hf.
  destruct (_get_next_proxy m) as [px m1]. simpl in *.
  destruct Hf as (_ & _ & Hreq & _).
  destruct (on_head net _ _); simpl; rewrite Hreq; reflexivity.
Qed.

(** Every [GET] carries [Range: bytes=S-] exactly when the temporary file
    exists, [S] being its size. *)
Lemma fetch_sends net url p m :
  requests_sent (fetch net url p m).2
  = requests_sent m
    ++ [mkRequest GET url
          ((fun content : bytes => Z.of_nat (length content)) <$> files m !! temp_path p)
          (_get_next_proxy m).1].
Proof.
  unfold fetch. pose proof (get_next_proxy_frame m) as Hf. simpl in Hf.
  destruct (_get_next_proxy m) as [px m1]. simpl in *.
  destruct Hf as (_ & _ & Hreq & _).
  destruct (on_get net _ _) as [f|chunks [f|]]; simpl; rewrite Hreq; reflexivity.
Qed.

Lemma attempt_body_sends net url keyword_dir known m :
  exists r more,
    requests_sent (attempt_body unquote net url keyword_dir known m).2
    = requests_sent m ++ r :: more /\
    (known = None -> r = mkRequest HEAD url None (_get_next_proxy m).1).
Proof.
  unfold attempt_body. destruct known as [p|].
  - pose proof (fetch_sends net url p m) as H.
    destruct (fetch net url p m) as [r m1]. simpl in *.
    eexists _, []. split; [exact H|discriminate].
  - pose proof (probe_sends net url keyword_dir m) as H.
    destruct (probe unquote net url keyword_dir m) as [[f|p] m1]; simpl in *.
    + eexists _, []. split; [exact H|reflexivity].
    + pose proof (fetch_sends net url p m1) as H'.
      destruct (fetch net url p m1) as [r m2]. simpl in *.
      rewrite H' , H, <- app_assoc. simpl.
      eexists _, [_]. split; reflexivity.
Qed.

Lemma on_request_exception_frame net url attempt max_retries known m :
  match on_request_exception net url attempt max_retries known m with
  | inl m' =>
      attempt < max_retries - 1 /\
      requests_sent m' = requests_sent m /\ files m' = files m /\
      url_mapping m' = url_mapping m /\ saved_mappings m' = saved_mappings m /\
      waits m' = waits m ++ [wait_time attempt (uniform_0_1 net (length (waits m)))]
  | inr d =>
      max_retries - 1 <= attempt /\
      result d = Returns None /\ paths_known d = known /\
      requests_sent (after d) = requests_sent m /\
      url_mapping (after d) = url_mapping m /\
      saved_mappings (after d) = saved_mappings m /\
      waits (after d) = waits m /\
      last (console (after d)) = Some (MsgFinalFailure url) /\
      (forall p, known = Some p -> files (after d) = delete (temp_path p) (files m)) /\
      (known = None -> files (after d) = files m)
  end.
Proof.
  unfold on_request_exception.
  destruct (Z.ltb_spec attempt (max_retries - 1)) as [Hlt|Hge].
  - destruct (enable_proxy _ && _); simpl; repeat split; assumption.
  - destruct known as [p|]; simpl.
    + repeat split; try assumption; try apply last_snoc.
      * intros p0 [= <-]. reflexivity.
      * discriminate.
    + repeat split; try assumption; try apply last_snoc. discriminate.
Qed.

Lemma attempts_S remaining attempt net url keyword_dir max_retries known m :
  attempts unquote (S remaining) attempt net url keyword_dir max_retries known m
  = match attempt_body unquote net url keyword_dir known m with
    | (inr path, known, m) => mkDownload (Returns (Some path)) known m
    | (inl OtherException, known, m) => mkDownload Raised known m
    | (inl RequestException, known, m) =>
        match on_request_exception net url attempt max_retries known m with
        | inl m =>
            attempts unquote remaining (attempt + 1) net url keyword_dir
              max_retries known m
        | inr d => d
        end
    end.
Proof. reflexivity. Qed.

Lemma attempts_sends remaining attempt net url keyword_dir max_retries known m :
  exists more,
    requests_sent (after (attempts unquote remaining attempt net url keyword_dir
                            max_retries known m))
    = requests_sent m ++ more /\
    (remaining <> O -> known = None ->
     exists rest, more = mkRequest HEAD url None (_get_next_proxy m).1 :: rest).
Proof.
  revert attempt known m. induction remaining as [|n IH]; intros attempt known m.
  - exists []. simpl. rewrite app_nil_r. split; [reflexivity|congruence].
  - rewrite attempts_S.
    destruct (attempt_body_sends net url keyword_dir known m) as [r [more [Hs Hh]]].
    destruct (attempt_body unquote net url keyword_dir known m) as [[res known'] m1].
    simpl in Hs.
    assert (Hgoal : forall m2, requests_sent m2 = requests_sent m1 ->
        exists more0, requests_sent m2 = requests_sent m ++ more0 /\
          (S n <> O -> known = None ->
           exists rest, more0 = mkRequest HEAD url None (_get_next_proxy m).1 :: rest)).
    { intros m2 H2. exists (r :: more). split; [congruence|].
      intros _ Hk. exists more. rewrite (Hh Hk). reflexivity. }
    destruct res as [[|]|path]; simpl; [|apply Hgoal; reflexivity..].
    pose proof (on_request_exception_frame net url attempt max_retries known' m1) as Hf.
    destruct (on_request_exception net url attempt max_retries known' m1) as [m2|d].
    + destruct Hf as (_ & Hm2 & _).
      destruct (IH (attempt + 1) known' m2) as [more' [Hm' _]].
      exists ((r :: more) ++ more'). split.
      * rewrite Hm', Hm2, Hs, <- app_assoc. reflexivity.
      * intros _ Hk. exists (more ++ more'). rewrite (Hh Hk). reflexivity.
    + apply Hgoal. apply Hf.
Qed.

(** C10.  A task whose URL is empty or made of whitespace only returns at
    once: no request is sent, and the mapping and the files (the destination
    directory among them) are as before. *)
Theorem blank_url_is_skipped net url keyword_dir m :
  Forall (fun c => isspace c = true) (list_ascii_of_string url) ->
  _process_single_url unquote net url keyword_dir m = (Returns tt, m) /\
  let m' := (_process_single_url unquote net url keyword_dir m).2 in
  requests_sent m' = requests_sent m /\
  url_mapping m' = url_mapping m /\
  files m' = files m.
Proof.
  intros H. unfold _process_single_url. rewrite (strip_blank url H). simpl.
  repeat split.
Qed.

Lemma download_and_record_sends net url keyword_dir m :
  exists rest,
    requests_sent (download_and_record unquote net url keyword_dir m).2
    = requests_sent m ++ mkRequest HEAD url None (_get_next_proxy m).1 :: rest.
Proof.
  unfold download_and_record, download_with_retry.
  destruct (attempts_sends (Z.to_nat 10) 0 net url keyword_dir 10 None m)
    as [more [Hs Hh]].
  destruct (Hh ltac:(discriminate) eq_refl) as [rest ->].
  exists rest.
  destruct (result _) as [[path|]|]; simpl; [|exact Hs|exact Hs].
  destruct (String.eqb path EmptyString); exact Hs.
Qed.

(** C4.  For a task whose (stripped, non-empty) URL is in the mapping: when
    the mapped file exists, the task copies it to
    [os.path.join(keyword_dir, Path(source_file).name)] unless a file is
    already there, sends no request and leaves the mapping as it is; when the
    mapped file does not exist, the task goes on exactly as for a URL that is
    not in the mapping, starting with the [HEAD] request of the download. *)
Theorem cached_url_is_copied net line keyword_dir m source_file :
  let url := strip line in
  url <> EmptyString ->
  url_mapping m !! url = Some source_file ->
  let target_file := os_path_join keyword_dir (path_name source_file) in
  let done := _process_single_url unquote net line keyword_dir m in
  (forall content, files m !! source_file = Some content ->
     done.1 = Returns tt /\
     requests_sent done.2 = requests_sent m /\
     url_mapping done.2 = url_mapping m /\
     files done.2 = match files m !! target_file with
                    | Some _ => files m
                    | None => <[target_file := content]> (files m)
                    end /\
     is_Some (files done.2 !! target_file)) /\
  (files m !! source_file = None ->
     done = download_and_record unquote net url keyword_dir m /\
     exists rest,
       requests_sent done.2
       = requests_sent m ++ mkRequest HEAD url None (_get_next_proxy m).1 :: rest).
Proof.
  intros url Hne Hmap target_file done.
  assert (Hdone : done = match files m !! source_file with
                         | Some content =>
                             (Returns tt,
                              print match files m !! target_file with
                                    | Some _ => m
                                    | None => set_files m (<[target_file := content]> (files m))
                                    end (MsgCopied url))
                         | None => download_and_record unquote net url keyword_dir m
                         end).
  { unfold done, _process_single_url. fold url.
    destruct (String.eqb_spec url EmptyString) as [E|_]; [contradiction|].
    rewrite Hmap. reflexivity. }
  split.
  - intros content Hsrc. rewrite Hdone, Hsrc. simpl.
    destruct (files m !! target_file) as [existing|] eqn:Ht; simpl.
    + repeat split. rewrite Ht. eexists. reflexivity.
    + repeat split. rewrite lookup_insert_eq. eexists. reflexivity.
  - intros Hsrc. rewrite Hdone, Hsrc. split; [reflexivity|].
    apply download_and_record_sends.
Qed.

Lemma attempt_body_fails net url keyword_dir known m :
  always_fails net ->
  exists known' m',
    attempt_body unquote net url keyword_dir known m
    = (inl RequestException, known', m') /\
    (forall p, known = Some p -> known' = Some p) /\
    waits m' = waits m /\ console m' = console m /\
    url_mapping m' = url_mapping m /\ saved_mappings m' = saved_mappings m.
Proof.
  intros [Hhead Hget].
  assert (Hfetch : forall p m0, exists m1,
    fetch net url p m0 = (inl RequestException, m1) /\
    waits m1 = waits m0 /\ console m1 = console m0 /\
    url_mapping m1 = url_mapping m0 /\ saved_mappings m1 = saved_mappings m0).
  { intros p m0. unfold fetch.
    pose proof (get_next_proxy_frame m0) as Hf. simpl in Hf.
    destruct (_get_next_proxy m0) as [px m1]. simpl in Hf.
    destruct Hf as (Hmap & _ & _ & Hw & Hc & Hs & _).
    match goal with |- context [on_get net ?k ?r] =>
      destruct (Hget k r) as [E|[chunks E]]; rewrite E end;
      eexists; (split; [reflexivity|]); simpl; auto. }
  unfold attempt_body. destruct known as [p|].
  - destruct (Hfetch p m) as [m1 [E H]]. rewrite E.
    exists (Some p), m1. split; [reflexivity|]. split; [auto|exact H].
  - unfold probe.
    pose proof (get_next_proxy_frame m) as Hf. simpl in Hf.
    destruct (_get_next_proxy m) as [px m1]. simpl in Hf.
    destruct Hf as (Hmap & _ & _ & Hw & Hc & Hs & _).
    match goal with |- context [on_head net ?k ?r] =>
      pose proof (Hhead k r) as Hne; destruct (on_head net k r) as [[|]|h] end.
    + eexists None, _. split; [reflexivity|]. simpl. auto.
    + congruence.
    + match goal with |- context [fetch net url ?p ?m0] =>
        destruct (Hfetch p m0) as [m2 [E (Hw2 & Hc2 & Hm2 & Hs2)]]; rewrite E end.
      eexists (Some _), m2. split; [reflexivity|]. simpl in *.
      split; [discriminate|]. repeat split; congruence.
Qed.

Lemma backoff_waits_S net first drawn retries :
  backoff_waits net first drawn (S retries)
  = wait_time first (uniform_0_1 net drawn)
    :: backoff_waits net (first + 1) (S drawn) retries.
Proof.
  unfold backoff_waits. simpl. f_equal.
  - rewrite Z.add_0_r, Nat.add_0_r. reflexivity.
  - rewrite <- seq_shift, <- list_fmap_compose. apply list_fmap_ext.
    intros i x _. simpl. f_equal; [lia|f_equal; lia].
Qed.

(** A call whose attempts all fail. *)
Lemma attempts_exhausted remaining attempt net url keyword_dir max_retries known m :
  always_fails net ->
  0 <= attempt ->
  S remaining = Z.to_nat (max_retries - attempt) ->
  let d := attempts unquote (S remaining) attempt net url keyword_dir
             max_retries known m in
  result d = Returns None /\
  (forall p, paths_known d = Some p -> files (after d) !! temp_path p = None) /\
  waits (after d)
  = waits m ++ backoff_waits net attempt (length (waits m)) remaining /\
  last (console (after d)) = Some (MsgFinalFailure url) /\
  url_mapping (after d) = url_mapping m /\
  saved_mappings (after d) = saved_mappings m.
Proof.
  intros Hnet. revert attempt known m.
  induction remaining as [|n IH]; intros attempt known m Hatt Hrem d; subst d;
    rewrite attempts_S;
    destruct (attempt_body_fails net url keyword_dir known m Hnet)
      as [known' [m1 [E (_ & Hw & Hc & Hm & Hs)]]]; rewrite E;
    pose proof (on_request_exception_frame net url attempt max_retries known' m1) as Hf;
    destruct (on_request_exception net url attempt max_retries known' m1) as [m2|d].
  - lia.
  - destruct Hf as (_ & Hr & Hk & _ & Hmp & Hsv & Hws & Hl & Hdel & _).
    split; [exact Hr|]. split.
    { intros p Hp. rewrite Hk in Hp. rewrite (Hdel p Hp). apply lookup_delete_eq. }
    split; [rewrite app_nil_r; congruence|].
    split; [exact Hl|]. split; congruence.
  - destruct Hf as (_ & _ & _ & Hmp2 & Hsv2 & Hw2).
    specialize (IH (attempt + 1) known' m2 ltac:(lia) ltac:(lia)). cbv zeta in IH.
    destruct IH as (Hr & Hp & Hws & Hl & Hmp & Hsv).
    split; [exact Hr|]. split; [exact Hp|].
    split; [|split; [exact Hl|split; congruence]].
    rewrite Hws, Hw2, Hw, backoff_waits_S, <- app_assoc, length_app. simpl.
    rewrite Nat.add_1_r. reflexivity.
  - lia.
Qed.

Lemma download_exhausted net url keyword_dir max_retries m :
  always_fails net ->
  let d := download_with_retry unquote net url keyword_dir max_retries m in
  result d = Returns None /\
  (forall p, paths_known d = Some p -> files (after d) !! temp_path p = None) /\
  waits (after d)
  = waits m ++ backoff_waits net 0 (length (waits m)) (Z.to_nat max_retries - 1) /\
  (0 < max_retries -> last (console (after d)) = Some (MsgFinalFailure url)) /\
  url_mapping (after d) = url_mapping m /\
  saved_mappings (after d) = saved_mappings m.
Proof.
  intros Hnet d. subst d. unfold download_with_retry.
  destruct (Z.to_nat max_retries) as [|r] eqn:Hr.
  - simpl. rewrite app_nil_r. repeat split; try discriminate. lia.
  - destruct (attempts_exhausted r 0 net url keyword_dir max_retries None m Hnet
                ltac:(lia) ltac:(lia)) as (H1 & H2 & H3 & H4 & H5 & H6).
    replace (S r - 1)%nat with r by lia.
    repeat split; auto.
Qed.

Lemma attempt_body_only_temp net url keyword_dir before known m :
  only_temp unquote net url keyword_dir before known m ->
  let r := attempt_body unquote net url keyword_dir known m in
  (forall p, known = Some p -> r.1.2 = Some p) /\
  ((exists f, r.1.1 = inl f) -> only_temp unquote net url keyword_dir before r.1.2 r.2).
Proof.
  assert (Hfetch : forall p m0,
    let r := fetch net url p m0 in
    (exists f, r.1 = inl f) ->
    delete (temp_path p) (files r.2) = delete (temp_path p) (files m0)).
  { intros p m0. unfold fetch, _get_next_proxy.
    destruct (negb (enable_proxy m0) || bool_decide (proxy_list m0 = [])); simpl;
      destruct (on_get net _ _) as [f|chunks [f|]]; simpl; intros [f' Hf'];
      try discriminate; try reflexivity; apply delete_insert_eq. }
  intros Hinv. unfold attempt_body. destruct known as [p|].
  - specialize (Hfetch p m). cbv zeta in Hfetch.
    destruct (fetch net url p m) as [r m1]. simpl in *.
    split; [intros p0 [= <-]; reflexivity|].
    intros Hf. destruct Hinv as [Hs Hd]. split; [exact Hs|].
    rewrite (Hfetch Hf). exact Hd.
  - split; [discriminate|]. unfold probe.
    pose proof (get_next_proxy_frame m) as Hpx. simpl in Hpx.
    destruct (_get_next_proxy m) as [px m1]. simpl in Hpx.
    destruct Hpx as (_ & Hfiles & _).
    match goal with |- context [on_head net ?i0 ?r0] =>
      destruct (on_head net i0 r0) as [f|h] eqn:Eh
    end; simpl.
    + intros _. simpl in Hinv. congruence.
    + match goal with |- context [fetch net url ?p ?m0] =>
        specialize (Hfetch p m0); cbv zeta in Hfetch;
        destruct (fetch net url p m0) as [r m2]
      end.
      simpl in *. intros Hf. split.
      * eexists _, _, h. split; [exact Eh|]. repeat split.
      * rewrite (Hfetch Hf). simpl. rewrite Hfiles, Hinv. reflexivity.
Qed.

(** A call that returns [None] has removed the temporary file, if it got to
    name one, and has left every other file as it was. *)
Lemma attempts_without_result remaining attempt net url keyword_dir max_retries
    before known m :
  S remaining = Z.to_nat (max_retries - attempt) ->
  only_temp unquote net url keyword_dir before known m ->
  let d := attempts unquote (S remaining) attempt net url keyword_dir max_retries
             known m in
  (forall p, known = Some p -> paths_known d = Some p) /\
  (result d = Returns None ->
   match paths_known d with
   | None => files (after d) = files before
   | Some p =>
       settled_by unquote net url keyword_dir p /\
       files (after d) = delete (temp_path p) (files before)
   end).
Proof.
  revert attempt known m.
  induction remaining as [|n IH]; intros attempt known m Hrem Hinv; cbv zeta;
    rewrite attempts_S;
    pose proof (attempt_body_only_temp net url keyword_dir before known m Hinv) as Hb;
    cbv zeta in Hb;
    destruct (attempt_body unquote net url keyword_dir known m) as [[res known'] m1];
    simpl in Hb; destruct Hb as [Hkeep Hinv'];
    (destruct res as [[|]|path]; simpl;
     [|split; [exact Hkeep|discriminate]..]);
    specialize (Hinv' ltac:(eexists; reflexivity));
    pose proof (on_request_exception_frame net url attempt max_retries known' m1) as Hx;
    destruct (on_request_exception net url attempt max_retries known' m1) as [m2|d].
  - destruct Hx as (Hlt & _). lia.
  - destruct Hx as (_ & Hres & Hknown & _ & _ & _ & _ & _ & Hdel & Hnone).
    rewrite Hknown. split; [exact Hkeep|]. intros _.
    destruct known' as [p|].
    + destruct Hinv' as [Hs Hd]. split; [exact Hs|].
      rewrite (Hdel p eq_refl). exact Hd.
    + rewrite (Hnone eq_refl). exact Hinv'.
  - destruct Hx as (_ & _ & Hfiles & _).
    assert (Hinv2 : only_temp unquote net url keyword_dir before known' m2).
    { unfold only_temp in *. rewrite Hfiles. exact Hinv'. }
    destruct (IH (attempt + 1) known' m2 ltac:(lia) Hinv2) as [IHkeep IHres].
    split; [intros p Hp; apply IHkeep, Hkeep, Hp|exact IHres].
  - destruct Hx as (Hge & _). lia.
Qed.

(** The transfers of a call whose paths are known and whose attempts all
    fail: one for each attempt. *)
Lemma attempts_transfers remaining attempt net url keyword_dir max_retries p m :
  always_fails net ->
  S remaining = Z.to_nat (max_retries - attempt) ->
  let d := attempts unquote (S remaining) attempt net url keyword_dir max_retries
             (Some p) m in
  exists transfers,
    requests_sent (after d) = requests_sent m ++ transfers /\
    length transfers = S remaining /\
    Forall (is_get url) transfers.
Proof.
  intros Hnet. revert attempt m.
  induction remaining as [|n IH]; intros attempt m Hrem; cbv zeta;
    rewrite attempts_S;
    pose proof (attempt_body_sends net url keyword_dir (Some p) m) as Hs;
    destruct (attempt_body_fails net url keyword_dir (Some p) m Hnet)
      as (known' & m1 & E & Hk & _);
    rewrite E in *; rewrite (Hk p eq_refl) in *; clear Hk;
    assert (Hs1 : exists g, requests_sent m1 = requests_sent m ++ [g] /\ is_get url g)
      by (pose proof (fetch_sends net url p m) as Hf;
          unfold attempt_body in E; destruct (fetch net url p m) as [r0 m0];
          injection E as _ <-; eexists; split; [exact Hf|split; reflexivity]);
    destruct Hs1 as (g & Hs1 & Hg); clear Hs;
    pose proof (on_request_exception_frame net url attempt max_retries (Some p) m1) as Hx;
    destruct (on_request_exception net url attempt max_retries (Some p) m1) as [m2|d].
  - destruct Hx as (Hlt & _). lia.
  - destruct Hx as (_ & _ & _ & Hreq & _).
    exists [g]. rewrite Hreq, Hs1. repeat split. repeat constructor; apply Hg.
  - destruct Hx as (_ & Hreq & _).
    destruct (IH (attempt + 1) m2 ltac:(lia)) as (ts & Hts & Hlen & Hall).
    exists (g :: ts). rewrite Hts, Hreq, Hs1, <- app_assoc.
    split; [reflexivity|]. split; [simpl; lia|]. constructor; assumption.
  - destruct Hx as (Hge & _). lia.
Qed.

(** C3, as the code has it.  When every attempt of [download_with_retry]
    fails with an exception of the [requests] hierarchy, whatever
    [max_retries] is, the call returns [None]: no exception escapes and no
    path is returned.  The temporary file is gone, with the partial content
    in it and whether or not it was there before the call, and every other
    file is as it was: when no probe was answered nothing has changed on
    disk, and otherwise the paths are those of an answer to a probe.  In
    particular, when the probes are answered the call has made one probe and
    [max_retries] transfers before it gave up, and the file at
    [os.path.join(keyword_dir, filename) + '.tmp'] does not exist afterwards.
    Each attempt but the last is followed by a wait, and the last thing
    printed is the final failure.  The caller, which passes the default of 10
    attempts, reports the failure and leaves the mapping as it is. *)
Theorem exhausted_retries_return_none net url keyword_dir max_retries m :
  always_fails net ->
  let d := download_with_retry unquote net url keyword_dir max_retries m in
  result d = Returns None /\
  (forall path, result d <> Returns (Some path)) /\
  match paths_known d with
  | None => files (after d) = files m
  | Some p =>
      settled_by unquote net url keyword_dir p /\
      files (after d) = delete (temp_path p) (files m)
  end /\
  (forall h,
     (forall k r, on_head net k r = HeadOk h) -> 0 < max_retries ->
     let p := paths_of unquote h url keyword_dir in
     paths_known d = Some p /\
     files (after d) = delete (temp_path p) (files m) /\
     files (after d) !! temp_path p = None /\
     exists probe transfers,
       requests_sent (after d) = requests_sent m ++ probe :: transfers /\
       is_head url probe /\ Forall (is_get url) transfers /\
       length transfers = Z.to_nat max_retries) /\
  length (waits (after d)) = (length (waits m) + (Z.to_nat max_retries - 1))%nat /\
  (0 < max_retries -> last (console (after d)) = Some (MsgFinalFailure url)) /\
  let r := download_and_record unquote net url keyword_dir m in
  r.1 = Returns tt /\
  url_mapping r.2 = url_mapping m /\
  last (console r.2) = Some (MsgFailed url).
Proof.
  intros Hnet d.
  destruct (download_exhausted net url keyword_dir max_retries m Hnet)
    as (H1 & _ & Hw & H4 & _). fold d in H1, Hw, H4.
  assert (Hfiles : match paths_known d with
                   | None => files (after d) = files m
                   | Some p =>
                       settled_by unquote net url keyword_dir p /\
                       files (after d) = delete (temp_path p) (files m)
                   end).
  { unfold d, download_with_retry in *.
    destruct (Z.to_nat max_retries) as [|r] eqn:Hr; [reflexivity|].
    apply (attempts_without_result r 0 net url keyword_dir max_retries m None m);
      [lia|reflexivity|exact H1]. }
  split; [exact H1|]. split; [rewrite H1; discriminate|].
  split; [exact Hfiles|]. split.
  { intros h Hhead Hmax p.
    assert (Hd : d = attempts unquote (Z.to_nat max_retries) 0 net url keyword_dir
                       max_retries (Some p) (probe unquote net url keyword_dir m).2
                 /\ requests_sent (probe unquote net url keyword_dir m).2
                    = requests_sent m ++ [mkRequest HEAD url None (_get_next_proxy m).1]).
    { split; [|apply probe_sends].
      unfold d, download_with_retry.
      destruct (Z.to_nat max_retries) as [|r] eqn:Hr; [lia|].
      rewrite !attempts_S. unfold attempt_body, probe.
      destruct (_get_next_proxy m) as [px m1]. rewrite Hhead. reflexivity. }
    destruct Hd as [Hd Hprobe].
    assert (Hknown : paths_known d = Some p).
    { rewrite Hd. destruct (Z.to_nat max_retries) as [|r] eqn:Hr; [lia|].
      apply (attempts_without_result r 0 net url keyword_dir max_retries
               (probe unquote net url keyword_dir m).2 (Some p)); [lia| |reflexivity].
      split; [|reflexivity].
      exists O, (mkRequest HEAD url None None), h. repeat split. apply Hhead. }
    rewrite Hknown in Hfiles. destruct Hfiles as [_ Hfiles].
    split; [exact Hknown|]. split; [exact Hfiles|].
    split; [rewrite Hfiles; apply lookup_delete_eq|].
    destruct (Z.to_nat max_retries) as [|r] eqn:Hr; [lia|].
    destruct (attempts_transfers r 0 net url keyword_dir max_retries p
                (probe unquote net url keyword_dir m).2 Hnet ltac:(lia))
      as (ts & Hts & Hlen & Hall).
    eexists _, ts. rewrite Hd, Hts, Hprobe, <- app_assoc.
    split; [reflexivity|]. split; [repeat split|]. split; assumption. }
  split.
  { rewrite Hw, length_app. unfold backoff_waits. rewrite length_fmap, length_seq.
    reflexivity. }
  split; [exact H4|].
  unfold download_and_record.
  destruct (download_exhausted net url keyword_dir 10 m Hnet)
    as (H1' & _ & _ & _ & H5' & _).
  rewrite H1'. simpl. split; [reflexivity|]. split; [exact H5'|apply last_snoc].
Qed.


Lemma base_wait_monotone k k' : 0 <= k <= k' -> base_wait k <= base_wait k'.
Proof.
  intros H. unfold base_wait. apply Z.pow_le_mono_r; lia.
Qed.

Lemma wait_time_bounds k (j : Q) :
  (0 <= j)%Q -> (j < 1)%Q ->
  (inject_Z (2 ^ Z.min k 5) <= wait_time k j)%Q /\
  (wait_time k j < inject_Z (2 ^ Z.min k 5) + 1)%Q.
Proof.
  intros H0 H1. unfold wait_time, base_wait.
  generalize (inject_Z (2 ^ Z.min k 5)). intros b. split; lra.
Qed.

(** C7.  In a call whose attempts all fail, the wait after attempt [k]
    (counted from 0), for each attempt but the last, is
    [2 ** min(k, 5)] seconds plus the jitter drawn for it, a number in
    [[0, 1)]; the base waits of attempts 0 to 5 are 1, 2, 4, 8, 16, 32, and
    the base wait never decreases with the attempt number. *)
Theorem backoff_wait_sequence net url keyword_dir max_retries m :
  always_fails net ->
  (forall i, (0 <= uniform_0_1 net i)%Q /\ (uniform_0_1 net i < 1)%Q) ->
  let d := download_with_retry unquote net url keyword_dir max_retries m in
  let retries := (Z.to_nat max_retries - 1)%nat in
  (exists new, waits (after d) = waits m ++ new /\ length new = retries /\
     forall k, (k < retries)%nat ->
       exists j, new !! k = Some (wait_time (Z.of_nat k) j) /\
         wait_time (Z.of_nat k) j = (inject_Z (2 ^ Z.min (Z.of_nat k) 5) + j)%Q /\
         (0 <= j)%Q /\ (j < 1)%Q /\
         (inject_Z (2 ^ Z.min (Z.of_nat k) 5) <= wait_time (Z.of_nat k) j)%Q /\
         (wait_time (Z.of_nat k) j < inject_Z (2 ^ Z.min (Z.of_nat k) 5) + 1)%Q) /\
  base_wait <$> [0; 1; 2; 3; 4; 5] = [1; 2; 4; 8; 16; 32] /\
  (forall k k', 0 <= k <= k' -> base_wait k <= base_wait k').
Proof.
  intros Hnet Hj d retries.
  destruct (download_exhausted net url keyword_dir max_retries m Hnet)
    as (_ & _ & Hw & _). fold d retries in Hw.
  split; [|split; [reflexivity|exact base_wait_monotone]].
  exists (backoff_waits net 0 (length (waits m)) retries).
  split; [exact Hw|].
  split; [unfold backoff_waits; rewrite length_fmap, length_seq; reflexivity|].
  intros k Hk. exists (uniform_0_1 net (length (waits m) + k)).
  split.
  { unfold backoff_waits. rewrite list_lookup_fmap, lookup_seq_lt by exact Hk.
    reflexivity. }
  split; [reflexivity|].
  destruct (Hj (length (waits m) + k)%nat) as [H0 H1].
  split; [exact H0|]. split; [exact H1|].
  apply wait_time_bounds; assumption.
Qed.

(** What an attempt, successful or not, leaves alone. *)
Lemma attempt_body_frame net url keyword_dir known m :
  let m' := (attempt_body unquote net url keyword_dir known m).2 in
  url_mapping m' = url_mapping m /\ saved_mappings m' = saved_mappings m /\
  max_workers m' = max_workers m /\ download_folder m' = download_folder m.
Proof.
  assert (Hfetch : forall p m0,
    let m1 := (fetch net url p m0).2 in
    url_mapping m1 = url_mapping m0 /\ saved_mappings m1 = saved_mappings m0 /\
    max_workers m1 = max_workers m0 /\ download_folder m1 = download_folder m0).
  { intros p m0. unfold fetch, _get_next_proxy.
    destruct (negb (enable_proxy m0) || bool_decide (proxy_list m0 = [])); simpl;
      destruct (on_get net _ _) as [f|chunks [f|]]; simpl; repeat split. }
  unfold attempt_body. destruct known as [p|].
  - specialize (Hfetch p m). destruct (fetch net url p m). exact Hfetch.
  - unfold probe, _get_next_proxy.
    destruct (negb (enable_proxy m) || bool_decide (proxy_list m = [])); simpl;
      destruct (on_head net _ _) as [f|h]; simpl; try (repeat split; fail);
      match goal with |- context [fetch net url ?p ?m0] =>
        specialize (Hfetch p m0); destruct (fetch net url p m0) end;
      exact Hfetch.
Qed.

Lemma attempts_frame remaining attempt net url keyword_dir max_retries known m :
  let d := attempts unquote remaining attempt net url keyword_dir max_retries known m in
  url_mapping (after d) = url_mapping m /\
  saved_mappings (after d) = saved_mappings m /\
  max_workers (after d) = max_workers m /\
  download_folder (after d) = download_folder m.
Proof.
  revert attempt known m. induction remaining as [|n IH]; intros attempt known m.
  - simpl. repeat split.
  - cbv zeta. rewrite attempts_S.
    pose proof (attempt_body_frame net url keyword_dir known m) as Hb. cbv zeta in Hb.
    destruct (attempt_body unquote net url keyword_dir known m) as [[res known'] m1].
    simpl in Hb. destruct Hb as (Hb1 & Hb2 & Hb3 & Hb4).
    destruct res as [[|]|path]; simpl; [|repeat split; assumption..].
    unfold on_request_exception.
    destruct (attempt <? max_retries - 1).
    + match goal with |- context [attempts _ n ?a _ _ _ _ ?k ?m2] =>
        specialize (IH a k m2); cbv zeta in IH;
        destruct IH as (I1 & I2 & I3 & I4);
        assert (Hm2 : url_mapping m2 = url_mapping m1 /\
                      saved_mappings m2 = saved_mappings m1 /\
                      max_workers m2 = max_workers m1 /\
                      download_folder m2 = download_folder m1)
          by (destruct (enable_proxy _ && _); simpl; repeat split)
      end.
      destruct Hm2 as (J1 & J2 & J3 & J4). repeat split; congruence.
    + destruct known'; simpl; repeat split; assumption.
Qed.

(** A task never writes the mapping document, whether it succeeds or fails. *)
Lemma process_single_url_frame net url keyword_dir m :
  let m' := (_process_single_url unquote net url keyword_dir m).2 in
  saved_mappings m' = saved_mappings m /\
  max_workers m' = max_workers m /\ download_folder m' = download_folder m.
Proof.
  assert (Hd : forall u,
    let m' := (download_and_record unquote net u keyword_dir m).2 in
    saved_mappings m' = saved_mappings m /\
    max_workers m' = max_workers m /\ download_folder m' = download_folder m).
  { intros u. unfold download_and_record, download_with_retry.
    pose proof (attempts_frame (Z.to_nat 10) 0 net u keyword_dir 10 None m) as Hf.
    cbv zeta in Hf. destruct Hf as (_ & H2 & H3 & H4).
    destruct (result _) as [[path|]|]; simpl; try (repeat split; assumption).
    destruct (String.eqb path EmptyString); simpl; repeat split; assumption. }
  unfold _process_single_url.
  destruct (String.eqb (strip url) EmptyString); [repeat split|].
  destruct (url_mapping m !! strip url) as [source_file|]; [|apply Hd].
  destruct (files m !! source_file) as [content|]; [|apply Hd].
  destruct (files m !! _); simpl; repeat split.
Qed.

(** The pool runs every pending task exactly once, in some order, and none of
    them writes the mapping document. *)
Lemma run_pool_all net pick tasks completed total m :
  let done := run_pool unquote (length tasks) net pick tasks completed total m in
  done.1.*1 ≡ₚ tasks /\
  saved_mappings done.2 = saved_mappings m.
Proof.
  remember (length tasks) as n eqn:Hn.
  revert tasks completed m Hn. induction n as [|n IH]; intros tasks completed m Hn.
  - destruct tasks; [|discriminate]. simpl. split; reflexivity.
  - cbn [run_pool].
    assert (Hi : (pick tasks mod length tasks < length tasks)%nat)
      by (apply Nat.mod_upper_bound; lia).
    destruct (lookup_lt_is_Some_2 tasks _ Hi) as [[url keyword_dir] Htask].
    rewrite Htask.
    pose proof (process_single_url_frame net url keyword_dir m) as Hf. cbv zeta in Hf.
    destruct (_process_single_url unquote net url keyword_dir m) as [r m1].
    simpl in Hf. destruct Hf as (Hs1 & _).
    match goal with |- context [run_pool _ n _ _ ?ts ?c _ ?m2] =>
      specialize (IH ts c m2); cbv zeta in IH;
      assert (Hm2 : saved_mappings m2 = saved_mappings m)
        by (destruct r; simpl; exact Hs1);
      destruct (run_pool unquote n net pick ts c total m2) as [futures m3]
    end.
    rewrite length_delete in IH by (eexists; exact Htask).
    destruct (IH ltac:(lia)) as [Hperm Hsaved]. simpl in *.
    split; [|congruence].
    rewrite Hperm. symmetry. apply delete_Permutation. exact Htask.
Qed.

(** The pool is the tasks run one after the other, in some order. *)
Lemma run_pool_in_order net pick tasks completed total m :
  exists order,
    order ≡ₚ tasks /\
    run_pool unquote (length tasks) net pick tasks completed total m
    = run_in_order unquote net order completed total m.
Proof.
  remember (length tasks) as n eqn:Hn.
  revert tasks completed m Hn. induction n as [|n IH]; intros tasks completed m Hn.
  - destruct tasks; [|discriminate]. exists []. split; reflexivity.
  - cbn [run_pool].
    assert (Hi : (pick tasks mod length tasks < length tasks)%nat)
      by (apply Nat.mod_upper_bound; lia).
    destruct (lookup_lt_is_Some_2 tasks _ Hi) as [[url keyword_dir] Htask].
    rewrite Htask.
    assert (Hall : forall c' m',
      exists order', order' ≡ₚ delete (pick tasks mod length tasks)%nat tasks /\
        run_pool unquote n net pick (delete (pick tasks mod length tasks)%nat tasks)
          c' total m'
        = run_in_order unquote net order' c' total m').
    { intros c' m'. apply IH. rewrite length_delete by (eexists; exact Htask). lia. }
    destruct (_process_single_url unquote net url keyword_dir m) as [r m1] eqn:Ep.
    match goal with |- context [run_pool _ n _ _ _ ?c _ ?m2] =>
      destruct (Hall c m2) as (order' & Hperm & Hrun)
    end.
    exists ((url, keyword_dir) :: order'). split.
    + rewrite Hperm. symmetry. apply delete_Permutation. exact Htask.
    + cbn [run_in_order]. rewrite Ep, Hrun. reflexivity.
Qed.

(** The futures of a run in order are those of its tasks, in that order. *)
Lemma run_in_order_tasks net order completed total m :
  (run_in_order unquote net order completed total m).1.*1 = order.
Proof.
  revert completed m. induction order as [|[url keyword_dir] rest IH];
    intros completed m; [reflexivity|].
  cbn [run_in_order].
  destruct (_process_single_url unquote net url keyword_dir m) as [r m1].
  match goal with |- context [run_in_order _ _ rest ?c _ ?m2] =>
    specialize (IH c m2);
    destruct (run_in_order unquote net rest c total m2) as [futures m3]
  end.
  cbn [fst snd fmap list_fmap] in *. f_equal. exact IH.
Qed.

(** C9, as the code has it.  In every run of [process_all] that finds the URL
    folder, gets through the creation of the keyword folders and the reading
    of the link files, and has a pool of at least one worker: the tasks are
    run, each one to completion and exactly once, in some order; then the
    whole mapping is written to the mapping document, once; and this holds
    whatever the tasks did: succeed, fail or raise.  A run that does not find
    the URL folder says so and returns; a run that cannot create a folder or
    read a file raises; neither runs a task or writes anything. *)
Theorem process_all_persists_once net pick txt_files contents m :
  0 < max_workers m ->
  readable txt_files = Some contents ->
  let tasks := download_tasks (download_folder m) contents in
  let done := process_all unquote net pick (Some txt_files) m in
  (exists order,
     order ≡ₚ tasks /\
     let ran := run_in_order unquote net order 0 (length tasks)
                  (print m (MsgFound (length txt_files) (max_workers m))) in
     done.1 = Returns ran.1 /\ ran.1.*1 = order /\
     done.2 = print (_save_mapping ran.2) MsgAllDone) /\
  (exists futures, done.1 = Returns futures /\ futures.*1 ≡ₚ tasks) /\
  saved_mappings done.2 = saved_mappings m ++ [url_mapping done.2] /\
  mapping_document done.2 = Some (url_mapping done.2) /\
  last (console done.2) = Some MsgAllDone /\
  (let skipped := process_all unquote net pick None m in
   skipped.1 = Returns [] /\
   saved_mappings skipped.2 = saved_mappings m /\
   requests_sent skipped.2 = requests_sent m) /\
  (forall unread,
     readable unread = None ->
     let broken := process_all unquote net pick (Some unread) m in
     broken.1 = Raised /\
     saved_mappings broken.2 = saved_mappings m /\
     requests_sent broken.2 = requests_sent m /\
     url_mapping broken.2 = url_mapping m /\ files broken.2 = files m).
Proof.
  intros Hw Hread tasks done.
  assert (Hdone : done
    = let ran := run_pool unquote (length tasks) net pick tasks 0 (length tasks)
                   (print m (MsgFound (length txt_files) (max_workers m))) in
      (Returns ran.1, print (_save_mapping ran.2) MsgAllDone)).
  { unfold done, process_all. rewrite Hread. cbn [max_workers download_folder print].
    fold tasks. destruct (Z.leb_spec (max_workers m) 0) as [|_]; [lia|].
    destruct (run_pool unquote (length tasks) net pick tasks 0 (length tasks) _).
    reflexivity. }
  cbv zeta in Hdone.
  pose proof (run_pool_all net pick tasks 0 (length tasks)
                (print m (MsgFound (length txt_files) (max_workers m)))) as Hp.
  cbv zeta in Hp. destruct Hp as [Hperm Hsaved].
  destruct (run_pool_in_order net pick tasks 0 (length tasks)
              (print m (MsgFound (length txt_files) (max_workers m))))
    as (order & Horder & Hrun).
  split.
  { exists order. split; [exact Horder|]. cbv zeta. rewrite <- Hrun.
    split; [rewrite Hdone; reflexivity|].
    split; [rewrite Hrun; apply run_in_order_tasks|rewrite Hdone; reflexivity]. }
  split; [eexists; split; [rewrite Hdone; reflexivity|exact Hperm]|].
  rewrite Hdone. cbn [fst snd].
  split; [simpl; rewrite Hsaved; reflexivity|].
  split; [unfold mapping_document; simpl; apply last_snoc|].
  split; [apply last_snoc|].
  split; [repeat split|].
  intros unread Hun. cbv zeta. unfold process_all. rewrite Hun. repeat split.
Qed.


(** The resolution, step by step in the order of the source. *)
Lemma extract_filename_steps h url :
  _extract_filename_from_response unquote h url
  = match extended_filename unquote h with
    | Some f => strip_quotes f
    | None =>
        match basic_filename h with
        | Some f => strip_quotes f
        | None =>
            if contains "." (last_path_segment url)
            then unquote (last_path_segment url)
            else (slice_to 8 (MD5.hexdigest url)
                  +:+ dict_get ext_map (media_type h) ".tmp")%string
        end
    end.
Proof.
  unfold _extract_filename_from_response, extended_filename, basic_filename,
    last_path_segment, media_type, strip_quotes.
  set (cd := default EmptyString (content_disposition h)).
  assert (Hseg : forall seg, negb (String.eqb seg EmptyString) && contains "." seg
                             = contains "." seg).
  { intros [|c seg]; reflexivity. }
  rewrite Hseg.
  destruct (String.eqb cd EmptyString); [reflexivity|].
  destruct (search extended_here cd) as [g|]; cbn [mbind option_bind].
  - destruct (String.eqb (unquote g) EmptyString); [|reflexivity].
    destruct (search basic_here cd) as [g2|] eqn:E2; cbn [mbind option_bind];
      [|reflexivity].
    apply search_basic_nonempty in E2.
    destruct (String.eqb_spec g2 EmptyString); [contradiction|reflexivity].
  - destruct (search basic_here cd) as [g2|] eqn:E2; cbn [mbind option_bind];
      [|reflexivity].
    apply search_basic_nonempty in E2.
    destruct (String.eqb_spec g2 EmptyString); [contradiction|reflexivity].
Qed.


End Facts.

(** *** Resumption against a server that honours ranges *)

Section Resume.

Variable unquote : string -> string.
Variable body : bytes.
Variable net : network.
Hypothesis Hserves : serves body net.

Lemma prefix_then_rest (prior got : bytes) :
  prior `prefix_of` body ->
  got `prefix_of` drop (length prior) body ->
  (prior ++ got) `prefix_of` body.
Proof.
  intros [k1 Hk1] [k2 Hk2]. exists k2.
  rewrite Hk1 in Hk2. rewrite drop_app_length in Hk2.
  rewrite Hk1, Hk2, <- app_assoc. reflexivity.
Qed.

Lemma prefix_then_all (prior got : bytes) :
  prior `prefix_of` body ->
  got = drop (length prior) body ->
  prior ++ got = body.
Proof.
  intros [k1 Hk1] ->. rewrite Hk1 at 1. rewrite drop_app_length.
  symmetry. exact Hk1.
Qed.

(** One [GET]: what is in the temporary file stays a prefix of the body, and
    a file that is promoted is the body. *)
Lemma fetch_resumes url p m :
  (forall c, files m !! temp_path p = Some c -> c `prefix_of` body) ->
  let done := fetch net url p m in
  (forall c, files done.2 !! temp_path p = Some c -> c `prefix_of` body) /\
  (forall path, done.1 = inr path ->
     path = local_path p /\ files done.2 !! path = Some body).
Proof.
  intros Htemp. cbv zeta. unfold fetch.
  pose proof (get_next_proxy_frame m) as Hf. simpl in Hf.
  destruct (_get_next_proxy m) as [px m1]. simpl in Hf.
  destruct Hf as (_ & Hfiles & Hreq & _).
  match goal with |- context [on_get net ?k ?r] =>
    pose proof (Hserves k r) as Hs; destruct (on_get net k r) as [f|chunks broken] end.
  { simpl. rewrite Hfiles. split; [exact Htemp|discriminate]. }
  cbn [range_from] in Hs. cbv zeta in Hs.
  assert (Hprior : default [] (files m !! temp_path p) `prefix_of` body /\
                   Z.to_nat (default 0 ((fun content : bytes => Z.of_nat (length content))
                                          <$> files m !! temp_path p))
                   = length (default [] (files m !! temp_path p))).
  { destruct (files m !! temp_path p) as [c|] eqn:E; simpl.
    - split; [apply Htemp; reflexivity|lia].
    - split; [apply prefix_nil|reflexivity]. }
  destruct Hprior as [Hpre Hlen]. rewrite Hlen in Hs.
  destruct broken as [f|]; simpl; rewrite !Hfiles.
  - split; [|discriminate]. intros c. rewrite lookup_insert_eq. intros [= <-].
    apply prefix_then_rest; assumption.
  - rewrite (prefix_then_all _ _ Hpre Hs). split.
    + intros c Hc. destruct (decide (local_path p = temp_path p)) as [E|E].
      * rewrite E, lookup_insert_eq in Hc. injection Hc as <-. reflexivity.
      * rewrite lookup_insert_ne, lookup_delete_eq in Hc by exact E. discriminate.
    + intros path [= <-]. split; [reflexivity|apply lookup_insert_eq].
Qed.

(** A call that starts with no stale temporary file, or with one that holds
    the first bytes of the body, and returns a path has put the whole body
    there: nothing twice, nothing left out. *)
Lemma resume_from_a_server_with_ranges url keyword_dir max_retries m :
  (forall k r h c,
     on_head net k r = HeadOk h ->
     files m !! (os_path_join keyword_dir (_extract_filename_from_response unquote h url)
                 +:+ ".tmp")%string = Some c ->
     c `prefix_of` body) ->
  forall path,
    result (download_with_retry unquote net url keyword_dir max_retries m)
    = Returns (Some path) ->
    files (after (download_with_retry unquote net url keyword_dir max_retries m)) !! path
    = Some body.
Proof.
  intros Hstale. unfold download_with_retry.
  set (ok := fun (known : option paths) (m' : t) =>
         match known with
         | Some p => forall c, files m' !! temp_path p = Some c -> c `prefix_of` body
         | None => files m' = files m
         end).
  assert (Hloop : forall remaining attempt known m',
    ok known m' ->
    forall path,
      result (attempts unquote remaining attempt net url keyword_dir max_retries known m')
      = Returns (Some path) ->
      files (after (attempts unquote remaining attempt net url keyword_dir
                      max_retries known m')) !! path = Some body).
  { induction remaining as [|n IH]; intros attempt known m' Hok path;
      [discriminate|].
    rewrite attempts_S.
    assert (Hbody : let b := attempt_body unquote net url keyword_dir known m' in
                    ok b.1.2 b.2 /\
                    forall path0, b.1.1 = inr path0 -> files b.2 !! path0 = Some body).
    { unfold attempt_body. destruct known as [p|].
      - destruct (fetch_resumes url p m' Hok) as [H1 H2].
        destruct (fetch net url p m') as [r m2]. simpl in *.
        split; [exact H1|]. intros path0 Hr. apply H2. exact Hr.
      - unfold probe.
        pose proof (get_next_proxy_frame m') as Hf. simpl in Hf.
        destruct (_get_next_proxy m') as [px m1]. simpl in Hf.
        destruct Hf as (_ & Hfiles & _).
        match goal with |- context [on_head net ?k ?r] =>
          pose proof (Hstale k r) as Hh; destruct (on_head net k r) as [f|h] end.
        + simpl. split; [congruence|discriminate].
        + match goal with |- context [fetch net url ?p ?m0] =>
            destruct (fetch_resumes url p m0) as [H1 H2];
            [|destruct (fetch net url p m0) as [r m2]]
          end.
          * simpl. rewrite Hfiles. unfold ok in Hok. rewrite Hok.
            intros c Hc. exact (Hh h c eq_refl Hc).
          * simpl in *. split; [exact H1|]. intros path0 Hr. apply H2. exact Hr. }
    cbv zeta in Hbody.
    destruct (attempt_body unquote net url keyword_dir known m') as [[res known'] m2].
    simpl in Hbody. destruct Hbody as [Hok2 Hres].
    destruct res as [[|]|path0]; simpl.
    - pose proof (on_request_exception_frame net url attempt max_retries known' m2) as Hf.
      destruct (on_request_exception net url attempt max_retries known' m2) as [m3|d].
      + destruct Hf as (_ & _ & Hfiles & _). apply IH.
        unfold ok in *. destruct known'; rewrite Hfiles; exact Hok2.
      + destruct Hf as (_ & Hr & _). rewrite Hr. discriminate.
    - discriminate.
    - intros [= <-]. apply Hres. reflexivity. }
  apply Hloop. reflexivity.
Qed.

(** One [GET] with a temporary file of [prior] bytes: the request asks for
    the bytes from [length prior] on, and the file it leaves, temporary or
    promoted, starts with [prior]. *)
Lemma fetch_appends url p m (prior : bytes) :
  files m !! temp_path p = Some prior ->
  let done := fetch net url p m in
  last (requests_sent done.2)
  = Some (mkRequest GET url (Some (Z.of_nat (length prior))) (_get_next_proxy m).1) /\
  exists got,
    match done.1 with
    | inl _ => files done.2 !! temp_path p = Some (prior ++ got)
    | inr path => path = local_path p /\ files done.2 !! path = Some (prior ++ got)
    end.
Proof.
  intros Hprior. cbv zeta. split.
  - rewrite fetch_sends, Hprior, last_snoc. reflexivity.
  - unfold fetch.
    pose proof (get_next_proxy_frame m) as Hf. simpl in Hf.
    destruct (_get_next_proxy m) as [px m1]. simpl in Hf.
    destruct Hf as (_ & Hfiles & _).
    destruct (on_get net _ _) as [f|chunks [f|]]; simpl; rewrite !Hfiles, ?Hprior.
    + exists []. rewrite app_nil_r. reflexivity.
    + exists (concat chunks). simpl. apply lookup_insert_eq.
    + exists (concat chunks). simpl. split; [reflexivity|apply lookup_insert_eq].
Qed.

(** The resume against a server that honours ranges.  An attempt that finds a
    temporary file of [S] bytes sends [Range: bytes=S-] and appends what it
    receives to those [S] bytes, which it keeps.  When the server sends what
    the range asks for, a call that returns a path has put there the whole
    content, once: its length is the content length that the server
    announces. *)
Theorem resumed_download_is_whole url keyword_dir max_retries m :
  (forall k r h c,
     on_head net k r = HeadOk h ->
     files m !! (os_path_join keyword_dir (_extract_filename_from_response unquote h url)
                 +:+ ".tmp")%string = Some c ->
     c `prefix_of` body) ->
  let d := download_with_retry unquote net url keyword_dir max_retries m in
  (forall p m0 (prior : bytes),
     files m0 !! temp_path p = Some prior ->
     let done := fetch net url p m0 in
     last (requests_sent done.2)
     = Some (mkRequest GET url (Some (Z.of_nat (length prior))) (_get_next_proxy m0).1) /\
     exists got,
       match done.1 with
       | inl _ => files done.2 !! temp_path p = Some (prior ++ got)
       | inr path => path = local_path p /\ files done.2 !! path = Some (prior ++ got)
       end) /\
  (forall path, result d = Returns (Some path) ->
     files (after d) !! path = Some body /\
     forall k r h promoted,
       on_head net k r = HeadOk h ->
       content_length h = Some (Z.of_nat (length body)) ->
       files (after d) !! path = Some promoted ->
       content_length h = Some (Z.of_nat (length promoted))).
Proof.
  intros Hstale d. split.
  - intros p m0 prior Hprior. apply fetch_appends. exact Hprior.
  - intros path Hpath.
    pose proof (resume_from_a_server_with_ranges url keyword_dir max_retries m
                  Hstale path Hpath) as Hfile.
    fold d in Hfile. split; [exact Hfile|].
    intros k r h promoted _ Hlen Hp. rewrite Hfile in Hp. injection Hp as <-.
    exact Hlen.
Qed.

End Resume.

(** *** The theorems at work on concrete runs *)

Lemma breaking_server_always_fails : always_fails breaking_server.
Proof.
  split; intros k r; simpl; [discriminate|].
  right. eexists. reflexivity.
Qed.

(** A task made of two spaces and a line feed. *)
Lemma blank_url_is_skipped_witness :
  Forall (fun c => isspace c = true)
         (list_ascii_of_string (String " " (String " " (String newline_char EmptyString)))) /\
  _process_single_url (fun s => s) breaking_server
    (String " " (String " " (String newline_char EmptyString))) "download/pets" fresh
  = (Returns tt, fresh).
Proof.
  assert (H : Forall (fun c => isspace c = true)
                (list_ascii_of_string
                   (String " " (String " " (String newline_char EmptyString)))))
    by (repeat constructor).
  split; [exact H|].
  exact (proj1 (blank_url_is_skipped (fun s => s) breaking_server _ "download/pets"
                  fresh H)).
Defined.

(** The URL already downloaded for [pets] is asked for again, for [cats]. *)
Lemma cached_url_is_copied_witness :
  strip " https://example.com/cat " <> EmptyString /\
  url_mapping with_cat !! strip " https://example.com/cat " = Some "download/pets/cat.jpg" /\
  files with_cat !! "download/pets/cat.jpg" = Some (list_byte_of_string "JPEG") /\
  requests_sent
    (_process_single_url (fun s => s) breaking_server " https://example.com/cat "
       "download/cats" with_cat).2
  = requests_sent with_cat.
Proof.
  assert (H1 : strip " https://example.com/cat " <> EmptyString) by discriminate.
  assert (H2 : url_mapping with_cat !! strip " https://example.com/cat "
               = Some "download/pets/cat.jpg") by reflexivity.
  assert (H3 : files with_cat !! "download/pets/cat.jpg"
               = Some (list_byte_of_string "JPEG")) by reflexivity.
  split; [exact H1|]. split; [exact H2|]. split; [exact H3|].
  exact (proj1 (proj2 (proj1 (cached_url_is_copied (fun s => s) breaking_server
                                " https://example.com/cat " "download/cats" with_cat
                                "download/pets/cat.jpg" H1 H2) _ H3))).
Defined.

(** Three attempts against the server that breaks every transfer, in a folder
    that holds the temporary file of an earlier run and another file. *)
Lemma exhausted_retries_return_none_witness :
  always_fails breaking_server /\
  (forall k r, on_head breaking_server k r = HeadOk a_png) /\
  0 < 3 /\
  result (download_with_retry (fun s => s) breaking_server
            "https://example.com/a" "download/pets" 3 with_partial)
  = Returns None /\
  files (after (download_with_retry (fun s => s) breaking_server
                  "https://example.com/a" "download/pets" 3 with_partial))
  = delete "download/pets/a.png.tmp" (files with_partial) /\
  files (after (download_with_retry (fun s => s) breaking_server
                  "https://example.com/a" "download/pets" 3 with_partial))
    !! "download/pets/b.png"
  = Some (list_byte_of_string "B") /\
  files with_partial !! "download/pets/a.png.tmp" = Some (list_byte_of_string "xy") /\
  files (after (download_with_retry (fun s => s) breaking_server
                  "https://example.com/a" "download/pets" 3 with_partial))
    !! "download/pets/a.png.tmp"
  = None.
Proof.
  assert (Hhead : forall k r, on_head breaking_server k r = HeadOk a_png)
    by reflexivity.
  assert (Hmax : 0 < 3) by lia.
  assert (Hp : temp_path (paths_of (fun s => s) a_png "https://example.com/a"
                            "download/pets")
               = "download/pets/a.png.tmp") by (vm_compute; reflexivity).
  destruct (exhausted_retries_return_none (fun s => s) breaking_server
              "https://example.com/a" "download/pets" 3 with_partial
              breaking_server_always_fails) as (H1 & _ & _ & Hc & _).
  destruct (Hc a_png Hhead Hmax) as (_ & Hfiles & Hgone & _).
  rewrite Hp in Hfiles, Hgone.
  split; [exact breaking_server_always_fails|]. split; [exact Hhead|].
  split; [exact Hmax|]. split; [exact H1|]. split; [exact Hfiles|].
  split; [rewrite Hfiles; vm_compute; reflexivity|].
  split; [vm_compute; reflexivity|exact Hgone].
Defined.

(** A counterexample to C3 as it is worded.  The only attempt of a call with
    [max_retries = 1] fails after 3 bytes with an exception that is not of
    the [requests] hierarchy: the exception escapes from the call, which
    returns nothing, and the temporary file is left with the partial content
    in it.  With the default of 10 attempts the call ends in the same way
    after its first attempt. *)
Lemma a_failure_of_another_kind_escapes :
  result (download_with_retry (fun s => s) crashing_server
            "https://example.com/a" "download/pets" 1 fresh) = Raised /\
  result (download_with_retry (fun s => s) crashing_server
            "https://example.com/a" "download/pets" 1 fresh) <> Returns None /\
  files (after (download_with_retry (fun s => s) crashing_server
                  "https://example.com/a" "download/pets" 1 fresh))
    !! "download/pets/a.png.tmp"
  = Some (list_byte_of_string "abc") /\
  result (download_with_retry (fun s => s) crashing_server
            "https://example.com/a" "download/pets" 10 fresh) = Raised /\
  requests_sent (after (download_with_retry (fun s => s) crashing_server
                          "https://example.com/a" "download/pets" 10 fresh))
  = [mkRequest HEAD "https://example.com/a" None None;
     mkRequest GET "https://example.com/a" None None].
Proof.
  assert (H : result (download_with_retry (fun s => s) crashing_server
                        "https://example.com/a" "download/pets" 1 fresh) = Raised)
    by (vm_compute; reflexivity).
  split; [exact H|]. split; [rewrite H; discriminate|].
  split; [vm_compute; reflexivity|]. split; vm_compute; reflexivity.
Qed.

(** The default of ten attempts against the same server: nine waits. *)
Lemma backoff_wait_sequence_witness :
  always_fails breaking_server /\
  (forall i, (0 <= uniform_0_1 breaking_server i)%Q /\
             (uniform_0_1 breaking_server i < 1)%Q) /\
  base_wait <$> [0; 1; 2; 3; 4; 5] = [1; 2; 4; 8; 16; 32].
Proof.
  assert (Hj : forall i, (0 <= uniform_0_1 breaking_server i)%Q /\
                         (uniform_0_1 breaking_server i < 1)%Q)
    by (intros i; simpl; split; lra).
  split; [exact breaking_server_always_fails|]. split; [exact Hj|].
  exact (proj1 (proj2 (backoff_wait_sequence (fun s => s) breaking_server
                         "https://example.com/a" "download/pets" 10 fresh
                         breaking_server_always_fails Hj))).
Defined.

(** Two files of links, three tasks, a pool of eight workers. *)
Lemma process_all_persists_once_witness :
  0 < max_workers fresh /\
  readable [("pets", Lines ["https://example.com/a"; "https://example.com/b"]);
            ("cars", Lines ["https://example.com/c"])]
  = Some [("pets", ["https://example.com/a"; "https://example.com/b"]);
          ("cars", ["https://example.com/c"])] /\
  saved_mappings
    (process_all (fun s => s) breaking_server (fun _ => 1%nat)
       (Some [("pets", Lines ["https://example.com/a"; "https://example.com/b"]);
              ("cars", Lines ["https://example.com/c"])])
       fresh).2
  = [∅].
Proof.
  assert (H : 0 < max_workers fresh) by reflexivity.
  split; [exact H|]. split; [reflexivity|].
  destruct (process_all_persists_once (fun s => s) breaking_server (fun _ => 1%nat)
              [("pets", Lines ["https://example.com/a"; "https://example.com/b"]);
               ("cars", Lines ["https://example.com/c"])]
              [("pets", ["https://example.com/a"; "https://example.com/b"]);
               ("cars", ["https://example.com/c"])] fresh H eq_refl)
    as (_ & _ & Hsaved & _).
  rewrite Hsaved. vm_compute. reflexivity.
Defined.

Lemma range_server_serves : serves (list_byte_of_string "abcdef") range_server.
Proof.
  intros k r. simpl. destruct (k =? 1)%nat; simpl; rewrite app_nil_r.
  - apply prefix_take.
  - reflexivity.
Qed.

(** The same broken transfer against the server that supports ranges. *)
Lemma resumed_download_is_whole_witness :
  serves (list_byte_of_string "abcdef") range_server /\
  result (download_with_retry (fun s => s) range_server
            "https://example.com/a" "download/pets" 10 fresh)
  = Returns (Some "download/pets/a.png") /\
  files (after (download_with_retry (fun s => s) range_server
                  "https://example.com/a" "download/pets" 10 fresh))
    !! "download/pets/a.png"
  = Some (list_byte_of_string "abcdef").
Proof.
  assert (Hr : result (download_with_retry (fun s => s) range_server
                         "https://example.com/a" "download/pets" 10 fresh)
               = Returns (Some "download/pets/a.png"))
    by (vm_compute; reflexivity).
  split; [exact range_server_serves|]. split; [exact Hr|].
  refine (proj1 (proj2 (resumed_download_is_whole (fun s => s)
                          (list_byte_of_string "abcdef") range_server
                          range_server_serves "https://example.com/a" "download/pets"
                          10 fresh _) _ Hr)).
  intros k r h c _ Hc. change (files fresh) with (∅ : gmap string bytes) in Hc.
  rewrite lookup_empty in Hc. discriminate.
Defined.

(** A counterexample to C9 as it is worded: a run that does not find the URL folder runs no task
    and does not write the mapping document. *)
Lemma process_all_without_folder_saves_nothing :
  let run := process_all (fun s => s) breaking_server (fun _ => 0%nat) None fresh in
  run.1 = Returns [] /\
  saved_mappings run.2 = [] /\
  mapping_document run.2 = None /\
  console run.2 = [MsgFolderMissing].
Proof. repeat split. Qed.

(** C6.  The resume fails against a server that does not support ranges.
    The first transfer breaks after 3 of the 6 bytes announced; the second
    attempt asks for [Range: bytes=3-]; the server answers with the whole
    file, and the code, which looks neither at the status of the answer nor at
    its length, appends the 6 bytes to the 3 that it kept: the file promoted
    to its final name is 9 bytes long and holds the first 3 bytes twice. *)
Lemma resume_appends_to_a_server_without_ranges :
  let d := download_with_retry (fun s => s) range_ignoring_server
             "https://example.com/a" "download/pets" 10 fresh in
  content_length a_png = Some 6 /\
  requests_sent (after d)
  = [mkRequest HEAD "https://example.com/a" None None;
     mkRequest GET "https://example.com/a" None None;
     mkRequest GET "https://example.com/a" (Some 3) None] /\
  result d = Returns (Some "download/pets/a.png") /\
  files (after d) !! "download/pets/a.png" = Some (list_byte_of_string "abcabcdef") /\
  files (after d) !! "download/pets/a.png.tmp" = None.
Proof. vm_compute. repeat split; reflexivity. Qed.

End DownloadFacts.

(** * Further properties of the rate limiter *)

Module RateLimiterMore.
Import RateLimiter RateLimiterFacts.
Open Scope Q_scope.

Lemma acquire_init_none mx w now wake :
  (mx <= 0)%Z -> acquire (init mx w) now wake = None.
Proof.
  intros Hmx. unfold acquire, init.
  cbn [request_times prune length max_requests]. change (Z.of_nat 0) with 0%Z.
  destruct (Z.leb_spec mx 0); [reflexivity|lia].
Qed.

(** Without a budget no call ever returns, so the session stays where it
    started. *)
Lemma no_budget_no_step mx w t0 s :
  (mx <= 0)%Z -> reachable (start mx w t0) s -> s = start mx w t0.
Proof.
  intros Hmx Hr. induction Hr as [|s s' _ IH Hstep]; [reflexivity|].
  subst s. inversion Hstep as [rl clk adm now wake slept rl' _ _ Hacq]; subst.
  rewrite (acquire_init_none mx w now wake Hmx) in Hacq. discriminate.
Qed.

(** [acquire] raises [IndexError] exactly when [max_requests] is not
    positive: then already the first call raises it, and otherwise no call of
    a session ever does. *)
Theorem acquire_raises_without_budget (mx : Z) (w t0 : Q) (s : session) (now wake : Q) :
  reachable (start mx w t0) s ->
  clock s <= now ->
  acquire (limiter s) now wake = None <-> (mx <= 0)%Z.
Proof.
  intros Hr Hnow. split.
  - intros Hnone. destruct (Z.leb_spec mx 0) as [Hle|Hgt]; [exact Hle|exfalso].
    pose proof (inv_reachable mx w t0 s ltac:(lia) Hr) as Hinv.
    pose proof (acquire_cases mx w s now wake Hinv Hnow) as Hc. simpl in Hc.
    destruct Hc as (_ & Hlen & Hfree & Hfull).
    destruct (Z.eq_dec (Z.of_nat (length (prune (now - w) (request_times (limiter s))))) mx)
      as [Heq|Hne].
    + destruct (prune (now - w) (request_times (limiter s))) as [|oldest rest] eqn:Ek.
      * simpl in Heq. lia.
      * destruct (Hfull oldest rest eq_refl Heq) as [_ Hsome]. congruence.
    + rewrite Hfree in Hnone by lia. discriminate.
  - intros Hmx. rewrite (no_budget_no_step mx w t0 s Hmx Hr).
    apply acquire_init_none. exact Hmx.
Qed.

Lemma acquire_raises_without_budget_witness :
  reachable (start 0 60 0) (start 0 60 0) /\
  clock (start 0 60 0) <= 5 /\
  acquire (limiter (start 0 60 0)) 5 5 = None.
Proof.
  assert (Hr : reachable (start 0 60 0) (start 0 60 0)) by apply reach_refl.
  assert (Hc : clock (start 0 60 0) <= 5) by (simpl; lra).
  split; [exact Hr|]. split; [exact Hc|].
  apply (proj2 (acquire_raises_without_budget 0 60 0 _ 5 5 Hr Hc)). lia.
Defined.

(** The shape of a call that returns. *)
Lemma acquire_returns rl now wake slept rl' :
  acquire rl now wake = Some (slept, rl') ->
  let kept := prune (now - time_window rl) (request_times rl) in
  rl' = mk (max_requests rl) (time_window rl) (kept ++ [wake]) /\
  (slept = 0 \/
   exists oldest rest,
     kept = oldest :: rest /\
     slept = time_window rl - (now - oldest) + 0.1 /\ 0 < slept).
Proof.
  intros Hacq. unfold acquire in Hacq. cbv zeta in *.
  remember (prune (now - time_window rl) (request_times rl)) as kept eqn:Hkept.
  clear Hkept.
  destruct (max_requests rl <=? Z.of_nat (length kept))%Z.
  - destruct kept as [|oldest rest] eqn:Ek; [discriminate|].
    destruct (Qltb 0 (time_window rl - (now - oldest) + 0.1)) eqn:E;
      injection Hacq as <- <-; (split; [reflexivity|]).
    + right. exists oldest, rest. apply Qltb_lt in E. auto.
    + left. reflexivity.
  - injection Hacq as <- <-. split; [reflexivity|]. left. reflexivity.
Qed.

(** The deque never holds more than [max_requests + 1] timestamps, and they
    are the latest admissions, in the order of their admission. *)
Theorem deque_stays_bounded (mx : Z) (w t0 : Q) (s : session) :
  (0 <= mx)%Z ->
  reachable (start mx w t0) s ->
  (Z.of_nat (length (request_times (limiter s))) <= mx + 1)%Z /\
  ascending (request_times (limiter s)) /\
  exists older, admitted s = older ++ request_times (limiter s).
Proof.
  intros Hmx Hr.
  pose proof (inv_reachable mx w t0 s Hmx Hr) as Hinv.
  split; [|split; [apply (inv_order _ _ _ Hinv)|]].
  - destruct Hr as [|s0 s1 Hr0 Hstep]; [simpl; lia|].
    pose proof (inv_reachable mx w t0 s0 Hmx Hr0) as Hinv0.
    destruct Hstep as [rl clk adm now wake slept rl' Hnow Hwake Hacq].
    pose proof (acquire_cases mx w _ now wake Hinv0 Hnow) as Hc. simpl in Hc.
    destruct Hc as (_ & Hlen & _ & _).
    pose proof (inv_window _ _ _ Hinv0) as Hw0. simpl in Hw0.
    destruct (acquire_returns _ _ _ _ _ Hacq) as [-> _]. simpl.
    rewrite Hw0, length_app. simpl. lia.
  - destruct (inv_deque _ _ _ Hinv) as [old [Hadm _]]. exists old. exact Hadm.
Qed.

Lemma deque_stays_bounded_witness :
  (0 <= 2)%Z /\
  reachable (start 2 60 0) (mkS (mk 2 60 [0]) 0 [0]) /\
  (Z.of_nat (length [0]%Q) <= 2 + 1)%Z.
Proof.
  assert (Hr : reachable (start 2 60 0) (mkS (mk 2 60 [0]) 0 [0])).
  { apply (reach_step _ (start 2 60 0)); [apply reach_refl|].
    apply (step_acquire (mk 2 60 []) 0 [] 0 0 0); [lra|lra|reflexivity]. }
  split; [lia|]. split; [exact Hr|].
  exact (proj1 (deque_stays_bounded 2 60 0 _ ltac:(lia) Hr)).
Defined.

(** A caller is never asked to sleep longer than the window plus the margin:
    the sleep is 0 or lies in [(0, time_window + 0.1]]. *)
Theorem suspension_is_bounded (mx : Z) (w t0 : Q) (s : session) (now wake slept : Q)
    (rl' : t) :
  (0 <= mx)%Z -> 0 <= w ->
  reachable (start mx w t0) s ->
  clock s <= now ->
  acquire (limiter s) now wake = Some (slept, rl') ->
  0 <= slept /\ slept <= w + 0.1 /\
  ((Z.of_nat (length (prune (now - w) (request_times (limiter s)))) < mx)%Z ->
   slept = 0).
Proof.
  intros Hmx Hw Hr Hnow Hacq.
  pose proof (inv_reachable mx w t0 s Hmx Hr) as Hinv.
  pose proof (acquire_cases mx w s now wake Hinv Hnow) as Hc. simpl in Hc.
  destruct Hc as (Hin & Hlen & Hfree & _).
  pose proof (inv_window _ _ _ Hinv) as Hw0.
  destruct (acquire_returns _ _ _ _ _ Hacq) as [_ Hs]. rewrite Hw0 in Hs.
  split; [|split].
  - destruct Hs as [->|(oldest & rest & _ & _ & Hpos)]; lra.
  - destruct Hs as [->|(oldest & rest & Hk & -> & Hpos)]; [lra|].
    rewrite Hk in Hin. inversion Hin as [|? ? [H1 H2] _]; subst. lra.
  - intros Hlt. rewrite (Hfree Hlt) in Hacq. injection Hacq as <- _. reflexivity.
Qed.

Lemma suspension_is_bounded_witness :
  (0 <= 1)%Z /\ 0 <= 60 /\
  reachable (start 1 60 0) (mkS (mk 1 60 [0]) 0 [0]) /\
  clock (mkS (mk 1 60 [0]) 0 [0]) <= 1 /\
  acquire (mk 1 60 [0]) 1 61 = Some (60 - (1 - 0) + 0.1, mk 1 60 [0; 61]) /\
  60 - (1 - 0) + 0.1 <= 60 + 0.1.
Proof.
  assert (Hr : reachable (start 1 60 0) (mkS (mk 1 60 [0]) 0 [0])).
  { apply (reach_step _ (start 1 60 0)); [apply reach_refl|].
    apply (step_acquire (mk 1 60 []) 0 [] 0 0 0); [lra|lra|reflexivity]. }
  assert (Hc : clock (mkS (mk 1 60 [0]) 0 [0]) <= 1) by (simpl; lra).
  assert (Ha : acquire (mk 1 60 [0]) 1 61 = Some (60 - (1 - 0) + 0.1, mk 1 60 [0; 61]))
    by reflexivity.
  split; [lia|]. split; [lra|]. split; [exact Hr|]. split; [exact Hc|].
  split; [exact Ha|].
  exact (proj1 (proj2 (suspension_is_bounded 1 60 0 _ 1 61 _ _ ltac:(lia) ltac:(lra)
                         Hr Hc Ha))).
Defined.

End RateLimiterMore.

(** * Further properties of the download manager *)

Module DownloadMore.
Import PyStr Regex Url Download Manager PyStrFacts RegexFacts DownloadFacts.
Open Scope list_scope.
Open Scope Z_scope.

Lemma length_append_string (a b : string) :
  String.length (a +:+ b) = (String.length a + String.length b)%nat.
Proof. induction a as [|c a IH]; simpl; [reflexivity|]. rewrite IH. reflexivity. Qed.

(** A temporary path is never the final path. *)
Lemma tmp_differs (s : string) : s +:+ ".tmp" <> s.
Proof.
  intros H. apply (f_equal String.length) in H.
  rewrite length_append_string in H. simpl in H. lia.
Qed.

Lemma lstrip_idempotent p s : lstrip p (lstrip p s) = lstrip p s.
Proof.
  induction s as [|c s IH]; simpl; [reflexivity|].
  destruct (p c) eqn:E; [exact IH|]. simpl. rewrite E. reflexivity.
Qed.

Lemma rstrip_idempotent p s : rstrip p (rstrip p s) = rstrip p s.
Proof.
  induction s as [|c s IH]; simpl; [reflexivity|].
  destruct (rstrip p s) as [|c' r] eqn:E.
  - destruct (p c) eqn:Ec; simpl; [reflexivity|]. rewrite Ec. reflexivity.
  - change (rstrip p (String c (String c' r)))
      with (match rstrip p (String c' r) with
            | EmptyString => if p c then EmptyString else String c EmptyString
            | String a r' => String c (String a r')
            end).
    rewrite IH. reflexivity.
Qed.

(** Stripping on the left does not uncover anything to strip on the right. *)
Lemma rstrip_lstrip p s : rstrip p s = s -> rstrip p (lstrip p s) = lstrip p s.
Proof.
  induction s as [|c s IH]; simpl; [reflexivity|].
  intros H. destruct (p c) eqn:Ec.
  - apply IH. destruct (rstrip p s) as [|c' r]; [discriminate|].
    injection H as H. exact H.
  - simpl. rewrite Ec. exact H.
Qed.

(** [url.strip().strip()] is [url.strip()]. *)
Lemma strip_idempotent s : strip (strip s) = strip s.
Proof.
  unfold strip. rewrite rstrip_lstrip by apply rstrip_idempotent.
  apply lstrip_idempotent.
Qed.

Section Runs.

Variable unquote : string -> string.

Lemma probe_effect net url keyword_dir m :
  let r := probe unquote net url keyword_dir m in
  files r.2 = files m /\
  (exists proxy, requests_sent r.2 = requests_sent m ++ [mkRequest HEAD url None proxy]) /\
  forall p, r.1 = inr p -> temp_path p = local_path p +:+ ".tmp".
Proof.
  unfold probe, _get_next_proxy.
  destruct (negb (enable_proxy m) || bool_decide (proxy_list m = [])); simpl;
    destruct (on_head net _ _) as [f|h]; simpl;
    (split; [reflexivity|]); (split; [eexists; reflexivity|]);
    intros p [= <-]; reflexivity.
Qed.

Lemma fetch_effect net url p m :
  temp_path p <> local_path p ->
  let r := fetch net url p m in
  others_kept p m r.2 /\
  (exists range proxy,
     requests_sent r.2 = requests_sent m ++ [mkRequest GET url range proxy]) /\
  match r.1 with
  | inr path =>
      path = local_path p /\ is_Some (files r.2 !! path) /\
      files r.2 !! temp_path p = None
  | inl _ => files r.2 !! local_path p = files m !! local_path p
  end.
Proof.
  intros Hne. unfold fetch, _get_next_proxy, others_kept.
  destruct (negb (enable_proxy m) || bool_decide (proxy_list m = [])); simpl;
    destruct (on_get net _ _) as [f|chunks [f|]]; simpl;
    (split; [intros q Hq1 Hq2;
             rewrite ?lookup_insert_ne, ?lookup_delete_ne, ?lookup_insert_ne by congruence;
             reflexivity|]);
    (split; [eexists _, _; reflexivity|]);
    rewrite ?lookup_insert_ne by congruence; try reflexivity;
    (split; [reflexivity|]);
    (split; [rewrite lookup_insert_eq; eexists; reflexivity|]);
    rewrite lookup_insert_ne by congruence; apply lookup_delete_eq.
Qed.

Lemma named_differs known p : named known -> known = Some p -> temp_path p <> local_path p.
Proof. intros Hn Hk. rewrite (Hn p Hk). apply tmp_differs. Qed.

(** What one attempt does to the files. *)
Lemma attempt_body_files net url keyword_dir known m :
  named known ->
  let r := attempt_body unquote net url keyword_dir known m in
  named r.1.2 /\
  (forall p, known = Some p -> r.1.2 = Some p) /\
  match r.1.2 with
  | None => known = None /\ files r.2 = files m /\ exists f, r.1.1 = inl f
  | Some p =>
      others_kept p m r.2 /\
      match r.1.1 with
      | inr path =>
          path = local_path p /\ is_Some (files r.2 !! path) /\
          files r.2 !! temp_path p = None
      | inl _ => files r.2 !! local_path p = files m !! local_path p
      end
  end.
Proof.
  intros Hn. unfold attempt_body. destruct known as [p|].
  - pose proof (fetch_effect net url p m (named_differs _ p Hn eq_refl)) as Hf.
    cbv zeta in Hf. destruct (fetch net url p m) as [r m1]. simpl in *.
    destruct Hf as (Hk & _ & Hr).
    split; [exact Hn|]. split; [intros p0 [= <-]; reflexivity|].
    split; [exact Hk|exact Hr].
  - pose proof (probe_effect net url keyword_dir m) as Hp. cbv zeta in Hp.
    destruct (probe unquote net url keyword_dir m) as [[f|p] m1]; simpl in *.
    + destruct Hp as (Hfiles & _ & _).
      split; [intros p [=]|]. split; [intros p [=]|].
      split; [reflexivity|]. split; [exact Hfiles|]. eexists. reflexivity.
    + destruct Hp as (Hfiles & _ & Hname).
      assert (Hn' : named (Some p)) by (intros p0 [= <-]; apply Hname; reflexivity).
      pose proof (fetch_effect net url p m1 (named_differs _ p Hn' eq_refl)) as Hf.
      cbv zeta in Hf. destruct (fetch net url p m1) as [r m2]. simpl in *.
      destruct Hf as (Hk & _ & Hr).
      split; [exact Hn'|]. split; [intros p0 [=]|].
      split.
      * intros q Hq1 Hq2. rewrite (Hk q Hq1 Hq2), Hfiles. reflexivity.
      * rewrite Hfiles in Hr. exact Hr.
Qed.

(** What a whole call of [download_with_retry] does to the files, from any
    attempt on. *)
Lemma attempts_files remaining attempt net url keyword_dir max_retries known m :
  named known ->
  let d := attempts unquote remaining attempt net url keyword_dir max_retries known m in
  named (paths_known d) /\
  (forall p, known = Some p -> paths_known d = Some p) /\
  match paths_known d with
  | None => files (after d) = files m /\ forall path, result d <> Returns (Some path)
  | Some p =>
      others_kept p m (after d) /\
      match result d with
      | Returns (Some path) =>
          path = local_path p /\ is_Some (files (after d) !! path) /\
          files (after d) !! temp_path p = None
      | _ => files (after d) !! local_path p = files m !! local_path p
      end
  end.
Proof.
  revert attempt known m. induction remaining as [|n IH]; intros attempt known m Hn.
  - simpl. split; [exact Hn|]. split; [auto|].
    destruct known as [p|]; [|split; [reflexivity|discriminate]].
    split; [intros q _ _; reflexivity|reflexivity].
  - cbv zeta. rewrite attempts_S.
    pose proof (attempt_body_files net url keyword_dir known m Hn) as Hb. cbv zeta in Hb.
    unfold others_kept in *.
    destruct (attempt_body unquote net url keyword_dir known m) as [[res known'] m1].
    simpl in Hb. destruct Hb as (Hn' & Hsame & Hb).
    destruct res as [[|]|path]; simpl.
    + (* a RequestException *)
      pose proof (on_request_exception_frame net url attempt max_retries known' m1) as Hx.
      destruct (on_request_exception net url attempt max_retries known' m1) as [m2|d].
      * destruct Hx as (_ & _ & Hfiles & _).
        specialize (IH (attempt + 1) known' m2 Hn'). cbv zeta in IH.
        destruct IH as (IHn & IHsame & IH).
        split; [exact IHn|]. split; [intros p Hp; apply IHsame, Hsame, Hp|].
        destruct known' as [p|].
        -- rewrite (IHsame p eq_refl) in *. destruct Hb as (Hk & Hloc).
           destruct IH as (IHk & IHr).
           split; [intros q Hq1 Hq2; rewrite (IHk q Hq1 Hq2), Hfiles; auto|].
           destruct (result _) as [[path|]|]; [exact IHr|congruence..].
        -- destruct Hb as (_ & Hb & _). rewrite Hfiles, Hb in IH. exact IH.
      * destruct Hx as (_ & Hres & Hknown & _ & _ & _ & _ & _ & Hdel & Hnone).
        rewrite Hknown, Hres.
        split; [exact Hn'|]. split; [exact Hsame|].
        destruct known' as [p|].
        -- destruct Hb as (Hk & Hloc). rewrite (Hdel p eq_refl).
           pose proof (named_differs _ p Hn' eq_refl) as Hd.
           split; [intros q Hq1 Hq2; rewrite lookup_delete_ne by congruence; auto|].
           rewrite lookup_delete_ne by congruence. exact Hloc.
        -- destruct Hb as (_ & Hb & _). rewrite (Hnone eq_refl).
           split; [exact Hb|discriminate].
    + (* another exception *)
      split; [exact Hn'|]. split; [exact Hsame|].
      destruct known' as [p|]; [exact Hb|].
      destruct Hb as (_ & Hb & _). split; [exact Hb|discriminate].
    + split; [exact Hn'|]. split; [exact Hsame|].
      destruct known' as [p|]; [exact Hb|].
      destruct Hb as (_ & _ & [f Hf]). discriminate.
Qed.

(** The calls of one attempt: the probe while the paths are not known, and
    then the transfer, unless the probe raised. *)
Lemma attempt_body_requests net url keyword_dir known m :
  let r := attempt_body unquote net url keyword_dir known m in
  exists heads gets,
    requests_sent r.2 = requests_sent m ++ heads ++ gets /\
    Forall (is_head url) heads /\ Forall (is_get url) gets /\
    match known with
    | Some _ => heads = [] /\ length gets = 1%nat
    | None =>
        exists probe, heads = [probe] /\
          match r.1.2 with
          | Some _ =>
              length gets = 1%nat /\
              exists h, on_head net (length (requests_sent m)) probe = HeadOk h
          | None =>
              gets = [] /\
              exists f, on_head net (length (requests_sent m)) probe = HeadRaises f /\
                        r.1.1 = inl f
          end
    end /\
    (is_Some known -> is_Some r.1.2).
Proof.
  unfold attempt_body. destruct known as [p|].
  - pose proof (fetch_sends net url p m) as Hs.
    destruct (fetch net url p m) as [r m1]. simpl in *.
    eexists [], [_]. split; [exact Hs|].
    split; [constructor|]. split; [repeat constructor|].
    split; [split; reflexivity|]. intros _. eexists. reflexivity.
  - unfold probe. pose proof (get_next_proxy_frame m) as Hpx. simpl in Hpx.
    destruct (_get_next_proxy m) as [px m1]. simpl in Hpx.
    destruct Hpx as (_ & _ & Hreq & _). rewrite Hreq.
    destruct (on_head net (length (requests_sent m)) (mkRequest HEAD url None px))
      as [f|h] eqn:Eh.
    + eexists [_], []. simpl. rewrite Hreq.
      split; [reflexivity|]. split; [repeat constructor|]. split; [constructor|].
      split; [|intros [? [=]]].
      eexists. split; [reflexivity|]. split; [reflexivity|].
      exists f. split; [exact Eh|reflexivity].
    + match goal with |- context [fetch net url ?p ?m0] =>
        pose proof (fetch_sends net url p m0) as Hs; destruct (fetch net url p m0)
      end.
      simpl in *. eexists [_], [_].
      split; [rewrite Hs, Hreq, <- app_assoc; reflexivity|].
      split; [repeat constructor|]. split; [repeat constructor|].
      split; [|intros [? [=]]].
      eexists. split; [reflexivity|]. split; [reflexivity|].
      exists h. exact Eh.
Qed.

(** The calls of a whole download, from any attempt on: probes first, then
    transfers, one call per attempt and one more for the attempt that got the
    probe answered; every probe but the last raised an exception of the
    [requests] hierarchy, and there is no transfer unless the last probe was
    answered. *)
Lemma attempts_requests remaining attempt net url keyword_dir max_retries known m :
  let d := attempts unquote remaining attempt net url keyword_dir max_retries known m in
  exists heads gets,
    requests_sent (after d) = requests_sent m ++ heads ++ gets /\
    Forall (is_head url) heads /\ Forall (is_get url) gets /\
    (length gets <= remaining)%nat /\
    match known with
    | Some _ => heads = []
    | None =>
        (length heads <= remaining)%nat /\
        (length heads + length gets <= remaining + 1)%nat /\
        (forall j r, heads !! j = Some r -> (S j < length heads)%nat ->
           on_head net (length (requests_sent m) + j) r = HeadRaises RequestException) /\
        (gets <> [] ->
         exists r h, heads !! (length heads - 1)%nat = Some r /\
           on_head net (length (requests_sent m) + (length heads - 1)) r = HeadOk h)
    end.
Proof.
  revert attempt known m. induction remaining as [|n IH]; intros attempt known m.
  - simpl. exists [], []. rewrite app_nil_r.
    split; [reflexivity|]. split; [constructor|]. split; [constructor|].
    split; [reflexivity|]. destruct known; [reflexivity|]. simpl.
    split; [lia|]. split; [lia|]. split; [intros j r [=]|congruence].
  - cbv zeta. rewrite attempts_S.
    destruct (attempt_body_requests net url keyword_dir known m)
      as (heads & gets & Hs & Hh & Hg & Hlen & Hkeep).
    destruct (attempt_body unquote net url keyword_dir known m) as [[res known'] m1].
    simpl in Hs, Hlen, Hkeep.
    assert (Hone : forall m2, requests_sent m2 = requests_sent m1 ->
      exists heads0 gets0,
        requests_sent m2 = requests_sent m ++ heads0 ++ gets0 /\
        Forall (is_head url) heads0 /\ Forall (is_get url) gets0 /\
        (length gets0 <= S n)%nat /\
        match known with
        | Some _ => heads0 = []
        | None =>
            (length heads0 <= S n)%nat /\
            (length heads0 + length gets0 <= S n + 1)%nat /\
            (forall j r, heads0 !! j = Some r -> (S j < length heads0)%nat ->
               on_head net (length (requests_sent m) + j) r
               = HeadRaises RequestException) /\
            (gets0 <> [] ->
             exists r h, heads0 !! (length heads0 - 1)%nat = Some r /\
               on_head net (length (requests_sent m) + (length heads0 - 1)) r
               = HeadOk h)
        end).
    { intros m2 H2. exists heads, gets. rewrite H2.
      split; [exact Hs|]. split; [exact Hh|]. split; [exact Hg|].
      destruct known as [p|].
      - destruct Hlen as [-> Hl]. split; [lia|reflexivity].
      - destruct Hlen as (probe & -> & Hlen). simpl.
        destruct known' as [p|].
        + destruct Hlen as (Hl & h & Hok).
          split; [lia|]. split; [lia|]. split; [lia|].
          split; [intros j r _ Hj; lia|].
          intros _. exists probe, h. rewrite Nat.add_0_r. split; [reflexivity|exact Hok].
        + destruct Hlen as (-> & _). simpl.
          split; [lia|]. split; [lia|]. split; [lia|].
          split; [intros j r _ Hj; lia|congruence]. }
    destruct res as [[|]|path]; simpl; [|apply Hone; reflexivity..].
    pose proof (on_request_exception_frame net url attempt max_retries known' m1) as Hx.
    destruct (on_request_exception net url attempt max_retries known' m1) as [m2|d];
      [|apply Hone; apply Hx].
    destruct Hx as (_ & Hm2 & _).
    destruct (IH (attempt + 1) known' m2) as (heads' & gets' & Hs' & Hh' & Hg' & Hl' & Hk').
    destruct known' as [p'|].
    + subst heads'. exists heads, (gets ++ gets').
      split; [rewrite Hs', Hm2, Hs, <- !app_assoc; reflexivity|].
      split; [exact Hh|]. split; [apply Forall_app; split; assumption|].
      rewrite length_app.
      destruct known as [p|].
      * destruct Hlen as [-> Hl]. split; [lia|reflexivity].
      * destruct Hlen as (probe & -> & Hl & h & Hok). simpl.
        split; [lia|]. split; [lia|]. split; [lia|].
        split; [intros j r _ Hj; lia|].
        intros _. exists probe, h. rewrite Nat.add_0_r. split; [reflexivity|exact Hok].
    + destruct known as [p|]; [destruct (Hkeep ltac:(eexists; reflexivity)) as [? [=]]|].
      destruct Hlen as (probe & -> & -> & f & Hraise & Hres).
      injection Hres as <-.
      rewrite app_nil_r in Hs.
      destruct Hk' as (Hk1 & Hk2 & Hk3 & Hk4).
      assert (Hpos : length (requests_sent m2) = S (length (requests_sent m)))
        by (rewrite Hm2, Hs, length_app; simpl; lia).
      exists (probe :: heads'), gets'.
      split; [rewrite Hs', Hm2, Hs, <- !app_assoc; reflexivity|].
      split; [constructor; [inversion Hh; assumption|exact Hh']|]. split; [exact Hg'|].
      simpl. split; [lia|]. split; [lia|]. split; [lia|]. split.
      * intros j r Hj Hlt. destruct j as [|j].
        -- injection Hj as <-. rewrite Nat.add_0_r. exact Hraise.
        -- simpl in Hj. replace (length (requests_sent m) + S j)%nat
             with (length (requests_sent m2) + j)%nat by lia.
           apply Hk3; [exact Hj|lia].
      * intros Hne. destruct (Hk4 Hne) as (r & h & Hr & Hok).
        assert (Hpos' : (0 < length heads')%nat).
        { destruct heads'; [discriminate|simpl; lia]. }
        exists r, h. split.
        -- replace (length heads' - 0)%nat with (S (length heads' - 1)) by lia.
           exact Hr.
        -- replace (length (requests_sent m) + (length heads' - 0))%nat
             with (length (requests_sent m2) + (length heads' - 1))%nat by lia.
           exact Hok.
Qed.

(** A call of [download_with_retry] calls [session.head] first, until a probe
    is answered, and [session.get] after that, always with the URL of the
    task: at most [max_retries] calls of each and at most [max_retries + 1]
    calls in all.  Every probe but the last raised an exception of the
    [requests] hierarchy, so that no probe is sent once one has been
    answered, and there is no transfer unless the last probe was answered.
    With [max_retries <= 0] the call sends nothing and returns [None]. *)
Theorem download_request_budget net url keyword_dir max_retries m :
  let d := download_with_retry unquote net url keyword_dir max_retries m in
  (exists heads gets,
     requests_sent (after d) = requests_sent m ++ heads ++ gets /\
     Forall (is_head url) heads /\ Forall (is_get url) gets /\
     Z.of_nat (length heads) <= Z.max 0 max_retries /\
     Z.of_nat (length gets) <= Z.max 0 max_retries /\
     Z.of_nat (length (heads ++ gets)) <= Z.max 0 max_retries + 1 /\
     (forall j r, heads !! j = Some r -> (S j < length heads)%nat ->
        on_head net (length (requests_sent m) + j) r = HeadRaises RequestException) /\
     (gets <> [] ->
      exists r h, heads !! (length heads - 1)%nat = Some r /\
        on_head net (length (requests_sent m) + (length heads - 1)) r = HeadOk h)) /\
  (max_retries <= 0 -> d = mkDownload (Returns None) None m).
Proof.
  cbv zeta. unfold download_with_retry. split.
  - destruct (attempts_requests (Z.to_nat max_retries) 0 net url keyword_dir
                max_retries None m)
      as (heads & gets & Hs & Hh & Hg & Hl & Hl1 & Hl2 & Hraise & Hok).
    exists heads, gets. rewrite length_app.
    split; [exact Hs|]. split; [exact Hh|]. split; [exact Hg|].
    split; [lia|]. split; [lia|]. split; [lia|]. split; [exact Hraise|exact Hok].
  - intros Hle. replace (Z.to_nat max_retries) with O by lia. reflexivity.
Qed.

(** A call of [download_with_retry] that returns [None] leaves nothing
    behind, on any network: either no file has changed (no probe was
    answered, or there was no attempt to make), or the only change is that
    the temporary file named after an answer to one of its probes,
    [os.path.join(keyword_dir, filename) + '.tmp'], does not exist, whether
    or not it existed before the call. *)
Theorem download_without_result_leaves_no_trace net url keyword_dir max_retries m :
  let d := download_with_retry unquote net url keyword_dir max_retries m in
  result d = Returns None ->
  files (after d) = files m \/
  exists k r h,
    on_head net k r = HeadOk h /\ req_method r = HEAD /\ req_url r = url /\
    files (after d)
    = delete (os_path_join keyword_dir (_extract_filename_from_response unquote h url)
              +:+ ".tmp")
             (files m).
Proof.
  cbv zeta. unfold download_with_retry. intros Hres.
  destruct (Z.to_nat max_retries) as [|n] eqn:Hn; [left; reflexivity|].
  destruct (attempts_without_result unquote n 0 net url keyword_dir max_retries m None m
              ltac:(lia) eq_refl) as [_ Hf].
  specialize (Hf Hres).
  destruct (paths_known _) as [p|]; [|left; exact Hf].
  destruct Hf as [(k & r & h & Hh & Hm & Hu & ->) Hf].
  right. exists k, r, h. repeat split; assumption.
Qed.

(** How a task that goes to the network ends. *)
Lemma download_and_record_mapping net url keyword_dir m :
  let r := download_and_record unquote net url keyword_dir m in
  url_mapping r.2 = url_mapping m \/
  exists path, path <> EmptyString /\
    url_mapping r.2 = <[url := path]> (url_mapping m) /\
    is_Some (files r.2 !! path) /\
    last (console r.2) = Some (MsgDownloaded url).
Proof.
  cbv zeta. unfold download_and_record, download_with_retry.
  assert (Hn : named None) by (intros p [=]).
  pose proof (attempts_files (Z.to_nat 10) 0 net url keyword_dir 10 None m Hn) as Hf.
  pose proof (attempts_frame unquote (Z.to_nat 10) 0 net url keyword_dir 10 None m) as Hm.
  cbv zeta in Hf, Hm. destruct Hm as (Hm & _). destruct Hf as (_ & _ & Hf).
  remember (attempts unquote (Z.to_nat 10) 0 net url keyword_dir 10 None m) as d eqn:Hd.
  clear Hd.
  destruct (result d) as [[path|]|] eqn:Er; cbn [fst snd]; [|left; exact Hm..].
  destruct (String.eqb_spec path EmptyString) as [|Hne]; [left; exact Hm|].
  right. exists path. cbn [fst snd print set_url_mapping url_mapping files console].
  rewrite Hm.
  split; [exact Hne|]. split; [reflexivity|]. split; [|apply last_snoc].
  destruct (paths_known _) as [p|].
  - destruct Hf as (_ & _ & Hsome & _). exact Hsome.
  - destruct Hf as [_ Hf]. destruct (Hf path eq_refl).
Qed.

Lemma process_single_url_mapping net line keyword_dir m :
  let r := _process_single_url unquote net line keyword_dir m in
  url_mapping r.2 = url_mapping m \/
  strip line <> EmptyString /\
  exists path, path <> EmptyString /\
    url_mapping r.2 = <[strip line := path]> (url_mapping m) /\
    is_Some (files r.2 !! path) /\
    (url_mapping m !! strip line = None \/
     exists old, url_mapping m !! strip line = Some old /\ files m !! old = None).
Proof.
  cbv zeta. unfold _process_single_url.
  destruct (String.eqb_spec (strip line) EmptyString) as [|Hne]; [left; reflexivity|].
  pose proof (download_and_record_mapping net (strip line) keyword_dir m) as Hd.
  cbv zeta in Hd.
  destruct (url_mapping m !! strip line) as [source_file|] eqn:Emap.
  - destruct (files m !! source_file) as [content|] eqn:Esrc.
    + left. destruct (files m !! os_path_join keyword_dir (path_name source_file));
        reflexivity.
    + destruct Hd as [Hd|(path & H1 & H2 & H3 & _)]; [left; exact Hd|].
      right. split; [exact Hne|]. exists path. repeat split; try assumption.
      right. exists source_file. split; [reflexivity|exact Esrc].
  - destruct Hd as [Hd|(path & H1 & H2 & H3 & _)]; [left; exact Hd|].
    right. split; [exact Hne|]. exists path. repeat split; try assumption.
    left. reflexivity.
Qed.

(** A link that a task has downloaded (it was not in the mapping before and
    is after) is not requested again: a later task for the same line, for
    whatever folder and on whatever network, sends no request, leaves the
    mapping as it is and ends with a copy of the file in its folder. *)
Theorem downloaded_link_is_reused net net' line keyword_dir keyword_dir' m path :
  let url := strip line in
  let done := _process_single_url unquote net line keyword_dir m in
  url_mapping m !! url = None ->
  url_mapping done.2 !! url = Some path ->
  let again := _process_single_url unquote net' line keyword_dir' done.2 in
  again.1 = Returns tt /\
  requests_sent again.2 = requests_sent done.2 /\
  url_mapping again.2 = url_mapping done.2 /\
  is_Some (files again.2 !! os_path_join keyword_dir' (path_name path)) /\
  last (console again.2) = Some (MsgCopied url).
Proof.
  intros url done Hnew Hmap again.
  pose proof (process_single_url_mapping net line keyword_dir m) as Hd.
  cbv zeta in Hd. fold done url in Hd.
  destruct Hd as [Hd|(Hne & path' & _ & Hins & Hfile & _)]; [congruence|].
  rewrite Hins, lookup_insert_eq in Hmap. injection Hmap as <-.
  destruct Hfile as [content Hfile].
  assert (Hagain : again
    = (Returns tt,
       print match files done.2 !! os_path_join keyword_dir' (path_name path') with
             | Some _ => done.2
             | None => set_files done.2
                         (<[os_path_join keyword_dir' (path_name path') := content]>
                            (files done.2))
             end (MsgCopied url))).
  { unfold again, _process_single_url. fold url.
    destruct (String.eqb_spec url EmptyString) as [|_]; [contradiction|].
    rewrite Hins, lookup_insert_eq, Hfile. reflexivity. }
  rewrite Hagain. simpl.
  destruct (files done.2 !! os_path_join keyword_dir' (path_name path')) eqn:Et; simpl.
  - repeat split; [rewrite Et; eexists; reflexivity|apply last_snoc].
  - repeat split; [rewrite lookup_insert_eq; eexists; reflexivity|apply last_snoc].
Qed.

(** The tasks that [process_all] collects carry stripped URLs. *)
Lemma download_tasks_stripped folder txt_files u :
  u ∈ (download_tasks folder txt_files).*1 -> strip u = u.
Proof.
  unfold download_tasks. intros Hu.
  apply list_elem_of_fmap in Hu as ([u' kd] & -> & Hu). simpl.
  apply list_elem_of_In, in_flat_map in Hu as ([keyword lines] & _ & Hu).
  apply list_elem_of_In, list_elem_of_fmap in Hu as (line & [= -> _] & _).
  apply strip_idempotent.
Qed.

(** What the pool does to the mapping. *)
Lemma run_pool_mapping pending net pick tasks completed total m :
  let done := run_pool unquote pending net pick tasks completed total m in
  (forall u, is_Some (url_mapping m !! u) -> is_Some (url_mapping done.2 !! u)) /\
  (forall u v, url_mapping done.2 !! u = Some v ->
     url_mapping m !! u = Some v \/
     (u <> EmptyString /\ v <> EmptyString /\ u ∈ strip <$> tasks.*1)).
Proof.
  revert tasks completed m.
  induction pending as [|n IH]; intros tasks completed m; cbn [run_pool].
  - split; [auto|]. intros u v H. left. exact H.
  - destruct (tasks !! (pick tasks mod length tasks)%nat) as [[url keyword_dir]|] eqn:Et.
    2:{ split; [auto|]. intros u v H. left. exact H. }
    pose proof (process_single_url_mapping net url keyword_dir m) as Hp. cbv zeta in Hp.
    destruct (_process_single_url unquote net url keyword_dir m) as [r m1].
    simpl in Hp.
    match goal with |- context [run_pool _ n _ _ ?ts ?c _ ?m2] =>
      specialize (IH ts c m2); cbv zeta in IH;
      assert (Hm2 : url_mapping m2 = url_mapping m1) by (destruct r; reflexivity);
      destruct (run_pool unquote n net pick ts c total m2) as [futures m3]
    end.
    simpl in *. rewrite Hm2 in IH. destruct IH as [IH1 IH2].
    assert (Hin : strip url ∈ strip <$> tasks.*1).
    { apply list_elem_of_fmap. exists url. split; [reflexivity|].
      apply list_elem_of_fmap. exists (url, keyword_dir). split; [reflexivity|].
      eapply list_elem_of_lookup_2. exact Et. }
    assert (Hsub : forall u, u ∈ strip <$> (delete (pick tasks mod length tasks)%nat tasks).*1
                             -> u ∈ strip <$> tasks.*1).
    { intros u Hu. eapply elem_of_sublist; [exact Hu|].
      do 2 apply fmap_sublist. apply sublist_delete. }
    split.
    + intros u Hu. apply IH1.
      destruct Hp as [->|(_ & path & _ & -> & _)]; [exact Hu|].
      destruct (decide (strip url = u)) as [<-|Hne].
      * rewrite lookup_insert_eq. eexists. reflexivity.
      * rewrite lookup_insert_ne by exact Hne. exact Hu.
    + intros u v Hv. destruct (IH2 u v Hv) as [H1|(Hu & Hv' & Hin')].
      2:{ right. split; [exact Hu|]. split; [exact Hv'|]. apply Hsub, Hin'. }
      destruct Hp as [Hp|(Hne & path & Hpath & Hp & _)]; [left; congruence|].
      rewrite Hp in H1. destruct (decide (strip url = u)) as [<-|Hneq].
      * rewrite lookup_insert_eq in H1. injection H1 as <-.
        right. split; [exact Hne|]. split; [exact Hpath|exact Hin].
      * rewrite lookup_insert_ne in H1 by exact Hneq. left. exact H1.
Qed.

(** [process_all] only ever adds to the mapping or replaces entries of the
    URLs it was given: no entry is removed, the entry of every URL that is not
    a line of the files read is as before, and an entry that is new or has a
    new value belongs to a line that is not blank and names a path that is
    not empty.  (When a file cannot be read no task is run, and the mapping
    is as before.) *)
Theorem process_all_mapping_grows net pick txt_files m :
  let done := process_all unquote net pick (Some txt_files) m in
  let urls :=
    (download_tasks (download_folder m) (default [] (readable txt_files))).*1 in
  (forall u, is_Some (url_mapping m !! u) -> is_Some (url_mapping done.2 !! u)) /\
  (forall u, u ∉ urls -> url_mapping done.2 !! u = url_mapping m !! u) /\
  (forall u v, url_mapping done.2 !! u = Some v -> url_mapping m !! u <> Some v ->
     u ∈ urls /\ u <> EmptyString /\ v <> EmptyString).
Proof.
  intros done urls.
  assert (Hstrip : strip <$> urls = urls).
  { rewrite <- (list_fmap_id urls) at 2. apply list_fmap_ext.
    intros i u Hu. simpl.
    apply (download_tasks_stripped (download_folder m) (default [] (readable txt_files))).
    eapply list_elem_of_lookup_2. exact Hu. }
  assert (H : (forall u, is_Some (url_mapping m !! u) -> is_Some (url_mapping done.2 !! u)) /\
              (forall u v, url_mapping done.2 !! u = Some v ->
                 url_mapping m !! u = Some v \/
                 (u <> EmptyString /\ v <> EmptyString /\ u ∈ urls))).
  { unfold done, process_all. subst urls.
    destruct (readable txt_files) as [contents|];
      [|simpl; split; [auto|]; intros u v Hv; left; exact Hv].
    cbn [max_workers download_folder print default] in *. unfold id in *.
    destruct (max_workers m <=? 0).
    - simpl. split; [auto|]. intros u v Hv. left. exact Hv.
    - pose proof (run_pool_mapping
                    (length (download_tasks (download_folder m) contents)) net pick
                    (download_tasks (download_folder m) contents) 0
                    (length (download_tasks (download_folder m) contents))
                    (print m (MsgFound (length txt_files) (max_workers m)))) as Hp.
      cbv zeta in Hp. rewrite Hstrip in Hp.
      destruct (run_pool unquote _ net pick _ 0 _ _) as [futures m1].
      simpl in *. exact Hp. }
  destruct H as [H1 H2]. split; [exact H1|]. split.
  - intros u Hu. destruct (url_mapping done.2 !! u) as [v|] eqn:Ev.
    + destruct (H2 u v Ev) as [H|(_ & _ & H)]; [congruence|contradiction].
    + destruct (url_mapping m !! u) as [v|] eqn:Em; [|reflexivity].
      destruct (H1 u ltac:(eexists; exact Em)) as [v' Hv']. congruence.
  - intros u v Hv Hnew. destruct (H2 u v Hv) as [H|(Hu & Hv' & Hin)]; [contradiction|].
    auto.
Qed.

End Runs.

(** The proxy at a position of the rotation. *)
Lemma get_next_proxy_enabled m :
  enable_proxy m = true -> proxy_list m <> [] ->
  _get_next_proxy m
  = (proxy_list m
       !! Z.to_nat (current_proxy_index m mod Z.of_nat (length (proxy_list m))),
     set_proxy_index m (current_proxy_index m + 1)).
Proof.
  intros He Hl. unfold _get_next_proxy. rewrite He.
  rewrite bool_decide_eq_false_2 by exact Hl. reflexivity.
Qed.

Lemma next_proxies_enabled k m :
  enable_proxy m = true -> proxy_list m <> [] ->
  (next_proxies k m).1
  = (fun j => proxy_list m
                !! Z.to_nat ((current_proxy_index m + Z.of_nat j)
                             mod Z.of_nat (length (proxy_list m))))
      <$> seq 0 k.
Proof.
  revert m. induction k as [|k IH]; intros m He Hl; [reflexivity|].
  cbn [next_proxies]. rewrite (get_next_proxy_enabled m He Hl).
  specialize (IH (set_proxy_index m (current_proxy_index m + 1)) He Hl).
  destruct (next_proxies k _) as [ps m']. simpl in *. rewrite IH.
  f_equal; [rewrite Z.add_0_r; reflexivity|].
  rewrite <- seq_shift, <- list_fmap_compose. apply list_fmap_ext.
  intros i j _. simpl. do 3 f_equal. lia.
Qed.

Lemma rotate_Permutation {A} n (l : list A) : rotate n l ≡ₚ l.
Proof. unfold rotate. rewrite Permutation_app_comm. rewrite take_drop. reflexivity. Qed.

(** Round robin: with proxies enabled, the [j]-th of a row of calls of
    [_get_next_proxy] (no other thread advancing the index in between) from
    index [i] returns [proxy_list[(i + j) % len(proxy_list)]], so that
    [len(proxy_list)] calls in a row return the list rotated by [i]: every
    proxy once. *)
Theorem proxies_rotate (m : t) :
  enable_proxy m = true -> proxy_list m <> [] -> 0 <= current_proxy_index m ->
  let n := length (proxy_list m) in
  (forall k j, (j < k)%nat ->
     (next_proxies k m).1 !! j
     = Some (proxy_list m
               !! Z.to_nat ((current_proxy_index m + Z.of_nat j) mod Z.of_nat n))) /\
  (next_proxies n m).1
  = Some <$> rotate (Z.to_nat (current_proxy_index m)) (proxy_list m) /\
  (next_proxies n m).1 ≡ₚ Some <$> proxy_list m.
Proof.
  intros He Hl Hi n.
  assert (Hk : forall k j, (j < k)%nat ->
     (next_proxies k m).1 !! j
     = Some (proxy_list m
               !! Z.to_nat ((current_proxy_index m + Z.of_nat j) mod Z.of_nat n))).
  { intros k j Hj. rewrite (next_proxies_enabled k m He Hl).
    rewrite list_lookup_fmap, lookup_seq_lt by exact Hj. reflexivity. }
  assert (Hrot : (next_proxies n m).1
                 = Some <$> rotate (Z.to_nat (current_proxy_index m)) (proxy_list m)).
  { apply list_eq. intros j. rewrite list_lookup_fmap.
    destruct (decide (j < n)%nat) as [Hj|Hj].
    - rewrite (Hk n j Hj), lookup_rotate_r by exact Hj.
      unfold rotate_nat_add. rewrite Z2Nat.id by exact Hi. fold n.
      assert (Hlt : (Z.to_nat ((current_proxy_index m + Z.of_nat j) mod Z.of_nat n) < n)%nat).
      { pose proof (Z.mod_pos_bound (current_proxy_index m + Z.of_nat j) (Z.of_nat n)
                      ltac:(lia)). lia. }
      destruct (lookup_lt_is_Some_2 (proxy_list m) _ Hlt) as [x Hx].
      rewrite Hx. reflexivity.
    - rewrite !lookup_ge_None_2; [reflexivity| |].
      + rewrite length_rotate. fold n. lia.
      + rewrite (next_proxies_enabled n m He Hl), length_fmap, length_seq. lia. }
  split; [exact Hk|]. split; [exact Hrot|].
  rewrite Hrot, rotate_Permutation. reflexivity.
Qed.

Section Proxies.

Variable unquote : string -> string.

Lemma fetch_proxy net url p m :
  enable_proxy m = true -> proxy_list m <> [] ->
  let r := fetch net url p m in
  enable_proxy r.2 = true /\ proxy_list r.2 = proxy_list m /\
  current_proxy_index r.2 = current_proxy_index m + 1 /\
  (exists range,
     requests_sent r.2
     = requests_sent m
       ++ [mkRequest GET url range
             (proxy_list m
                !! Z.to_nat (current_proxy_index m mod Z.of_nat (length (proxy_list m))))]) /\
  (always_fails net -> r.1 = inl RequestException).
Proof.
  intros He Hl. cbv zeta. unfold fetch. rewrite (get_next_proxy_enabled m He Hl).
  pose proof (fun (Hnet : always_fails net) => proj2 Hnet) as Hget.
  match goal with |- context [on_get net ?i0 ?r0] =>
    pose proof (fun Hnet => Hget Hnet i0 r0) as Hg;
    destruct (on_get net i0 r0) as [f|chunks [f|]]
  end; simpl;
    (split; [exact He|]); (split; [reflexivity|]); (split; [reflexivity|]);
    (split; [eexists; reflexivity|]);
    intros Hnet; destruct (Hg Hnet) as [H|[c H]]; congruence.
Qed.

Lemma probe_proxy net url keyword_dir m :
  enable_proxy m = true -> proxy_list m <> [] ->
  let r := probe unquote net url keyword_dir m in
  enable_proxy r.2 = true /\ proxy_list r.2 = proxy_list m /\
  current_proxy_index r.2 = current_proxy_index m + 1 /\
  requests_sent r.2
  = requests_sent m
    ++ [mkRequest HEAD url None
          (proxy_list m
             !! Z.to_nat (current_proxy_index m mod Z.of_nat (length (proxy_list m))))] /\
  ((forall k r, exists h, on_head net k r = HeadOk h) -> exists p, r.1 = inr p).
Proof.
  intros He Hl. cbv zeta. unfold probe. rewrite (get_next_proxy_enabled m He Hl).
  match goal with |- context [on_head net ?i0 ?r0] =>
    pose proof (fun (H : forall k r, exists h, on_head net k r = HeadOk h) => H i0 r0)
      as Hh;
    destruct (on_head net i0 r0) as [f|h]
  end; simpl;
    (split; [exact He|]); (split; [reflexivity|]); (split; [reflexivity|]);
    (split; [reflexivity|]); intros H.
  - destruct (Hh H) as [h [=]].
  - eexists. reflexivity.
Qed.

Lemma on_request_exception_retry net url attempt max_retries known m :
  attempt < max_retries - 1 ->
  enable_proxy m = true -> proxy_list m <> [] ->
  exists m',
    on_request_exception net url attempt max_retries known m = inl m' /\
    requests_sent m' = requests_sent m /\ enable_proxy m' = true /\
    proxy_list m' = proxy_list m /\
    current_proxy_index m' = current_proxy_index m + 1.
Proof.
  intros Hlt He Hl. unfold on_request_exception.
  destruct (Z.ltb_spec attempt (max_retries - 1)) as [_|]; [|lia].
  cbn [enable_proxy proxy_list print sleep].
  rewrite He, bool_decide_eq_false_2 by exact Hl. cbn [andb negb].
  eexists. split; [reflexivity|]. simpl. repeat split. exact He.
Qed.

Lemma on_request_exception_last net url attempt max_retries known m :
  max_retries - 1 <= attempt ->
  exists d,
    on_request_exception net url attempt max_retries known m = inr d /\
    requests_sent (after d) = requests_sent m.
Proof.
  intros Hge. unfold on_request_exception.
  destruct (Z.ltb_spec attempt (max_retries - 1)) as [|_]; [lia|].
  eexists. split; [reflexivity|]. destruct known; reflexivity.
Qed.

(** The transfers of a call whose transfers all fail, from any attempt on:
    the index advances by two from one transfer to the next. *)
Lemma attempts_proxies remaining attempt net url keyword_dir max_retries p m :
  always_fails net ->
  enable_proxy m = true -> proxy_list m <> [] ->
  S remaining = Z.to_nat (max_retries - attempt) ->
  let d := attempts unquote (S remaining) attempt net url keyword_dir max_retries
             (Some p) m in
  exists new,
    requests_sent (after d) = requests_sent m ++ new /\
    Forall (fun r => req_method r = GET) new /\
    req_proxy <$> new
    = (fun j => proxy_list m
                  !! Z.to_nat ((current_proxy_index m + 2 * Z.of_nat j)
                               mod Z.of_nat (length (proxy_list m))))
        <$> seq 0 (S remaining).
Proof.
  intros Hnet. revert attempt m.
  induction remaining as [|n IH]; intros attempt m He Hl Hrem; cbv zeta;
    rewrite attempts_S; unfold attempt_body;
    pose proof (fetch_proxy net url p m He Hl) as Hf; cbv zeta in Hf;
    destruct (fetch net url p m) as [r m1]; simpl in Hf;
    destruct Hf as (He1 & Hl1 & Hi1 & [range Hs1] & Hr); rewrite (Hr Hnet).
  - destruct (on_request_exception_last net url attempt max_retries (Some p) m1
                ltac:(lia)) as (d & -> & Hd).
    eexists [_]. split; [rewrite Hd, Hs1; reflexivity|].
    split; [repeat constructor|]. simpl. rewrite Z.add_0_r. reflexivity.
  - destruct (on_request_exception_retry net url attempt max_retries (Some p) m1
                ltac:(lia) He1 ltac:(rewrite Hl1; exact Hl))
      as (m2 & -> & Hs2 & He2 & Hl2 & Hi2).
    destruct (IH (attempt + 1) m2 He2 ltac:(rewrite Hl2, Hl1; exact Hl) ltac:(lia))
      as (new & Hs & Hg & Hp).
    rewrite Hl2, Hl1, Hi2, Hi1 in Hp.
    eexists (_ :: new). split; [rewrite Hs, Hs2, Hs1, <- app_assoc; reflexivity|].
    split; [constructor; [reflexivity|exact Hg]|].
    rewrite fmap_cons, Hp. cbn [req_proxy].
    change (seq 0 (S (S n))) with (0%nat :: seq 1 (S n)).
    rewrite fmap_cons, Z.add_0_r. f_equal.
    rewrite <- seq_shift, <- list_fmap_compose. apply list_fmap_ext.
    intros i j _. simpl. do 3 f_equal. lia.
Qed.

(** With proxies enabled, a call (running alone) whose probe is answered and
    whose transfers all fail sends the probe through the proxy at the current
    index [i] and its [k]-th transfer through the proxy at [i + 1 + 2k]: the
    index is advanced by [_get_next_proxy] and again by the [except] branch,
    so that every retry skips one proxy of the rotation.  With two proxies in
    the list all the transfers of the call therefore go through the same
    proxy. *)
Theorem retries_skip_a_proxy net url keyword_dir max_retries m :
  always_fails net ->
  (forall k r, exists h, on_head net k r = HeadOk h) ->
  enable_proxy m = true -> proxy_list m <> [] -> 0 < max_retries ->
  let d := download_with_retry unquote net url keyword_dir max_retries m in
  let proxy_at i := proxy_list m !! Z.to_nat (i mod Z.of_nat (length (proxy_list m))) in
  exists probe transfers,
    requests_sent (after d) = requests_sent m ++ probe :: transfers /\
    req_method probe = HEAD /\ req_proxy probe = proxy_at (current_proxy_index m) /\
    Forall (fun r => req_method r = GET) transfers /\
    req_proxy <$> transfers
    = (fun k => proxy_at (current_proxy_index m + 1 + 2 * Z.of_nat k))
        <$> seq 0 (Z.to_nat max_retries) /\
    (length (proxy_list m) = 2%nat ->
     Forall (fun r => req_proxy r = proxy_at (current_proxy_index m + 1)) transfers).
Proof.
  intros Hnet Hhead He Hl Hmax d proxy_at. subst d. unfold download_with_retry.
  destruct (Z.to_nat max_retries) as [|r] eqn:Hr; [lia|].
  pose proof (probe_proxy net url keyword_dir m He Hl) as Hp. cbv zeta in Hp.
  destruct (probe unquote net url keyword_dir m) as [res m1] eqn:Eprobe. simpl in Hp.
  destruct Hp as (He1 & Hl1 & Hi1 & Hs1 & Hres). destruct (Hres Hhead) as [p ->].
  assert (Hsame : attempts unquote (S r) 0 net url keyword_dir max_retries None m
                  = attempts unquote (S r) 0 net url keyword_dir max_retries (Some p) m1).
  { rewrite !attempts_S. unfold attempt_body. rewrite Eprobe. reflexivity. }
  rewrite Hsame.
  destruct (attempts_proxies r 0 net url keyword_dir max_retries p m1 Hnet He1
              ltac:(rewrite Hl1; exact Hl) ltac:(lia)) as (new & Hs & Hg & Hpx).
  rewrite Hl1, Hi1 in Hpx.
  assert (Hpx' : req_proxy <$> new
                 = (fun k => proxy_at (current_proxy_index m + 1 + 2 * Z.of_nat k))
                     <$> seq 0 (S r)) by exact Hpx.
  eexists _, new. split; [rewrite Hs, Hs1, <- app_assoc; reflexivity|].
  split; [reflexivity|]. split; [reflexivity|]. split; [exact Hg|].
  split; [exact Hpx'|].
  intros Htwo.
  apply (Forall_fmap req_proxy (fun x => x = proxy_at (current_proxy_index m + 1))).
  rewrite Hpx'. apply Forall_fmap, Forall_forall. intros k _. simpl.
  unfold proxy_at. rewrite Htwo. do 2 f_equal.
  change (Z.of_nat 2) with 2.
  rewrite Z.mul_comm, Z.mod_add by lia. reflexivity.
Qed.

(** Whatever holds of the paths that a probe settles on holds of the paths a
    call ends with. *)
Lemma attempts_paths (P : paths -> Prop) remaining attempt net url keyword_dir
    max_retries known m :
  (forall m0 p, (probe unquote net url keyword_dir m0).1 = inr p -> P p) ->
  (forall p, known = Some p -> P p) ->
  forall p,
    paths_known (attempts unquote remaining attempt net url keyword_dir max_retries
                   known m) = Some p -> P p.
Proof.
  intros Hprobe. revert attempt known m.
  induction remaining as [|n IH]; intros attempt known m Hk p; [exact (Hk p)|].
  rewrite attempts_S.
  assert (Hk' : forall p, (attempt_body unquote net url keyword_dir known m).1.2 = Some p
                          -> P p).
  { unfold attempt_body. destruct known as [p0|].
    - destruct (fetch net url p0 m). exact Hk.
    - pose proof (Hprobe m) as Hp.
      destruct (probe unquote net url keyword_dir m) as [[f|p0] m1]; simpl in *.
      + intros p1 [=].
      + destruct (fetch net url p0 m1). simpl. intros p1 [= <-]. apply Hp. reflexivity. }
  destruct (attempt_body unquote net url keyword_dir known m) as [[res known'] m1].
  simpl in Hk'.
  destruct res as [[|]|path]; simpl; [|exact (Hk' p)..].
  pose proof (on_request_exception_frame net url attempt max_retries known' m1) as Hx.
  destruct (on_request_exception net url attempt max_retries known' m1) as [m2|d].
  - apply IH. exact Hk'.
  - destruct Hx as (_ & _ & -> & _). exact (Hk' p).
Qed.

Lemma strip_chars_clean chars (s : string) :
  all_chars (fun c => negb (is_one_of chars c)) s = true -> strip_chars chars s = s.
Proof.
  intros H. unfold strip_chars.
  assert (Hr : rstrip (is_one_of chars) s = s).
  { induction s as [|c s IH]; [reflexivity|]. simpl in H.
    apply andb_true_iff in H as [Hc Hs]. apply negb_true_iff in Hc.
    simpl. rewrite (IH Hs), Hc. destruct s; reflexivity. }
  rewrite Hr. destruct s as [|c s]; [reflexivity|]. simpl in H.
  apply andb_true_iff in H as [Hc _]. apply negb_true_iff in Hc.
  simpl. rewrite Hc. reflexivity.
Qed.

(** The name that the server sends is not confined to the folder of the
    keyword: when the [Content-Disposition] of the probe names an absolute
    path, [filename="/v"], the download is written to [/v], whatever
    [keyword_dir] is. *)
Theorem served_name_can_leave_the_folder net url keyword_dir max_retries m h v path :
  all_chars (fun c => negb (Ascii.eqb c newline_char) && negb (Ascii.eqb c "*")
                      && negb (is_one_of (String dquote (String squote EmptyString)) c))
            v = true ->
  content_disposition h
  = Some ("attachment; filename="
          ++ String dquote (("/" ++ v) ++ String dquote EmptyString))%string ->
  (forall k r, on_head net k r = HeadOk h) ->
  let d := download_with_retry unquote net url keyword_dir max_retries m in
  result d = Returns (Some path) ->
  path = ("/" ++ v)%string /\ is_Some (files (after d) !! ("/" ++ v)%string) /\
  _extract_filename_from_response unquote h url = ("/" ++ v)%string.
Proof.
  intros Hv Hcd Hhead d Hres.
  assert (Hparts : all_chars (fun c => negb (Ascii.eqb c newline_char)
                                       && negb (Ascii.eqb c dquote)) v = true /\
                   all_chars (fun c => negb (Ascii.eqb c "*")) v = true /\
                   all_chars (fun c => negb (is_one_of
                                (String dquote (String squote EmptyString)) c)) v = true).
  { clear -Hv. induction v as [|c v IH]; [repeat split|].
    simpl in Hv. apply andb_true_iff in Hv as [Hc Hv].
    apply andb_true_iff in Hc as [Hc H3]. apply andb_true_iff in Hc as [H1 H2].
    destruct (IH Hv) as (I1 & I2 & I3).
    cbn [all_chars]. rewrite I1, I2, I3, H1, H2, H3, !andb_true_r.
    split; [|split; reflexivity].
    unfold is_one_of in H3. simpl in H3. apply negb_true_iff in H3.
    apply orb_false_iff in H3 as [H3 _]. rewrite H3. reflexivity. }
  destruct Hparts as (Hnq & Hstar & Hclean).
  assert (Hname : _extract_filename_from_response unquote h url = ("/" ++ v)%string).
  { rewrite extract_filename_steps.
    unfold extended_filename, basic_filename. rewrite Hcd. cbn [default]. unfold id.
    match goal with |- context [String.eqb ?a EmptyString] =>
      replace (String.eqb a EmptyString) with false by reflexivity end.
    rewrite no_extended_directive.
    2:{ change (all_chars (fun c => negb (Ascii.eqb c "*"))
                  ("attachment; filename=" ++ String dquote (String "/" EmptyString)
                   ++ (v ++ String dquote EmptyString)) = true).
        rewrite !all_chars_app, Hstar. reflexivity. }
    cbn [mbind option_bind].
    change ("attachment; filename="
            ++ String dquote (("/" ++ v) ++ String dquote EmptyString))%string
      with ("attachment; " ++ "filename="
            ++ String dquote (("/" ++ v) ++ String dquote EmptyString))%string.
    rewrite (basic_directive_quoted "attachment; " ("/" ++ v) EmptyString);
      [|reflexivity|discriminate|rewrite all_chars_app, Hnq; reflexivity
       |reflexivity].
    unfold strip_quotes. apply strip_chars_clean.
    rewrite all_chars_app, Hclean. reflexivity. }
  assert (Hp : forall p, paths_known d = Some p -> local_path p = ("/" ++ v)%string).
  { apply (attempts_paths (fun p => local_path p = ("/" ++ v)%string)); [|discriminate].
    intros m0 p. unfold probe. destruct (_get_next_proxy m0) as [px m1].
    rewrite Hhead, Hname. intros [= <-]. reflexivity. }
  pose proof (attempts_files unquote (Z.to_nat max_retries) 0 net url keyword_dir
                max_retries None m ltac:(intros p [=])) as Hf.
  cbv zeta in Hf. fold (download_with_retry unquote net url keyword_dir max_retries m) in Hf.
  fold d in Hf. destruct Hf as (_ & _ & Hf).
  destruct (paths_known d) as [p|] eqn:Ek.
  - rewrite Hres in Hf. destruct Hf as (_ & -> & Hsome & _).
    rewrite <- (Hp p eq_refl). repeat split; try assumption.
    rewrite (Hp p eq_refl). exact Hname.
  - destruct Hf as [_ Hf]. destruct (Hf path Hres).
Qed.

End Proxies.
Lemma uniform_between (a b random : Q) :
  (a <= b)%Q -> (0 <= random)%Q -> (random <= 1)%Q ->
  (a <= uniform a b random)%Q /\ (uniform a b random <= b)%Q.
Proof.
  intros Hab H0 H1. unfold uniform.
  assert (Hp : (0 <= (b - a) * random)%Q) by (apply Qmult_le_0_compat; lra).
  assert (Hq : (0 <= (b - a) * (1 - random))%Q) by (apply Qmult_le_0_compat; lra).
  split; [lra|]. lra.
Qed.

(** [_apply_intelligent_delay], called by one thread at a time, keeps
    requests apart: when the delay range is well formed and a sleep lasts at
    least as long as asked, the time stored for this request is later than the
    time stored for the previous one by the delay drawn at least, hence by
    [min_delay] at least.  The call sleeps
    only for a positive time, never longer than [max_delay] when the clock has
    not run backwards, and does not sleep at all when the previous request is
    [max_delay] or more in the past. *)
Theorem requests_are_spaced (p : pacer) (current_time random wake : Q) :
  ((request_delay p).1 <= (request_delay p).2)%Q ->
  (0 <= random)%Q -> (random <= 1)%Q ->
  let r := _apply_intelligent_delay p current_time random wake in
  (current_time + default 0%Q r.1 <= wake)%Q ->
  last_request_time r.2 = wake /\
  request_delay r.2 = request_delay p /\
  (last_request_time p + (request_delay p).1 <= last_request_time r.2)%Q /\
  (forall slept, r.1 = Some slept ->
     (0 < slept)%Q /\
     (last_request_time p <= current_time -> slept <= (request_delay p).2)%Q) /\
  ((request_delay p).2 <= current_time - last_request_time p -> r.1 = None)%Q.
Proof.
  unfold _apply_intelligent_delay. destruct (request_delay p) as [a b] eqn:Ed.
  cbn [fst snd]. intros Hab H0 H1.
  destruct (uniform_between a b random Hab H0 H1) as [Hlo Hhi].
  destruct (Qltb (current_time - last_request_time p) (uniform a b random)) eqn:E;
    cbn [fst snd default last_request_time request_delay]; unfold id; intros Hwake.
  - apply Qltb_lt in E. split; [reflexivity|]. split; [reflexivity|]. split; [lra|].
    split; [|intros; lra].
    intros slept [= <-]. split; [lra|]. intros; lra.
  - apply Qltb_ge in E. split; [reflexivity|]. split; [reflexivity|]. split; [lra|].
    split; [discriminate|reflexivity].
Qed.

(** Three attempts against the server that breaks every transfer, in a folder
    that holds the temporary file of an earlier run. *)
Lemma download_without_result_leaves_no_trace_witness :
  result (download_with_retry (fun s => s) breaking_server "https://example.com/a"
            "download/pets" 3 with_partial) = Returns None /\
  (files (after (download_with_retry (fun s => s) breaking_server
                   "https://example.com/a" "download/pets" 3 with_partial))
   = files with_partial \/
   exists k r h,
     on_head breaking_server k r = HeadOk h /\ req_method r = HEAD /\
     req_url r = "https://example.com/a"%string /\
     files (after (download_with_retry (fun s => s) breaking_server
                     "https://example.com/a" "download/pets" 3 with_partial))
     = delete (os_path_join "download/pets"
                 (_extract_filename_from_response (fun s => s) h "https://example.com/a")
               +:+ ".tmp")%string
              (files with_partial)).
Proof.
  assert (H : result (download_with_retry (fun s => s) breaking_server
                        "https://example.com/a" "download/pets" 3 with_partial)
              = Returns None) by (vm_compute; reflexivity).
  split; [exact H|].
  exact (download_without_result_leaves_no_trace (fun s => s) breaking_server
           "https://example.com/a" "download/pets" 3 with_partial H).
Defined.

(** A link is downloaded for one keyword and asked for again for another. *)
Lemma downloaded_link_is_reused_witness :
  url_mapping fresh !! strip " https://example.com/a " = None /\
  url_mapping
    (_process_single_url (fun s => s) plain_server " https://example.com/a "
       "download/pets" fresh).2
  !! strip " https://example.com/a " = Some "download/pets/a.png" /\
  requests_sent
    (_process_single_url (fun s => s) breaking_server " https://example.com/a "
       "download/cats"
       (_process_single_url (fun s => s) plain_server " https://example.com/a "
          "download/pets" fresh).2).2
  = requests_sent
      (_process_single_url (fun s => s) plain_server " https://example.com/a "
         "download/pets" fresh).2.
Proof.
  assert (H1 : url_mapping fresh !! strip " https://example.com/a " = None)
    by reflexivity.
  assert (H2 : url_mapping
                 (_process_single_url (fun s => s) plain_server " https://example.com/a "
                    "download/pets" fresh).2
               !! strip " https://example.com/a " = Some "download/pets/a.png")
    by (vm_compute; reflexivity).
  split; [exact H1|]. split; [exact H2|].
  exact (proj1 (proj2 (downloaded_link_is_reused (fun s => s) plain_server
                         breaking_server " https://example.com/a " "download/pets"
                         "download/cats" fresh "download/pets/a.png" H1 H2))).
Defined.

(** Two proxies, two calls. *)
Lemma proxies_rotate_witness :
  enable_proxy with_proxies = true /\ proxy_list with_proxies <> [] /\
  0 <= current_proxy_index with_proxies /\
  (next_proxies 2 with_proxies).1 ≡ₚ Some <$> proxy_list with_proxies.
Proof.
  assert (H1 : enable_proxy with_proxies = true) by reflexivity.
  assert (H2 : proxy_list with_proxies <> []) by discriminate.
  assert (H3 : 0 <= current_proxy_index with_proxies) by (simpl; lia).
  split; [exact H1|]. split; [exact H2|]. split; [exact H3|].
  exact (proj2 (proj2 (proxies_rotate with_proxies H1 H2 H3))).
Defined.

(** Three attempts through two proxies against the server that breaks every
    transfer. *)
Lemma retries_skip_a_proxy_witness :
  always_fails breaking_server /\
  (forall k r, exists h, on_head breaking_server k r = HeadOk h) /\
  enable_proxy with_proxies = true /\ proxy_list with_proxies <> [] /\ 0 < 3 /\
  exists probe transfers,
    requests_sent (after (download_with_retry (fun s => s) breaking_server
                            "https://example.com/a" "download/pets" 3 with_proxies))
    = requests_sent with_proxies ++ probe :: transfers /\
    req_proxy <$> transfers
    = [Some "http://10.0.0.2:8080"; Some "http://10.0.0.2:8080";
       Some "http://10.0.0.2:8080"].
Proof.
  assert (H1 : forall k r, exists h, on_head breaking_server k r = HeadOk h)
    by (intros k r; eexists; reflexivity).
  assert (H2 : enable_proxy with_proxies = true) by reflexivity.
  assert (H3 : proxy_list with_proxies <> []) by discriminate.
  assert (H4 : 0 < 3) by lia.
  split; [exact breaking_server_always_fails|]. split; [exact H1|].
  split; [exact H2|]. split; [exact H3|]. split; [exact H4|].
  destruct (retries_skip_a_proxy (fun s => s) breaking_server "https://example.com/a"
              "download/pets" 3 with_proxies breaking_server_always_fails H1 H2 H3 H4)
    as (probe & transfers & Hs & _ & _ & _ & Hp & _).
  exists probe, transfers. split; [exact Hs|]. rewrite Hp. reflexivity.
Defined.

(** A server that names [/srv/www/index.html], a task for the folder of
    [pets]. *)
Lemma served_name_can_leave_the_folder_witness :
  content_disposition absolute_name
  = Some ("attachment; filename="
          ++ String dquote (("/" ++ "srv/www/index.html") ++ String dquote EmptyString))%string /\
  (forall k r, on_head absolute_server k r = HeadOk absolute_name) /\
  result (download_with_retry (fun s => s) absolute_server "https://example.com/a"
            "download/pets" 10 fresh)
  = Returns (Some "/srv/www/index.html") /\
  is_Some (files (after (download_with_retry (fun s => s) absolute_server
                           "https://example.com/a" "download/pets" 10 fresh))
           !! "/srv/www/index.html").
Proof.
  assert (H1 : content_disposition absolute_name
               = Some ("attachment; filename="
                       ++ String dquote (("/" ++ "srv/www/index.html")
                                         ++ String dquote EmptyString))%string)
    by reflexivity.
  assert (H2 : forall k r, on_head absolute_server k r = HeadOk absolute_name)
    by reflexivity.
  assert (H3 : result (download_with_retry (fun s => s) absolute_server
                         "https://example.com/a" "download/pets" 10 fresh)
               = Returns (Some "/srv/www/index.html")) by (vm_compute; reflexivity).
  split; [exact H1|]. split; [exact H2|]. split; [exact H3|].
  exact (proj1 (proj2 (served_name_can_leave_the_folder (fun s => s) absolute_server
                         "https://example.com/a" "download/pets" 10 fresh absolute_name
                         "srv/www/index.html" "/srv/www/index.html" eq_refl H1 H2 H3))).
Defined.

(** A request half a second after the last one, a draw of 2 seconds. *)
Lemma requests_are_spaced_witness :
  ((request_delay paced).1 <= (request_delay paced).2)%Q /\
  (0 <= 0.5)%Q /\ (0.5 <= 1)%Q /\
  (_apply_intelligent_delay paced 100.5 0.5 102).1 = Some (1 + (3 - 1) * 0.5 - (100.5 - 100))%Q /\
  (last_request_time paced + (request_delay paced).1
   <= last_request_time (_apply_intelligent_delay paced 100.5 0.5 102).2)%Q.
Proof.
  assert (H1 : ((request_delay paced).1 <= (request_delay paced).2)%Q)
    by (simpl; lra).
  assert (H2 : (0 <= 0.5)%Q) by lra.
  assert (H3 : (0.5 <= 1)%Q) by lra.
  assert (H4 : (100.5 + default 0%Q (_apply_intelligent_delay paced 100.5 0.5 102).1
                <= 102)%Q) by (vm_compute; discriminate).
  split; [exact H1|]. split; [exact H2|]. split; [exact H3|].
  split; [reflexivity|].
  exact (proj1 (proj2 (proj2 (requests_are_spaced paced 100.5 0.5 102 H1 H2 H3 H4)))).
Defined.

End DownloadMore.

(** * Further properties of the scraper *)

Module ScraperMore.
Import AntiSpiderConfig Scraper ScraperFacts.
Open Scope list_scope.
Open Scope Z_scope.

Lemma foldl_add_href (links : gset string) hrefs h :
  h ∈ foldl add_href links hrefs <-> h ∈ links \/ (h <> EmptyString /\ Some h ∈ hrefs).
Proof.
  revert links. induction hrefs as [|x hrefs IH]; intros links; simpl.
  - split; [auto|]. intros [H|[_ H]]; [exact H|]. inversion H.
  - rewrite IH. unfold add_href. destruct x as [x|].
    + destruct (decide (x = EmptyString)) as [->|Hx].
      * split; (intros [H|[Hne H]]; [left; exact H|right; split; [exact Hne|]]).
        -- right. exact H.
        -- apply elem_of_cons in H as [[= ->]|H]; [contradiction|exact H].
      * rewrite elem_of_union, elem_of_singleton.
        split.
        -- intros [[->|H]|[Hne H]]; [right; split; [exact Hx|left]|left; exact H|
                                      right; split; [exact Hne|right; exact H]].
        -- intros [H|[Hne H]]; [left; right; exact H|].
           apply elem_of_cons in H as [[= ->]|H]; [left; left; reflexivity|].
           right. split; assumption.
    + split; (intros [H|[Hne H]]; [left; exact H|right; split; [exact Hne|]]).
      * right. exact H.
      * apply elem_of_cons in H as [[=]|H]. exact H.
Qed.

Lemma size_foldl_add_href (links : gset string) hrefs :
  (size (foldl add_href links hrefs) <= size links + length hrefs)%nat.
Proof.
  revert links. induction hrefs as [|x hrefs IH]; intros links; simpl; [lia|].
  etransitivity; [apply IH|].
  assert (size (add_href links x) <= size links + 1)%nat; [|lia].
  unfold add_href. destruct x as [x|]; [|lia].
  destruct (decide (x = EmptyString)); [lia|].
  rewrite size_union_alt, size_singleton.
  assert (Hsub : links ∖ {[x]} ⊆ links)
    by (intros y Hy; apply elem_of_difference in Hy; tauto).
  pose proof (subseteq_size _ _ Hsub). lia.
Qed.

(** An extraction adds to the set exactly the [href] attributes that are
    present and not empty, and nothing else: no link is dropped, the empty
    string never gets in, and the number returned is the size of the set,
    which grows by at most one for each button read.  Reading the same
    buttons again changes nothing. *)
Theorem extraction_collects_hrefs (b : browser) (s : t) :
  let r := extract_download_links b s in
  let hrefs := rendered_hrefs b (extractions s) in
  (forall h, h ∈ download_links r.2 <->
             h ∈ download_links s \/ (h <> EmptyString /\ Some h ∈ hrefs)) /\
  (EmptyString ∉ download_links s -> EmptyString ∉ download_links r.2) /\
  r.1 = Z.of_nat (size (download_links r.2)) /\
  Z.of_nat (size (download_links s)) <= r.1
  <= Z.of_nat (size (download_links s)) + Z.of_nat (length hrefs) /\
  (hrefs = rendered_hrefs b (extractions r.2) ->
   download_links (extract_download_links b r.2).2 = download_links r.2).
Proof.
  intros r hrefs. unfold r, extract_download_links. cbn [fst snd download_links extractions].
  fold hrefs.
  split; [intros h; apply foldl_add_href|].
  split.
  { intros Hs H. apply foldl_add_href in H as [H|[H _]]; [contradiction|]. apply H. reflexivity. }
  split; [reflexivity|].
  split.
  { pose proof (size_foldl_add_href (download_links s) hrefs).
    pose proof (subseteq_size _ _ (add_href_grows (download_links s) hrefs)). lia. }
  intros <-. apply set_eq. intros h. rewrite !foldl_add_href. tauto.
Qed.

(** [scroll_page] makes one to three passes and stops at the first one that
    reads both heights: its result tells whether the page grew in that pass,
    and [request_count] is advanced by one.  When three passes in a row
    raise, it returns [False] and [request_count] is as before. *)
Theorem scroll_page_gives_up_after_three (b : browser) (s : t) :
  let r := scroll_page b s in
  exists n : nat,
    (1 <= n <= 3)%nat /\
    scroll_passes r.2 = (scroll_passes s + n)%nat /\
    (forall j, (j < n - 1)%nat -> scroll_outcome b (scroll_passes s + j) = Raises) /\
    match scroll_outcome b (scroll_passes s + (n - 1)) with
    | Measures before_height after_height =>
        r.1 = (after_height >? before_height) /\
        request_count r.2 = request_count s + 1
    | Raises => n = 3%nat /\ r.1 = false /\ request_count r.2 = request_count s
    end.
Proof.
  cbv zeta. unfold scroll_page. change (Z.to_nat MAX_RETRIES) with 3%nat.
  cbn [scroll_page_from]. change (0 <? MAX_RETRIES) with true. cbv iota.
  change (0 + 1 <? MAX_RETRIES) with true. cbv iota.
  cbn [scroll_passes search_keyword save_threshold MAX_SCROLL_ATTEMPTS
       download_links total_saved_links request_count extractions url_files].
  change (0 + 1 + 1 <? MAX_RETRIES) with true. cbv iota.
  cbn [scroll_passes search_keyword save_threshold MAX_SCROLL_ATTEMPTS
       download_links total_saved_links request_count extractions url_files].
  change (0 + 1 + 1 + 1 <? MAX_RETRIES) with false. cbv iota.
  destruct (scroll_outcome b (scroll_passes s)) as [|b0 a0] eqn:E0.
  - destruct (scroll_outcome b (S (scroll_passes s))) as [|b1 a1] eqn:E1.
    + exists 3%nat.
      replace (scroll_passes s + (3 - 1))%nat with (S (S (scroll_passes s))) by lia.
      split; [lia|].
      assert (Hj : forall j, (j < 3 - 1)%nat ->
                             scroll_outcome b (scroll_passes s + j) = Raises).
      { intros j Hj. destruct j as [|[|j]]; [rewrite Nat.add_0_r; exact E0| |lia].
        replace (scroll_passes s + 1)%nat with (S (scroll_passes s)) by lia. exact E1. }
      destruct (scroll_outcome b (S (S (scroll_passes s)))) as [|b2 a2];
        cbn [fst snd scroll_passes request_count];
        (split; [lia|]); (split; [exact Hj|]); repeat split.
    + exists 2%nat.
      replace (scroll_passes s + (2 - 1))%nat with (S (scroll_passes s)) by lia.
      rewrite E1. cbn [fst snd scroll_passes request_count].
      split; [lia|]. split; [lia|]. split; [|split; reflexivity].
      intros j Hj. replace j with 0%nat by lia. rewrite Nat.add_0_r. exact E0.
  - exists 1%nat. rewrite Nat.add_0_r, E0. cbn [fst snd scroll_passes request_count].
    split; [lia|]. split; [lia|]. split; [intros j Hj; lia|]. split; reflexivity.
Qed.

(** When the flush at the save threshold cannot write its file, the links
    are lost: the loop empties the set all the same, so the session end has
    nothing left to save, no file is written, and the links are counted in
    [total_saved_links] as if they had been saved. *)
Theorem failed_flush_loses_the_links (b : browser) (s : t) :
  reason (run_load_more_flow b false s) = ThresholdReached ->
  let s' := start b true false s in
  download_links s' = ∅ /\
  url_files s' = url_files s /\
  total_saved_links s + save_threshold s <= total_saved_links s'.
Proof.
  intros Hr. cbv zeta.
  pose proof (scroll_loop_store (Z.to_nat (MAX_SCROLL_ATTEMPTS s)) b false s 0 0 [])
    as [_ H].
  fold (run_load_more_flow b false s) in H. rewrite Hr in H.
  destruct H as (links & _ & Hth & Hempty & Htotal & Hfiles).
  unfold start. destruct (decide _) as [_|Hne]; [|contradiction].
  split; [exact Hempty|]. split; [exact Hfiles|]. lia.
Qed.

(** One link on the page and a threshold of one. *)
Lemma failed_flush_loses_the_links_witness :
  reason (run_load_more_flow one_link_page false (init "people" 1)) = ThresholdReached /\
  download_links (start one_link_page true false (init "people" 1)) = ∅ /\
  url_files (start one_link_page true false (init "people" 1)) = ∅.
Proof.
  assert (H : reason (run_load_more_flow one_link_page false (init "people" 1))
              = ThresholdReached) by (vm_compute; reflexivity).
  split; [exact H|].
  destruct (failed_flush_loses_the_links one_link_page (init "people" 1) H)
    as (H1 & H2 & _).
  split; [exact H1|exact H2].
Defined.

End ScraperMore.

Module PageFacts.
Import AntiSpiderConfig Page.
Open Scope list_scope.
Open Scope Z_scope.

(** [click_load_more_button] always returns [True] or [False], after three
    passes at most.  It returns [False] at once, without a retry, when the
    button is not there.  It backs off 2 seconds after the first pass that
    raises and 4 seconds after the second, and gives up after the third
    without sleeping, so that it never waits 8 seconds.  [request_count] is
    advanced, by one, exactly when it returns [True]. *)
Theorem click_backs_off_twice (outcome : nat -> click) (c : clicking) :
  let r := click_load_more_button outcome c in
  let k := click_passes c in
  (exists answer, r.1 = Some answer /\
     request_count r.2 = request_count c + (if answer then 1 else 0)) /\
  (exists slept, backoffs r.2 = backoffs c ++ slept /\ slept `prefix_of` [2; 4]) /\
  (click_passes c < click_passes r.2 <= click_passes c + 3)%nat /\
  (outcome k = NoButton -> r.1 = Some false /\ backoffs r.2 = backoffs c) /\
  (outcome k = ClickRaises -> outcome (S k) = ClickRaises ->
   outcome (S (S k)) = ClickRaises ->
   r.1 = Some false /\ backoffs r.2 = backoffs c ++ [2; 4]).
Proof.
  cbv zeta. unfold click_load_more_button. change (Z.to_nat MAX_RETRIES) with 3%nat.
  cbn [click_from]. change (0 <? MAX_RETRIES) with true. cbv iota.
  change (0 + 1 <? MAX_RETRIES) with true. cbv iota.
  cbn [click_passes request_count backoffs].
  change (0 + 1 + 1 <? MAX_RETRIES) with true. cbv iota.
  cbn [click_passes request_count backoffs].
  change (0 + 1 + 1 + 1 <? MAX_RETRIES) with false. cbv iota.
  change (RETRY_BACKOFF_FACTOR ^ (0 + 1)) with 2.
  change (RETRY_BACKOFF_FACTOR ^ (0 + 1 + 1)) with 4.
  destruct (outcome (click_passes c)) eqn:E0;
    [destruct (outcome (S (click_passes c))) eqn:E1;
       [destruct (outcome (S (S (click_passes c)))) eqn:E2|..]|..];
    cbn [fst snd click_passes request_count backoffs];
    (split; [eexists; split; [reflexivity|cbv iota; lia]|]);
    (split; [first [ exists []; split; [rewrite app_nil_r; reflexivity|apply prefix_nil]
                   | exists [2]; split; [reflexivity|exists [4]; reflexivity]
                   | exists [2; 4]; split; [rewrite <- app_assoc; reflexivity|reflexivity] ]|]);
    (split; [lia|]);
    (split; [try discriminate; intros _; split; reflexivity|]);
    try discriminate.
  intros _ _ _. split; [reflexivity|rewrite <- app_assoc; reflexivity].
Qed.

Lemma remove_old_spec {A : Type} (keep_last : Z) (nodes : list A) :
  0 <= keep_last ->
  exists kept,
    remove_old keep_last nodes = Some kept /\
    kept `suffix_of` nodes /\
    Z.of_nat (length kept) = Z.min (Z.of_nat (length nodes)) keep_last.
Proof.
  intros Hk. unfold remove_old.
  destruct (Z.gtb_spec (Z.of_nat (length nodes) - keep_last) 0) as [Hgt|Hle].
  - destruct (Z.gtb_spec (Z.of_nat (length nodes) - keep_last) (Z.of_nat (length nodes)))
      as [|_]; [lia|].
    eexists. split; [reflexivity|]. split; [apply suffix_drop|].
    rewrite length_drop. lia.
  - exists nodes. split; [reflexivity|]. split; [reflexivity|lia].
Qed.

(** [clean_old_images] keeps the newest nodes: with [keep_last >= 0], what is
    left of the images and of the buttons is the end of what was there,
    [keep_last] nodes or all of them when there were fewer, and cleaning again
    changes nothing.  With a negative [keep_last] every image is removed and
    the buttons are left as they are. *)
Theorem clean_old_images_keeps_the_newest {A B : Type} (keep_last : Z)
    (imgs : list A) (buttons : list B) :
  let r := clean_old_images keep_last imgs buttons in
  (0 <= keep_last ->
   r.1 `suffix_of` imgs /\ r.2 `suffix_of` buttons /\
   Z.of_nat (length r.1) = Z.min (Z.of_nat (length imgs)) keep_last /\
   Z.of_nat (length r.2) = Z.min (Z.of_nat (length buttons)) keep_last /\
   clean_old_images keep_last r.1 r.2 = r) /\
  (keep_last < 0 -> r = ([], buttons)).
Proof.
  cbv zeta. split.
  - intros Hk. unfold clean_old_images.
    destruct (remove_old_spec keep_last imgs Hk) as (i1 & -> & Hs1 & Hl1).
    destruct (remove_old_spec keep_last buttons Hk) as (b1 & -> & Hs2 & Hl2).
    cbn [fst snd]. repeat split; try assumption.
    assert (Hi : remove_old keep_last i1 = Some i1).
    { unfold remove_old. destruct (Z.gtb_spec (Z.of_nat (length i1) - keep_last) 0); [lia|].
      reflexivity. }
    assert (Hb : remove_old keep_last b1 = Some b1).
    { unfold remove_old. destruct (Z.gtb_spec (Z.of_nat (length b1) - keep_last) 0); [lia|].
      reflexivity. }
    rewrite Hi, Hb. reflexivity.
  - intros Hk. unfold clean_old_images, remove_old.
    destruct (Z.gtb_spec (Z.of_nat (length imgs) - keep_last) 0); [|lia].
    destruct (Z.gtb_spec (Z.of_nat (length imgs) - keep_last) (Z.of_nat (length imgs)));
      [reflexivity|lia].
Qed.

(** Five images and two buttons, the newest three kept. *)
Lemma clean_old_images_keeps_the_newest_witness :
  0 <= 3 /\
  clean_old_images 3 [1; 2; 3; 4; 5] [6; 7] = ([3; 4; 5], [6; 7]) /\
  clean_old_images 3 [3; 4; 5] [6; 7] = ([3; 4; 5], [6; 7]).
Proof.
  assert (H : 0 <= 3) by lia.
  split; [exact H|]. split; [reflexivity|].
  exact (proj2 (proj2 (proj2 (proj2
           (proj1 (clean_old_images_keeps_the_newest 3 [1; 2; 3; 4; 5] [6; 7]) H))))).
Defined.

End PageFacts.

Module HelperFacts.
Import Manager Helper DownloadMore.
Open Scope Q_scope.

(** [random_delay] never sleeps less than [min_delay] when it adds the
    jitter, however large the jitter is; and with [min_delay <= max_delay]
    and a draw in [[0, 1]] the sleep lies between [min_delay] and
    [max_delay], with or without jitter. *)
Theorem random_delay_within_bounds (min_delay max_delay : Q) (jitter : bool)
    (random normal : Q) :
  (jitter = true -> min_delay <= random_delay min_delay max_delay jitter random normal) /\
  (min_delay <= max_delay -> 0 <= random -> random <= 1 ->
   min_delay <= random_delay min_delay max_delay jitter random normal /\
   random_delay min_delay max_delay jitter random normal <= max_delay).
Proof.
  unfold random_delay, py_max, py_min. split.
  - intros ->.
    destruct (Qltb min_delay _) eqn:E; [apply Qltb_lt in E; lra|lra].
  - intros Hab H0 H1. destruct (uniform_between _ _ _ Hab H0 H1) as [Hlo Hhi].
    destruct jitter; [|split; assumption].
    generalize (uniform min_delay max_delay random
                + normal * ((max_delay - min_delay) * 0.1)). intros x.
    destruct (Qltb x max_delay) eqn:E1.
    + apply Qltb_lt in E1. destruct (Qltb min_delay x) eqn:E2.
      * apply Qltb_lt in E2. split; lra.
      * split; lra.
    + destruct (Qltb min_delay max_delay) eqn:E2; split; lra.
Qed.

(** The delay after a scroll, 2 to 5 seconds, with a jitter of ten standard
    deviations. *)
Lemma random_delay_within_bounds_witness :
  2 <= 5 /\ 0 <= 0.5 /\ 0.5 <= 1 /\
  2 <= random_delay 2 5 true 0.5 10 /\ random_delay 2 5 true 0.5 10 <= 5.
Proof.
  assert (H1 : 2 <= 5) by lra.
  assert (H2 : 0 <= 0.5) by lra.
  assert (H3 : 0.5 <= 1) by lra.
  split; [exact H1|]. split; [exact H2|]. split; [exact H3|].
  exact (proj2 (random_delay_within_bounds 2 5 true 0.5 10) H1 H2 H3).
Defined.

End HelperFacts.

(** * From the scraper to the downloader *)

Module PipelineFacts.
Import PyStr Regex Scraper Download Manager PyStrFacts DownloadMore.
Open Scope list_scope.

Lemma read_lines_line (l rest : string) :
  all_chars ends_no_line l = true ->
  read_lines ((l +:+ newline) +:+ rest) = (l +:+ newline) :: read_lines rest.
Proof.
  induction l as [|c l IH]; intros H; [reflexivity|].
  simpl in H. apply andb_true_iff in H as [Hc Hl].
  unfold ends_no_line in Hc. apply andb_true_iff in Hc as [H1 H2].
  apply negb_true_iff in H1, H2.
  change (read_lines ((String c l +:+ newline) +:+ rest))
    with (if Ascii.eqb c newline_char then newline :: read_lines ((l +:+ newline) +:+ rest)
          else if Ascii.eqb c carriage_return then
            match (l +:+ newline) +:+ rest with
            | String c' rest' =>
                if Ascii.eqb c' newline_char
                then newline :: read_lines rest'
                else newline :: read_lines ((l +:+ newline) +:+ rest)
            | EmptyString => [newline]
            end
          else match read_lines ((l +:+ newline) +:+ rest) with
               | [] => [String c EmptyString]
               | line :: lines => String c line :: lines
               end).
  rewrite H1, H2, (IH Hl). reflexivity.
Qed.

Lemma rstrip_snoc p (s : string) c :
  p c = true -> rstrip p (s +:+ String c EmptyString) = rstrip p s.
Proof.
  intros Hc. induction s as [|a s IH]; simpl; [rewrite Hc; reflexivity|].
  rewrite IH. reflexivity.
Qed.

Lemma strip_line (l : string) : strip (l +:+ newline) = strip l.
Proof. unfold strip, newline. rewrite rstrip_snoc by reflexivity. reflexivity. Qed.

Lemma read_lines_of_links (ls : list string) :
  Forall (fun l => strip l = l /\ all_chars ends_no_line l = true) ls ->
  strip <$> read_lines (String.concat EmptyString ((fun l => l +:+ newline) <$> ls)) = ls.
Proof.
  induction 1 as [|l ls [Hs Hl] _ IH]; [reflexivity|].
  assert (E : String.concat EmptyString ((fun l => l +:+ newline) <$> l :: ls)
              = (l +:+ newline) +:+ String.concat EmptyString ((fun l => l +:+ newline) <$> ls)).
  { destruct ls as [|l' ls]; simpl; [|reflexivity].
    clear. generalize (l +:+ newline). intros x.
    induction x as [|c x IHx]; [reflexivity|].
    change (String c x +:+ EmptyString) with (String c (x +:+ EmptyString)).
    rewrite <- IHx. reflexivity. }
  rewrite E, (read_lines_line l _ Hl), fmap_cons, strip_line, Hs, IH. reflexivity.
Qed.

(** From the scraper to the downloader: when no link contains a line end or
    starts or ends with white space, the lines that [process_all] reads from a
    file written by [save_links_to_file], stripped, are the links of the set,
    each of them once, so that there is one download task for each link. *)
Theorem saved_links_are_read_back (links : gset string) (folder keyword : string) :
  (forall l, l ∈ links -> strip l = l /\ all_chars ends_no_line l = true) ->
  strip <$> read_lines (link_lines links) = elements links /\
  download_tasks folder [(keyword, read_lines (link_lines links))]
  = (fun l => (l, os_path_join folder keyword)) <$> elements links /\
  NoDup (elements links).
Proof.
  intros H.
  assert (Hr : strip <$> read_lines (link_lines links) = elements links).
  { unfold link_lines. apply read_lines_of_links. apply Forall_forall.
    intros l Hl. apply H. apply elem_of_elements. exact Hl. }
  split; [exact Hr|]. split; [|apply NoDup_elements].
  unfold download_tasks. simpl. rewrite app_nil_r, <- Hr, <- list_fmap_compose.
  reflexivity.
Qed.

Lemma saved_links_are_read_back_witness :
  (forall l, l ∈ ({["https://unsplash.com/photos/1/download"%string]} : gset string) ->
             strip l = l /\ all_chars ends_no_line l = true) /\
  download_tasks "download"
    [("dog_1"%string,
      read_lines (link_lines {["https://unsplash.com/photos/1/download"%string]}))]
  = (fun l => (l, os_path_join "download" "dog_1"))
      <$> elements ({["https://unsplash.com/photos/1/download"%string]} : gset string).
Proof.
  assert (H : forall l,
             l ∈ ({["https://unsplash.com/photos/1/download"%string]} : gset string) ->
             strip l = l /\ all_chars ends_no_line l = true).
  { intros l Hl. apply elem_of_singleton in Hl. subst l. split; reflexivity. }
  split; [exact H|].
  exact (proj1 (proj2 (saved_links_are_read_back _ "download" "dog_1" H))).
Defined.

End PipelineFacts.

(** * Exceptions that escape *)

Module DownloadErrors.
Import PyStr Download Manager DownloadFacts.
Open Scope list_scope.
Open Scope Z_scope.

Section Escapes.

Variable unquote : string -> string.
Variable net : network.
Hypothesis Hnet : raises_requests_only net.

Lemma attempt_body_handled url keyword_dir known m :
  (attempt_body unquote net url keyword_dir known m).1.1 <> inl OtherException.
Proof.
  destruct Hnet as [Hhead Hget].
  assert (Hfetch : forall p m0, (fetch net url p m0).1 <> inl OtherException).
  { intros p m0. unfold fetch. destruct (_get_next_proxy m0) as [px m1].
    match goal with |- context [on_get net ?i0 ?r0] =>
      destruct (Hget i0 r0) as [H1 H2]; destruct (on_get net i0 r0) as [f|chunks [f|]]
    end; simpl; try discriminate.
    - intros [= ->]. contradiction.
    - intros [= ->]. apply (H2 chunks). reflexivity. }
  unfold attempt_body. destruct known as [p|].
  - specialize (Hfetch p m). destruct (fetch net url p m). exact Hfetch.
  - unfold probe. destruct (_get_next_proxy m) as [px m1].
    match goal with |- context [on_head net ?i0 ?r0] =>
      pose proof (Hhead i0 r0) as H1; destruct (on_head net i0 r0) as [f|h]
    end; simpl.
    + intros [= ->]. contradiction.
    + match goal with |- context [fetch net url ?p ?m0] =>
        specialize (Hfetch p m0); destruct (fetch net url p m0) end.
      exact Hfetch.
Qed.

Lemma attempts_return remaining attempt url keyword_dir max_retries known m :
  result (attempts unquote remaining attempt net url keyword_dir max_retries known m)
  <> Raised.
Proof.
  revert attempt known m. induction remaining as [|n IH]; intros attempt known m;
    [discriminate|].
  rewrite attempts_S.
  pose proof (attempt_body_handled url keyword_dir known m) as Hb.
  destruct (attempt_body unquote net url keyword_dir known m) as [[res known'] m1].
  simpl in Hb. destruct res as [[|]|path]; [|contradiction|discriminate].
  pose proof (on_request_exception_frame net url attempt max_retries known' m1) as Hx.
  destruct (on_request_exception net url attempt max_retries known' m1) as [m2|d].
  - apply IH.
  - destruct Hx as (_ & -> & _). discriminate.
Qed.

Lemma process_single_url_returns line keyword_dir m :
  (_process_single_url unquote net line keyword_dir m).1 = Returns tt.
Proof.
  assert (Hd : forall u, (download_and_record unquote net u keyword_dir m).1 = Returns tt).
  { intros u. unfold download_and_record, download_with_retry.
    pose proof (attempts_return (Z.to_nat 10) 0 u keyword_dir 10 None m) as Hr.
    destruct (result _) as [[path|]|]; [|reflexivity|contradiction].
    destruct (String.eqb path EmptyString); reflexivity. }
  unfold _process_single_url.
  destruct (String.eqb (strip line) EmptyString); [reflexivity|].
  destruct (url_mapping m !! strip line) as [source_file|]; [|apply Hd].
  destruct (files m !! source_file); [reflexivity|apply Hd].
Qed.

Lemma run_pool_returns pending pick tasks completed total m :
  Forall (fun future => future.2 = Returns tt)
         (run_pool unquote pending net pick tasks completed total m).1.
Proof.
  revert tasks completed m.
  induction pending as [|n IH]; intros tasks completed m; cbn [run_pool]; [constructor|].
  destruct (tasks !! (pick tasks mod length tasks)%nat) as [[url keyword_dir]|];
    [|constructor].
  pose proof (process_single_url_returns url keyword_dir m) as Hp.
  destruct (_process_single_url unquote net url keyword_dir m) as [r m1].
  simpl in Hp. subst r.
  match goal with |- context [run_pool _ n _ _ ?ts ?c _ ?m2] =>
    specialize (IH ts c m2); destruct (run_pool unquote n net pick ts c total m2)
  end.
  simpl in *. constructor; [reflexivity|exact IH].
Qed.

(** [download_with_retry] handles every exception of the [requests]
    hierarchy: on a network whose requests raise nothing else (the file
    operations being taken to succeed), no exception escapes from it,
    whatever [max_retries] is; no task of [process_all] raises, and
    [process_all] itself returns whenever it gets through the reading of its
    files and has a pool of at least one worker. *)
Theorem request_exceptions_do_not_escape url keyword_dir max_retries pick url_folder m :
  result (download_with_retry unquote net url keyword_dir max_retries m) <> Raised /\
  (_process_single_url unquote net url keyword_dir m).1 = Returns tt /\
  (0 < max_workers m ->
   (forall txt_files, url_folder = Some txt_files -> is_Some (readable txt_files)) ->
   exists futures,
     (process_all unquote net pick url_folder m).1 = Returns futures /\
     Forall (fun future => future.2 = Returns tt) futures).
Proof.
  split; [apply attempts_return|]. split; [apply process_single_url_returns|].
  intros Hw Hread. unfold process_all. destruct url_folder as [txt_files|].
  - destruct (Hread txt_files eq_refl) as [contents ->].
    cbn [max_workers download_folder print].
    destruct (Z.leb_spec (max_workers m) 0) as [|_]; [lia|].
    match goal with |- context [run_pool _ ?n _ _ ?ts ?c ?tot ?m2] =>
      pose proof (run_pool_returns n pick ts c tot m2) as Hp;
      destruct (run_pool unquote n net pick ts c tot m2) as [futures m3]
    end.
    exists futures. split; [reflexivity|exact Hp].
  - exists []. split; [reflexivity|constructor].
Qed.

End Escapes.

Lemma breaking_server_raises_requests_only : raises_requests_only breaking_server.
Proof. split; intros k r; simpl; [discriminate|]. split; [discriminate|]. intros c; discriminate. Qed.

(** Three links for the server that breaks every transfer. *)
Lemma request_exceptions_do_not_escape_witness :
  raises_requests_only breaking_server /\
  result (download_with_retry (fun s => s) breaking_server "https://example.com/a"
            "download/pets" 10 fresh) <> Raised.
Proof.
  split; [exact breaking_server_raises_requests_only|].
  exact (proj1 (request_exceptions_do_not_escape (fun s => s) breaking_server
                  breaking_server_raises_requests_only "https://example.com/a"
                  "download/pets" 10 (fun _ => 0%nat) None fresh)).
Defined.

End DownloadErrors.
